(** * BLKOUT IVOR backend: persona engine, provider client, conversation
      store and chat route, embedded from the TypeScript sources.

    Layout
    - [JsString]  : the JavaScript string operations the sources call
                    ([toLowerCase], [includes], [trim], [join]) and the
                    two validator.js functions of the message chain.
    - data model  : rows of [sqlite.setup.sql], thrown values, the world
                    the services run in, and a state-and-exception monad.
    - [IvorPersona]   : services/ivor.persona.ts
    - [GroqService]   : services/groq.service.ts
    - [SQLiteService] : database/sqlite.service.ts
    - [ChatRoutesSqlite], [ChatRoutes] : routes/chat.routes.sqlite.ts and
                    routes/chat.routes.ts
    - the vocabulary of the properties, sample data, and the properties.

    The string model: a JavaScript string is held as its UTF-8 text in
    a Rocq [string], the form in which the source files, the request
    body and SQLite hold it.  Searching for a piece of text gives the
    same answer on the UTF-8 text as on the UTF-16 code units, because
    no character's encoding occurs inside another's.  [trim] removes
    the white space of ECMAScript, [isLength] counts as validator.js
    counts, and [toLowerCase] is exact in the ASCII characters of its
    result, which is all the sources look at (see [JsString]).

    What the services cannot decide (random draws, generated ids, the
    clock, driver faults, the provider's answers) comes from an
    environment of oracles, so every statement below holds for every
    behaviour of those.  Calls to the logger have no effect on results
    or on the store and are left out. *)

From Stdlib Require Import String Ascii List Bool Arith NArith ZArith QArith Qround.
From Stdlib Require Import Lia Permutation Sorted DecimalString.
Import ListNotations.

Local Open Scope list_scope.
Local Open Scope string_scope.

(* ===================================================================== *)
(** * JavaScript strings *)
(* ===================================================================== *)

Module JsString.

Definition LF : string := String (ascii_of_nat 10) "".
Definition DQ : string := String (ascii_of_nat 34) "".

(** The text made of the given bytes. *)
Definition bytes (l : list nat) : string :=
  string_of_list_ascii (map ascii_of_nat l).

Definition is_upper (c : ascii) : bool :=
  let n := nat_of_ascii c in (65 <=? n)%nat && (n <=? 90)%nat.

(** Lower case of an ASCII letter; every other byte is left alone. *)
Definition lower_char (c : ascii) : ascii :=
  if is_upper c then ascii_of_nat (nat_of_ascii c + 32) else c.

(** U+0130 LATIN CAPITAL LETTER I WITH DOT ABOVE, bytes C4 B0. *)
Definition is_dotted_I (c1 c2 : ascii) : bool :=
  (nat_of_ascii c1 =? 196)%nat && (nat_of_ascii c2 =? 176)%nat.

(** U+212A KELVIN SIGN, bytes E2 84 AA. *)
Definition is_kelvin (c1 c2 c3 : ascii) : bool :=
  (nat_of_ascii c1 =? 226)%nat && (nat_of_ascii c2 =? 132)%nat
  && (nat_of_ascii c3 =? 170)%nat.

(** [s.toLowerCase()].  Three kinds of character have ASCII letters in
    their lower case: A-Z, the Kelvin sign (k) and the dotted capital I
    (i followed by U+0307, bytes CC 87).  Those are mapped as
    JavaScript maps them.  Every other character has a lower case
    without ASCII characters; it is kept as it is, which stands for
    that lower case.  The sources only ever search the result for an
    ASCII keyword, and that search cannot tell the two apart. *)
Fixpoint toLowerCase (s : string) : string :=
  match s with
  | EmptyString => EmptyString
  | String c1 s1 =>
      match s1 with
      | EmptyString => String (lower_char c1) (toLowerCase s1)
      | String c2 s2 =>
          if is_dotted_I c1 c2
          then String "i" (String (ascii_of_nat 204) (String (ascii_of_nat 135)
                                                             (toLowerCase s2)))
          else
            match s2 with
            | EmptyString => String (lower_char c1) (toLowerCase s1)
            | String c3 s3 =>
                if is_kelvin c1 c2 c3
                then String "k" (toLowerCase s3)
                else String (lower_char c1) (toLowerCase s1)
            end
      end
  end.

(** [s.includes(k)]: [k] occurs in [s] at some position. *)
Fixpoint includes (s k : string) : bool :=
  prefix k s ||
  match s with
  | EmptyString => false
  | String _ s' => includes s' k
  end.

(** How many positions of [s] start an occurrence of [k]. *)
Fixpoint occurrences (k s : string) : nat :=
  (if prefix k s then 1 else 0) +
  match s with
  | EmptyString => 0
  | String _ s' => occurrences k s'
  end.

(** White space of ECMAScript (WhiteSpace and LineTerminator), which is
    also what a regular expression's [\s] matches.  One byte: TAB, LF,
    VT, FF, CR and SPACE. *)
Definition is_space (c : ascii) : bool :=
  let n := nat_of_ascii c in
  ((9 <=? n)%nat && (n <=? 13)%nat) || (n =? 32)%nat.

(** Two bytes: U+00A0 (C2 A0). *)
Definition is_space2 (c1 c2 : ascii) : bool :=
  (nat_of_ascii c1 =? 194)%nat && (nat_of_ascii c2 =? 160)%nat.

(** Three bytes: U+1680 (E1 9A 80), U+2000 to U+200A (E2 80 80 to 8A),
    U+2028, U+2029, U+202F (E2 80 A8, A9, AF), U+205F (E2 81 9F),
    U+3000 (E3 80 80) and U+FEFF (EF BB BF). *)
Definition is_space3 (c1 c2 c3 : ascii) : bool :=
  let n1 := nat_of_ascii c1 in
  let n2 := nat_of_ascii c2 in
  let n3 := nat_of_ascii c3 in
  ((n1 =? 225) && (n2 =? 154) && (n3 =? 128))%nat
  || ((n1 =? 226) && (n2 =? 128)
      && (((128 <=? n3) && (n3 <=? 138)) || (n3 =? 168) || (n3 =? 169)
          || (n3 =? 175)))%nat
  || ((n1 =? 226) && (n2 =? 129) && (n3 =? 159))%nat
  || ((n1 =? 227) && (n2 =? 128) && (n3 =? 128))%nat
  || ((n1 =? 239) && (n2 =? 187) && (n3 =? 191))%nat.

(** [s.trimStart()] *)
Fixpoint trimStart (s : string) : string :=
  match s with
  | EmptyString => EmptyString
  | String c1 s1 =>
      if is_space c1 then trimStart s1
      else
        match s1 with
        | EmptyString => s
        | String c2 s2 =>
            if is_space2 c1 c2 then trimStart s2
            else
              match s2 with
              | EmptyString => s
              | String c3 s3 =>
                  if is_space3 c1 c2 c3 then trimStart s3 else s
              end
        end
  end.

(** The same on a text read from its end: the bytes of a character come
    last byte first. *)
Fixpoint trimStart_reversed (s : string) : string :=
  match s with
  | EmptyString => EmptyString
  | String c1 s1 =>
      if is_space c1 then trimStart_reversed s1
      else
        match s1 with
        | EmptyString => s
        | String c2 s2 =>
            if is_space2 c2 c1 then trimStart_reversed s2
            else
              match s2 with
              | EmptyString => s
              | String c3 s3 =>
                  if is_space3 c3 c2 c1 then trimStart_reversed s3 else s
              end
        end
  end.

Fixpoint reverse_onto (s acc : string) : string :=
  match s with
  | EmptyString => acc
  | String c s' => reverse_onto s' (String c acc)
  end.

Definition reverse (s : string) : string := reverse_onto s EmptyString.

(** [s.trimEnd()] *)
Definition trimEnd (s : string) : string :=
  reverse (trimStart_reversed (reverse s)).

(** [s.trim()] *)
Definition trim (s : string) : string := trimEnd (trimStart s).

(** [xs.join(sep)] *)
Definition join (sep : string) (xs : list string) : string :=
  String.concat sep xs.

(** Decimal rendering of a number inside a template literal. *)
Definition show_nat (n : nat) : string :=
  NilEmpty.string_of_uint (Nat.to_uint n).

(** A string is falsy exactly when it is empty. *)
Definition truthy (s : string) : bool :=
  match s with EmptyString => false | _ => true end.

(** The proper suffixes of [k], longest first. *)
Fixpoint suffixes (k : string) : list string :=
  match k with
  | EmptyString => []
  | String _ k' => k' :: suffixes k'
  end.

(** Some non-empty proper suffix of [k] starts [b]: an occurrence of [k]
    could then begin before [b] and end inside it. *)
Definition straddles (k b : string) : bool :=
  existsb (fun u => truthy u && prefix u b) (suffixes k).

(** The character [c] occurs in [s]. *)
Fixpoint has_char (c : ascii) (s : string) : bool :=
  match s with
  | EmptyString => false
  | String d s' => Ascii.eqb c d || has_char c s'
  end.

(** ** The specification's wording of a match

    [k] is a case-insensitive substring of [s]: some contiguous piece
    of [s] equals [k] once both are lower-cased. *)
Definition ci_substring (k s : string) : Prop :=
  exists pre mid post,
    s = pre ++ mid ++ post /\ toLowerCase mid = toLowerCase k.

(** Every byte of [k] is an ASCII character. *)
Definition is_ascii (k : string) : bool :=
  forallb (fun c => (nat_of_ascii c <? 128)%nat) (list_ascii_of_string k).

Fixpoint ends_in (c : ascii) (k : string) : bool :=
  match k with
  | EmptyString => false
  | String d EmptyString => Ascii.eqb c d
  | String _ k' => ends_in c k'
  end.

(** The keywords of the sources: ASCII text in lower case.  None of them
    ends in the letter i, the one letter that the lower case of another
    character (the dotted capital I) continues with a combining mark. *)
Definition is_keyword (k : string) : Prop :=
  is_ascii k = true /\ toLowerCase k = k /\ ends_in "i" k = false.

(** [y] is empty or starts with the first byte of a character. *)
Definition starts_character (y : string) : Prop :=
  match y with
  | EmptyString => True
  | String c _ => (nat_of_ascii c < 128 \/ 192 <= nat_of_ascii c)%nat
  end.

(** ** validator.js, the two functions of the chain on [message] *)

(** [str.length]: the UTF-16 code units of the text.  A byte 10xxxxxx
    continues a character; a character of four bytes takes two units. *)
Definition code_units (c : ascii) : nat :=
  let n := nat_of_ascii c in
  if (n <? 128)%nat then 1%nat
  else if (n <? 192)%nat then 0%nat
  else if (n <? 240)%nat then 1%nat
  else 2%nat.

Fixpoint utf16_length (s : string) : nat :=
  match s with
  | EmptyString => 0%nat
  | String c s' => (code_units c + utf16_length s')%nat
  end.

(** [str.match(/[\uD800-\uDBFF][\uDC00-\uDFFF]/g).length]: the characters
    of four bytes. *)
Fixpoint surrogate_pairs (s : string) : nat :=
  match s with
  | EmptyString => 0%nat
  | String c s' =>
      ((if (240 <=? nat_of_ascii c)%nat then 1 else 0) + surrogate_pairs s')%nat
  end.

(** [str.match(/(\uFE0F|\uFE0E)/g).length]: the variation selectors
    U+FE0E and U+FE0F (EF B8 8E, EF B8 8F). *)
Definition presentation_sequences (s : string) : nat :=
  (occurrences (bytes [239; 184; 142]%nat) s
   + occurrences (bytes [239; 184; 143]%nat) s)%nat.

(** [isLength(str, { min, max })] *)
Definition isLength (min max : nat) (str : string) : bool :=
  let len := (utf16_length str - presentation_sequences str
              - surrogate_pairs str)%nat in
  ((min <=? len) && (len <=? max))%nat.

(** [trim(str)] of validator.js strips [\s] from both ends, the white
    space [String.prototype.trim] strips. *)
Definition validator_trim (str : string) : string := trim str.

End JsString.
Import JsString.

(* ===================================================================== *)
(** * Data model: the rows of sqlite.setup.sql *)
(* ===================================================================== *)

(** [role TEXT NOT NULL CHECK (role IN ('user', 'assistant'))]; the
    TypeScript type ['user' | 'assistant'] admits nothing else. *)
Inductive Role : Type := user | assistant.

(** Values of the flat objects the routes build. *)
Inductive JsonValue : Type :=
| JString (s : string)
| JNumber (q : Q).

(** An object literal, fields in declaration order.  The [metadata]
    column holds [JSON.stringify] of such an object and the history route
    reads it back with [JSON.parse]; a row keeps the object itself. *)
Definition JsonObject : Type := list (string * JsonValue).

(** DATETIME columns: seconds on the database clock. *)
Definition DateTime : Type := N.

Record User : Type := mkUser {
  user_id : string;
  user_email : string
}.

Record Conversation : Type := mkConversation {
  conv_id : string;
  conv_user_id : option string;
  conv_started_at : DateTime;
  conv_last_message_at : DateTime;
  conv_context : string;
  conv_is_active : bool
}.

Record Message : Type := mkMessage {
  msg_id : string;
  msg_conversation_id : string;
  msg_role : Role;
  msg_content : string;
  msg_timestamp : DateTime;
  msg_rating : option Z;
  msg_metadata : JsonObject
}.

Record Feedback : Type := mkFeedback {
  fb_id : string;
  fb_message_id : string;
  fb_rating : Z;
  fb_feedback_text : option string;
  fb_created_at : DateTime;
  fb_user_id : option string
}.

Record CommunityResource : Type := mkCommunityResource {
  res_id : string;
  res_title : string;
  res_content : string;
  res_category : string;
  res_url : option string;
  res_organization : option string;
  res_location : option string;
  res_created_at : DateTime;
  res_updated_at : DateTime;
  res_is_active : bool
}.

Record CommunityStats : Type := mkCommunityStats {
  stat_id : string;
  stat_name : string;
  stat_value : string;
  stat_updated_at : DateTime;
  stat_category : string
}.

Record CommunityEvent : Type := mkCommunityEvent {
  ev_id : string;
  ev_title : string;
  ev_description : option string;
  ev_event_date : DateTime;
  ev_location : option string;
  ev_event_type : string;
  ev_is_virtual : bool;
  ev_max_attendees : option Z;
  ev_created_at : DateTime;
  ev_is_active : bool
}.

(** The tables, each in row-id (insertion) order. *)
Record Database : Type := mkDatabase {
  users : list User;
  conversations : list Conversation;
  messages : list Message;
  feedback : list Feedback;
  community_resources : list CommunityResource;
  community_stats : list CommunityStats;
  events : list CommunityEvent
}.

Definition set_conversations (cs : list Conversation) (d : Database) : Database :=
  mkDatabase (users d) cs (messages d) (feedback d)
             (community_resources d) (community_stats d) (events d).

Definition set_messages (ms : list Message) (d : Database) : Database :=
  mkDatabase (users d) (conversations d) ms (feedback d)
             (community_resources d) (community_stats d) (events d).

Definition set_feedback (fs : list Feedback) (d : Database) : Database :=
  mkDatabase (users d) (conversations d) (messages d) fs
             (community_resources d) (community_stats d) (events d).

Definition set_rating (r : option Z) (m : Message) : Message :=
  mkMessage (msg_id m) (msg_conversation_id m) (msg_role m) (msg_content m)
            (msg_timestamp m) r (msg_metadata m).

Definition set_last_message_at (t : DateTime) (c : Conversation) : Conversation :=
  mkConversation (conv_id c) (conv_user_id c) (conv_started_at c) t
                 (conv_context c) (conv_is_active c).

(* ===================================================================== *)
(** * Thrown values, environment, world, and the monad of the services *)
(* ===================================================================== *)

Inductive ConstraintKind : Type :=
| PRIMARYKEY | FOREIGNKEY | CHECK_FAILED.

(** What a [throw] or a rejected promise carries. *)
Inductive Exn : Type :=
| Error (message : string)              (* [new Error(message)] *)
| TypeError (message : string)          (* property read on [undefined] *)
| SQLITE_CONSTRAINT (kind : ConstraintKind)
| SQLITE_ERROR.                         (* any other rejection by the driver *)

(** [error.message] *)
Definition exn_message (e : Exn) : string :=
  match e with
  | Error m => m
  | TypeError m => m
  | SQLITE_CONSTRAINT PRIMARYKEY => "SQLITE_CONSTRAINT: UNIQUE constraint failed"
  | SQLITE_CONSTRAINT FOREIGNKEY => "SQLITE_CONSTRAINT: FOREIGN KEY constraint failed"
  | SQLITE_CONSTRAINT CHECK_FAILED => "SQLITE_CONSTRAINT: CHECK constraint failed"
  | SQLITE_ERROR => "SQLITE_ERROR"
  end.

(** Outcome of one [groq.chat.completions.create] call: the promise
    rejects, or resolves to a completion whose
    [choices[0]?.message?.content] is absent or a string. *)
Inductive Completion : Type :=
| Rejects (message : string)
| Resolves (content : option string).

(** Everything the services do not decide themselves, as oracles indexed
    by how many times each has been consulted. *)
Record Env : Type := mkEnv {
  random : nat -> N;          (* [Math.random()] in the persona: numerator over 2^53 *)
  generated_id : nat -> string; (* what [generateId()] produces *)
  now : nat -> DateTime;      (* clock read by the k-th SQL statement *)
  sql_fault : nat -> bool;    (* the driver rejects the k-th statement *)
  completion : nat -> Completion (* the k-th provider call *)
}.

(** Effects a caller of the provider client can observe. *)
Inductive Effect : Type :=
| GroqCall (prompt : string)
| Delay (ms : nat).

Record World : Type := mkWorld {
  db : option Database;   (* [SQLiteService.db], [None] before [initialize] *)
  stmts : nat;            (* SQL statements issued so far *)
  ids : nat;              (* [generateId()] calls so far *)
  draws : nat;            (* persona [Math.random()] draws so far *)
  calls : nat;            (* provider calls so far *)
  trace : list Effect     (* provider calls and delays, oldest first *)
}.

Definition Result (A : Type) : Type := (Exn + A)%type.

(** Computations: read the environment, thread the world, may throw. *)
Definition M (A : Type) : Type := Env -> World -> Result A * World.

Definition ret {A} (a : A) : M A := fun _ w => (inr a, w).

Definition bind {A B} (m : M A) (k : A -> M B) : M B :=
  fun e w =>
    match m e w with
    | (inr a, w') => k a e w'
    | (inl x, w') => (inl x, w')
    end.

Definition throw {A} (x : Exn) : M A := fun _ w => (inl x, w).

(** [try { body } catch (error) { handler }] *)
Definition try_catch {A} (body : M A) (handler : Exn -> M A) : M A :=
  fun e w =>
    match body e w with
    | (inr a, w') => (inr a, w')
    | (inl x, w') => handler x e w'
    end.

Declare Scope m_scope.
Delimit Scope m_scope with M.
Notation "x <- m ;; k" := (bind m (fun x => k))
  (at level 61, m at next level, right associativity) : m_scope.
Notation "m ;;; k" := (bind m (fun _ => k))
  (at level 61, right associativity) : m_scope.
Local Open Scope m_scope.

(** Primitive effects. *)

Definition tick_draws (w : World) : World :=
  mkWorld (db w) (stmts w) (ids w) (S (draws w)) (calls w) (trace w).

Definition tick_ids (w : World) : World :=
  mkWorld (db w) (stmts w) (S (ids w)) (draws w) (calls w) (trace w).

Definition tick_stmts (w : World) : World :=
  mkWorld (db w) (S (stmts w)) (ids w) (draws w) (calls w) (trace w).

Definition set_db (d : Database) (w : World) : World :=
  mkWorld (Some d) (stmts w) (ids w) (draws w) (calls w) (trace w).

Definition emit (x : Effect) (w : World) : World :=
  mkWorld (db w) (stmts w) (ids w) (draws w) (calls w) (trace w ++ [x])%list.

Definition tick_calls (w : World) : World :=
  mkWorld (db w) (stmts w) (ids w) (draws w) (S (calls w)) (trace w).

(** [Math.random()]: a double in [0, 1), here the rational k / 2^53 with
    k below 2^53.  Products with it are exact here, where JavaScript
    rounds them to a double; the rounded product with 5 stays below 5. *)
Definition Math_random : M Q :=
  fun e w =>
    (inr (Z.of_N (random e (draws w) mod 2 ^ 53) # 2 ^ 53), tick_draws w).

(** [Math.floor(x)] of a non-negative number, as an array index. *)
Definition Math_floor (x : Q) : nat := Z.to_nat (Qfloor x).

(** ** Arithmetic on doubles

    A number is held as the rational it denotes.  A product is the
    exact product rounded to the nearest double, ties to the even
    mantissa (for results between 2^-1022 and 2^1024 in size, which
    covers a random number times the length of a short array). *)

(** The exponent of [a / b]: the greatest [e] with [2^e <= a / b]. *)
Definition double_exponent (a b : Z) : Z :=
  let e0 := (Z.log2 a - Z.log2 b)%Z in
  if (if 0 <=? e0 then b * 2 ^ e0 <=? a else b <=? a * 2 ^ (- e0))%Z
  then e0 else (e0 - 1)%Z.

(** [n / d] to the nearest whole number, a tie to the even one. *)
Definition round_half_even (n d : Z) : Z :=
  let m := (n / d)%Z in
  let r := (n mod d)%Z in
  if (2 * r <? d)%Z then m
  else if (d <? 2 * r)%Z then (m + 1)%Z
  else if Z.even m then m else (m + 1)%Z.

(** [a / b], both positive, to 53 significant bits. *)
Definition round_positive (a b : Z) : Q :=
  let k := (52 - double_exponent a b)%Z in
  if (0 <=? k)%Z
  then round_half_even (a * 2 ^ k) b # Z.to_pos (2 ^ k)
  else inject_Z (round_half_even a (b * 2 ^ (- k)) * 2 ^ (- k)).

Definition round_double (q : Q) : Q :=
  match Qnum q with
  | Z0 => 0
  | Zpos _ => round_positive (Qnum q) (Zpos (Qden q))
  | Zneg _ => - round_positive (- Qnum q) (Zpos (Qden q))
  end.

(** [x * y] *)
Definition Number_mul (x y : Q) : Q := round_double (x * y).

(* ===================================================================== *)
(** * services/ivor.persona.ts *)
(* ===================================================================== *)

Module IvorPersona.

Record CommunityResponse : Type := mkCommunityResponse {
  message : string;
  context : string;
  resources : list string
}.

(** A JavaScript [Map]: entries in insertion order; [set] on a key that
    is present replaces its value in place, otherwise appends. *)
Definition JsMap : Type := list (string * CommunityResponse).

Fixpoint map_set (k : string) (v : CommunityResponse) (m : JsMap) : JsMap :=
  match m with
  | [] => [(k, v)]
  | (k', v') :: m' =>
      if (k =? k')%string then (k, v) :: m' else (k', v') :: map_set k v m'
  end.

Definition initializeCommunityKnowledge (m : JsMap) : JsMap :=
  (* Mental health and wellbeing *)
  let m := map_set "mental health" (mkCommunityResponse
    "I understand how important mental health is, especially as a QTIPOC person in the UK. You might find support through the NHS IAPT services, or community-specific support like Black Thrive BQC in South London. Many of us find strength in community connection too."
    "mental_health_support"
    ["NHS IAPT"; "Black Thrive BQC"; "Mind"; "LGBT Foundation"]) m in
  (* Housing and homelessness *)
  let m := map_set "housing" (mkCommunityResponse
    "Housing struggles are unfortunately common in our community. If you're facing homelessness or housing insecurity, The Outside Project offers LGBTQ+ specific housing support. Shelter and your local council's housing team can also help with your rights and options."
    "housing_support"
    ["Outside Project"; "Shelter"; "Local Council Housing"; "Crisis"]) m in
  (* Benefits and financial support *)
  let m := map_set "benefits" (mkCommunityResponse
    "Navigating the benefits system can be overwhelming. Citizens Advice offers free, confidential support with benefit claims and appeals. If you're LGBTQ+ and facing discrimination, the LGBT Foundation also has welfare rights advice."
    "financial_support"
    ["Citizens Advice"; "LGBT Foundation"; "Turn2us"; "StepChange"]) m in
  (* Coming out and identity *)
  let m := map_set "coming out" (mkCommunityResponse
    "Coming out is a deeply personal journey, and there's no 'right' way or timeline. The LGBT Foundation has great resources, and locally, organizations like Gendered Intelligence (for trans experiences) offer community support. You know yourself best."
    "identity_support"
    ["LGBT Foundation"; "Gendered Intelligence"; "Stonewall"; "Local LGBT+ groups"]) m in
  (* Discrimination and rights *)
  let m := map_set "discrimination" (mkCommunityResponse
    "I'm sorry you're experiencing discrimination. You have rights under the Equality Act 2010. ACAS offers free employment advice, and the Equality and Human Rights Commission can guide you on legal options. Remember, you deserve to be treated with dignity."
    "legal_rights"
    ["ACAS"; "EHRC"; "LGBT Foundation"; "Citizens Advice"]) m in
  (* Healthcare *)
  let m := map_set "healthcare" (mkCommunityResponse
    "Accessing affirming healthcare can be challenging. If you're trans, the NHS Gender Identity Clinics have long waits, but CliniQ offers community-specific sexual health services. For general healthcare concerns, don't be afraid to advocate for yourself with your GP."
    "healthcare_access"
    ["CliniQ"; "NHS"; "Terrence Higgins Trust"; "Local sexual health clinics"]) m in
  m.

(** The field as the constructor leaves it. *)
Definition communityKnowledge : JsMap :=
  Eval cbv in initializeCommunityKnowledge [].

(** Enhance user prompt with IVOR persona context. *)
Definition enhancePrompt (userMessage : string) : string :=
    LF ++
    "You are IVOR, a community AI assistant for BLKOUT, inspired by Ivor Cummings (1916-1991). " ++ LF ++
    "You embody warmth, wisdom, and deep community knowledge." ++ LF ++
    LF ++
    "YOUR IDENTITY:" ++ LF ++
    "- You are knowledgeable about QTIPOC (Queer, Trans, Intersex People of Colour) experiences" ++ LF ++
    "- You understand UK systems: NHS, benefits, housing, legal rights" ++ LF ++
    "- You speak with warmth and authenticity, never patronizing" ++ LF ++
    "- You connect people to community resources and mutual aid" ++ LF ++
    "- You honor intersectionality: race, sexuality, gender, class, disability" ++ LF ++
    LF ++
    "YOUR COMMUNICATION STYLE:" ++ LF ++
    "- Use " ++ DQ ++ "I" ++ DQ ++ " statements naturally" ++ LF ++
    "- Be conversational and warm, like talking to a friend" ++ LF ++
    "- Share knowledge without lecturing" ++ LF ++
    "- Acknowledge struggles while highlighting resilience" ++ LF ++
    "- Connect individual issues to community strength" ++ LF ++
    LF ++
    "UK COMMUNITY RESOURCES YOU KNOW:" ++ LF ++
    "- BLKOUT UK: Black LGBTQ+ community organization" ++ LF ++
    "- Black Thrive BQC: Queer and trans support in Brixton" ++ LF ++
    "- UK Black Pride: Annual celebration and year-round community" ++ LF ++
    "- Gendered Intelligence: Trans community support" ++ LF ++
    "- Outside Project: LGBTQ+ homelessness support" ++ LF ++
    "- LGBT Foundation: National support services" ++ LF ++
    LF ++
    "RESPOND TO: " ++ DQ ++ userMessage ++ DQ ++ LF ++
    LF ++
    "Remember: You're here to support, connect, and empower the QTIPOC community with authentic care.".

Definition supportKeywords : list string :=
  [ "help"; "struggling"; "difficult"; "hard"; "lonely"; "sad";
    "depressed"; "anxious"; "worried"; "scared"; "alone" ].

Definition isSeekingSupport (message : string) : bool :=
  existsb (fun keyword => includes (toLowerCase message) keyword)
          supportKeywords.

Definition resourceKeywords : list string :=
  [ "housing"; "benefits"; "nhs"; "mental health"; "support";
    "help"; "services"; "legal"; "rights"; "discrimination" ].

Definition needsUKResources (message : string) : bool :=
  existsb (fun keyword => includes (toLowerCase message) keyword)
          resourceKeywords.

(** [resources.push(a, b)] *)
Definition push (resources : list string) (items : list string) : list string :=
  (resources ++ items)%list.

Definition getRelevantUKResources (message : string) : list string :=
  let lowerMessage := toLowerCase message in
  let resources : list string := [] in
  let resources :=
    if includes lowerMessage "mental health" || includes lowerMessage "therapy"
    then push resources ["NHS IAPT"; "Black Thrive BQC"] else resources in
  let resources :=
    if includes lowerMessage "housing" || includes lowerMessage "homeless"
    then push resources ["Outside Project"; "Shelter"] else resources in
  let resources :=
    if includes lowerMessage "benefits" || includes lowerMessage "money"
    then push resources ["Citizens Advice"; "Turn2us"] else resources in
  let resources :=
    if includes lowerMessage "work" || includes lowerMessage "job"
    then push resources ["ACAS"; "LGBT Foundation"] else resources in
  let resources :=
    if includes lowerMessage "trans" || includes lowerMessage "gender"
    then push resources ["Gendered Intelligence"; "CliniQ"] else resources in
  resources.

Definition opener : string := "I understand what you're going through. ".

Definition solidarity : string :=
  LF ++ LF ++ "Remember, you're part of a strong community. We're here for each other.".

Definition resourcesHeader : string :=
  LF ++ LF ++ "Some UK resources that might help: ".

(** Process AI response to ensure IVOR authenticity. *)
Definition processResponse (aiResponse originalMessage : string) : string :=
  let processedResponse := aiResponse in
  (* Ensure warm, personal tone *)
  let processedResponse :=
    if negb (includes processedResponse "I ") && negb (includes processedResponse "I'm")
    then opener ++ processedResponse
    else processedResponse in
  (* Add community connection if relevant *)
  let processedResponse :=
    if isSeekingSupport originalMessage
    then processedResponse ++ solidarity
    else processedResponse in
  (* Add UK-specific context if relevant *)
  let processedResponse :=
    if needsUKResources originalMessage then
      let ukResources := getRelevantUKResources originalMessage in
      if (0 <? List.length ukResources)%nat
      then processedResponse ++ resourcesHeader ++ join ", " ukResources
      else processedResponse
    else processedResponse in
  processedResponse.

Definition fallbackResponses : list string :=
  [ "I'm here with you, even when technology isn't working perfectly. The BLKOUT community is built on resilience and mutual support. What you're feeling and experiencing matters.";
    "Technology might be giving me some challenges right now, but our community connection is stronger than any technical difficulty. I'm still here to listen and support you.";
    "I want to support you properly, but I'm having some technical difficulties at the moment. What I can tell you is that you're part of a powerful QTIPOC community that cares about you.";
    "While I work through some technical issues, please know that your voice and experiences are valued in our community. Is there something specific I can help you with when I'm back to full capacity?";
    "I'm experiencing some connectivity issues, but I don't want to leave you without support. The BLKOUT community has many resources and people who care. Your wellbeing matters to all of us." ].

(** [for (const [topic, response] of map) if (lowerMessage.includes(topic)) return response.message] *)
Fixpoint first_topic (lowerMessage : string) (entries : JsMap)
  : option CommunityResponse :=
  match entries with
  | [] => None
  | (topic, response) :: rest =>
      if includes lowerMessage topic then Some response
      else first_topic lowerMessage rest
  end.

(** Get fallback response when GROQ API fails.  An array read outside
    the array would give [undefined]; [EmptyString] stands for it. *)
Definition getFallbackResponse (userMessage : string) : M string :=
  let lowerMessage := toLowerCase userMessage in
  match first_topic lowerMessage communityKnowledge with
  | Some response => ret (message response)
  | None =>
      r <- Math_random ;;
      ret (nth (Math_floor
                  (Number_mul r (inject_Z (Z.of_nat (List.length fallbackResponses)))))
               fallbackResponses EmptyString)
  end.

End IvorPersona.

(* ===================================================================== *)
(** * services/groq.service.ts *)
(* ===================================================================== *)

Module GroqService.

Definition maxRetries : nat := 3.
Definition retryDelay : nat := 1000.

(** [await this.groq.chat.completions.create({...})] followed by
    [completion.choices[0]?.message?.content]. *)
Definition create (prompt : string) : M (option string) :=
  fun e w =>
    let w' := tick_calls (emit (GroqCall prompt) w) in
    match completion e (calls w) with
    | Rejects m => (inl (Error m), w')
    | Resolves content => (inr content, w')
    end.

(** [await this.delay(ms)] *)
Definition delay (ms : nat) : M unit :=
  fun _ w => (inr tt, emit (Delay ms) w).

(** The body of the [try] block of one attempt. *)
Definition attempt_body (prompt : string) : M string :=
  response <- create prompt ;;
  match response with
  | Some r =>
      if truthy r then ret (trim r)
      else throw (Error "Empty response from GROQ API")
  | None => throw (Error "Empty response from GROQ API")
  end.

(** [lastError?.message] inside the template literal. *)
Definition lastError_message (lastError : option Exn) : string :=
  match lastError with
  | Some e => exn_message e
  | None => "undefined"
  end.

(** [for (let attempt = 1; attempt <= this.maxRetries; attempt++)],
    entered at [attempt] with [remaining = maxRetries + 1 - attempt]
    iterations still admitted by the loop test.  An iteration either
    returns from the function ([inr]) or falls through to the next one
    with [lastError] assigned ([inl]). *)
Fixpoint attempts (remaining attempt : nat) (lastError : option Exn)
         (prompt : string) : M string :=
  match remaining with
  | O =>
      throw (Error ("GROQ API failed after " ++ show_nat maxRetries
                    ++ " attempts: " ++ lastError_message lastError))
  | S remaining' =>
      step <- try_catch
                (r <- attempt_body prompt ;; ret (inr r))
                (fun error =>
                   (if (attempt <? maxRetries)%nat
                    then delay (retryDelay * attempt)
                    else ret tt) ;;;
                   ret (inl error)) ;;
      match step with
      | inr r => ret r
      | inl error => attempts remaining' (S attempt) (Some error) prompt
      end
  end.

(** Generate AI response using GROQ with retry logic. *)
Definition generateResponse (prompt : string) : M string :=
  attempts maxRetries 1 None prompt.

(** Check if GROQ service is available. *)
Definition healthCheck : M bool :=
  try_catch
    (testResponse <- generateResponse
       "Hello, this is a health check. Please respond with 'OK'." ;;
     ret (includes (toLowerCase testResponse) "ok"))
    (fun _ => ret false).

End GroqService.

(* ===================================================================== *)
(** * database/sqlite.service.ts over the schema of sqlite.setup.sql *)
(* ===================================================================== *)

Module SQLiteService.

(** ** SQL building blocks *)

(** [ORDER BY]: a stable insertion sort for the order [leb]. *)
Fixpoint insert_by {A} (leb : A -> A -> bool) (x : A) (l : list A) : list A :=
  match l with
  | [] => [x]
  | y :: l' => if leb x y then x :: y :: l' else y :: insert_by leb x l'
  end.

Definition order_by {A} (leb : A -> A -> bool) (l : list A) : list A :=
  fold_right (insert_by leb) [] l.

(** The bytes 10xxxxxx that continue a character begun by a byte of
    0xC0 or more. *)
Fixpoint skip_continuation (s : string) : string :=
  match s with
  | EmptyString => EmptyString
  | String c s' =>
      if ((128 <=? nat_of_ascii c) && (nat_of_ascii c <? 192))%nat
      then skip_continuation s' else s
  end.

(** The text behind its first character. *)
Definition behind_character (d : ascii) (text' : string) : string :=
  if (192 <=? nat_of_ascii d)%nat then skip_continuation text' else text'.

(** [text LIKE pattern]: [%] matches any run of characters, [_] any
    single one, letters compare without regard to ASCII case. *)
Fixpoint like (pattern text : string) : bool :=
  match pattern with
  | EmptyString => negb (truthy text)
  | String c pattern' =>
      if Ascii.eqb c "%"%char then
        (fix star (t : string) : bool :=
           like pattern' t ||
           match t with
           | EmptyString => false
           | String _ t' => star t'
           end) text
      else
        match text with
        | EmptyString => false
        | String d text' =>
            if Ascii.eqb c "_"%char
            then like pattern' (behind_character d text')
            else Ascii.eqb (lower_char c) (lower_char d) && like pattern' text'
        end
  end.

(** [column LIKE ?] on a nullable column: NULL never matches. *)
Definition like_nullable (pattern : string) (column : option string) : bool :=
  match column with
  | Some text => like pattern text
  | None => false
  end.

(** [x || null] on an optional string argument. *)
Definition or_null (x : option string) : option string :=
  match x with
  | Some s => if truthy s then Some s else None
  | None => None
  end.

(** A nullable [user_id] column referencing [users(id)]. *)
Definition references_user (d : Database) (uid : option string) : bool :=
  match uid with
  | Some u => existsb (fun x => (user_id x =? u)%string) (users d)
  | None => true
  end.

Definition rating_in_range (rating : Z) : bool :=
  ((1 <=? rating) && (rating <=? 5))%Z.

(** A statement: given the clock it either fails on a constraint or
    yields a result and the new tables. *)
Definition Sql (A : Type) : Type := DateTime -> Database -> Result (A * Database).

(** [INSERT INTO conversations (id, user_id, started_at, last_message_at)
     VALUES (?, ?, datetime('now'), datetime('now'))] *)
Definition insert_conversation (id : string) (uid : option string) : Sql unit :=
  fun t d =>
    if existsb (fun c => (conv_id c =? id)%string) (conversations d)
    then inl (SQLITE_CONSTRAINT PRIMARYKEY)
    else if negb (references_user d uid)
    then inl (SQLITE_CONSTRAINT FOREIGNKEY)
    else inr (tt, set_conversations
                    (conversations d ++ [mkConversation id uid t t "{}" true])%list d).

(** [SELECT * FROM conversations WHERE id = ?] through [db.get] *)
Definition select_conversation (id : string) : Sql (option Conversation) :=
  fun _ d => inr (find (fun c => (conv_id c =? id)%string) (conversations d), d).

(** [INSERT INTO messages (id, conversation_id, role, content, metadata)
     VALUES (?, ?, ?, ?, ?)]; [timestamp] takes CURRENT_TIMESTAMP and
    [rating] stays NULL. *)
Definition insert_message (id cid : string) (role : Role) (content : string)
           (metadata : JsonObject) : Sql unit :=
  fun t d =>
    if existsb (fun m => (msg_id m =? id)%string) (messages d)
    then inl (SQLITE_CONSTRAINT PRIMARYKEY)
    else if negb (existsb (fun c => (conv_id c =? cid)%string) (conversations d))
    then inl (SQLITE_CONSTRAINT FOREIGNKEY)
    else inr (tt, set_messages
                    (messages d ++ [mkMessage id cid role content t None metadata])%list d).

(** [UPDATE conversations SET last_message_at = datetime('now') WHERE id = ?] *)
Definition update_last_message_at (cid : string) : Sql unit :=
  fun t d =>
    inr (tt, set_conversations
               (map (fun c => if (conv_id c =? cid)%string
                              then set_last_message_at t c else c)
                    (conversations d)) d).

(** [SELECT * FROM messages WHERE id = ?] through [db.get] *)
Definition select_message (id : string) : Sql (option Message) :=
  fun _ d => inr (find (fun m => (msg_id m =? id)%string) (messages d), d).

(** [SELECT * FROM messages WHERE conversation_id = ? ORDER BY timestamp ASC] *)
Definition select_conversation_messages (cid : string) : Sql (list Message) :=
  fun _ d =>
    inr (order_by (fun a b => (msg_timestamp a <=? msg_timestamp b)%N)
           (filter (fun m => (msg_conversation_id m =? cid)%string) (messages d)),
         d).

(** [INSERT INTO feedback (id, message_id, rating, feedback_text, user_id)
     VALUES (?, ?, ?, ?, ?)] *)
Definition insert_feedback (id mid : string) (rating : Z)
           (text uid : option string) : Sql unit :=
  fun t d =>
    if negb (rating_in_range rating)
    then inl (SQLITE_CONSTRAINT CHECK_FAILED)
    else if existsb (fun f => (fb_id f =? id)%string) (feedback d)
    then inl (SQLITE_CONSTRAINT PRIMARYKEY)
    else if negb (existsb (fun m => (msg_id m =? mid)%string) (messages d))
            || negb (references_user d uid)
    then inl (SQLITE_CONSTRAINT FOREIGNKEY)
    else inr (tt, set_feedback
                    (feedback d ++ [mkFeedback id mid rating text t uid])%list d).

(** [UPDATE messages SET rating = ? WHERE id = ?] *)
Definition update_message_rating (rating : Z) (mid : string) : Sql unit :=
  fun _ d =>
    if existsb (fun m => (msg_id m =? mid)%string) (messages d)
       && negb (rating_in_range rating)
    then inl (SQLITE_CONSTRAINT CHECK_FAILED)
    else inr (tt, set_messages
                    (map (fun m => if (msg_id m =? mid)%string
                                   then set_rating (Some rating) m else m)
                         (messages d)) d).

(** [SELECT * FROM community_stats ORDER BY category, stat_name] *)
Definition select_community_stats : Sql (list CommunityStats) :=
  fun _ d =>
    inr (order_by
           (fun a b =>
              match String.compare (stat_category a) (stat_category b) with
              | Lt => true
              | Gt => false
              | Eq => String.leb (stat_name a) (stat_name b)
              end)
           (community_stats d),
         d).

(** The statement [searchCommunityResources] assembles. *)
Definition select_community_resources (query category : option string)
  : Sql (list CommunityResource) :=
  fun _ d =>
    let rows := filter res_is_active (community_resources d) in
    let rows :=
      match or_null category with
      | Some c => filter (fun r => (res_category r =? c)%string) rows
      | None => rows
      end in
    let rows :=
      match or_null query with
      | Some q =>
          let searchTerm := "%" ++ q ++ "%" in
          filter (fun r => like searchTerm (res_title r)
                           || like searchTerm (res_content r)
                           || like_nullable searchTerm (res_organization r)) rows
      | None => rows
      end in
    inr (order_by (fun a b => String.leb (res_title a) (res_title b)) rows, d).

(** [SELECT * FROM events WHERE is_active = 1 AND event_date >= datetime('now')
     ORDER BY event_date ASC LIMIT ?]; a negative LIMIT means no limit. *)
Definition select_upcoming_events (limit : Z) : Sql (list CommunityEvent) :=
  fun t d =>
    let rows := filter (fun ev => ev_is_active ev && (t <=? ev_event_date ev)%N)
                       (events d) in
    let rows := order_by (fun a b => (ev_event_date a <=? ev_event_date b)%N) rows in
    inr (if (limit <? 0)%Z then rows else firstn (Z.to_nat limit) rows, d).

(** [SELECT COUNT( * ) as count FROM community_stats] *)
Definition count_community_stats : Sql nat :=
  fun _ d => inr (List.length (community_stats d), d).

(** ** The driver *)

Definition not_initialized : Exn :=
  Error "Database not initialized. Call initialize() first.".

(** Get database instance. *)
Definition getDB : M Database :=
  fun _ w =>
    match db w with
    | Some d => (inr d, w)
    | None => (inl not_initialized, w)
    end.

(** [await db.run(...)], [db.get(...)], [db.all(...)]: one statement on
    the handle [getDB] returned.  The driver may reject it for reasons
    of its own ([sql_fault]); otherwise the schema decides. *)
Definition statement {A} (sql : Sql A) : M A :=
  fun e w =>
    let k := stmts w in
    let w1 := tick_stmts w in
    match db w with
    | None => (inl SQLITE_ERROR, w1)
    | Some d =>
        if sql_fault e k then (inl SQLITE_ERROR, w1)
        else match sql (now e k) d with
             | inl x => (inl x, w1)
             | inr (a, d') => (inr a, set_db d' w1)
             end
    end.

(** Generate a simple ID: two [Math.random().toString(36)] pieces,
    supplied by the environment. *)
Definition generateId : M string :=
  fun e w => (inr (generated_id e (ids w)), tick_ids w).

(** ** The service *)

(** Get all community statistics. *)
Definition getCommunityStats : M (list CommunityStats) :=
  getDB ;;; statement select_community_stats.

(** Create a new conversation.  [db.get] yields [undefined] ([None])
    when no row has the id. *)
Definition createConversation (userId : option string) : M (option Conversation) :=
  getDB ;;;
  conversationId <- generateId ;;
  statement (insert_conversation conversationId (or_null userId)) ;;;
  conversation <- statement (select_conversation conversationId) ;;
  ret conversation.

(** Add a message to a conversation. *)
Definition addMessage (conversationId : string) (role : Role)
           (content : string) (metadata : JsonObject) : M (option Message) :=
  getDB ;;;
  messageId <- generateId ;;
  statement (insert_message messageId conversationId role content metadata) ;;;
  (* Update conversation last_message_at *)
  statement (update_last_message_at conversationId) ;;;
  message <- statement (select_message messageId) ;;
  ret message.

(** Get conversation history. *)
Definition getConversationMessages (conversationId : string) : M (list Message) :=
  getDB ;;; statement (select_conversation_messages conversationId).

(** Search community resources by category or content. *)
Definition searchCommunityResources (query category : option string)
  : M (list CommunityResource) :=
  getDB ;;; statement (select_community_resources query category).

(** Get upcoming events. *)
Definition getUpcomingEvents (limit : Z) : M (list CommunityEvent) :=
  getDB ;;; statement (select_upcoming_events limit).

(** Add feedback for a message. *)
Definition addFeedback (messageId : string) (rating : Z)
           (feedbackText userId : option string) : M unit :=
  getDB ;;;
  feedbackId <- generateId ;;
  statement (insert_feedback feedbackId messageId rating
                             (or_null feedbackText) (or_null userId)) ;;;
  (* Update message rating *)
  statement (update_message_rating rating messageId).

(** Health check - verify database is working. *)
Definition healthCheck : M bool :=
  try_catch
    (getDB ;;;
     count <- statement count_community_stats ;;
     ret (0 <=? count)%nat)
    (fun _ => ret false).

End SQLiteService.

(* ===================================================================== *)
(** * routes/chat.routes.sqlite.ts and routes/chat.routes.ts *)
(* ===================================================================== *)

(** [req.body]: each field is a string or absent. *)
Record Request : Type := mkRequest {
  req_message : option string;
  req_conversation_id : option string;
  req_user_id : option string
}.

(** The object handed to [res.json]; [None] in [conversation_id] is
    [null] or an absent field, [None] in [error] an absent field. *)
Record ChatResult : Type := mkChatResult {
  response : string;
  model : string;
  source : string;
  confidence : Q;
  timestamp : DateTime;
  mode : string;
  conversation_id : option string;
  error : option string
}.

Inductive Body : Type :=
| ChatJson (r : ChatResult)
| InvalidInput (details : list string).   (* fields that failed validation *)

Record HttpResponse : Type := mkHttpResponse {
  status : nat;
  body : Body
}.

(** [new Date().toISOString()] *)
Definition Date_now : M DateTime :=
  fun e w => (inr (now e (stmts w)), w).

(** [body('message').isString().trim().isLength({ min: 1, max: 2000 })]:
    the sanitised message when the chain passes. *)
Definition validate_message (m : option string) : option string :=
  match m with
  | Some s =>
      let t := validator_trim s in
      if isLength 1 2000 t then Some t else None
  | None => None
  end.

Definition emergencyResponse : string :=
  "I'm experiencing some technical difficulties right now, but I'm still here for you. " ++
  "The BLKOUT community is strong, and we support each other through all challenges. " ++
  "Please try again in a moment, or reach out through our other community channels.".

(** The body of the outer [catch]. *)
Definition emergency : M HttpResponse :=
  ts <- Date_now ;;
  ret (mkHttpResponse 500 (ChatJson
         (mkChatResult emergencyResponse "emergency_fallback" "static_response"
                       0.7 ts "emergency" None
                       (Some "Temporary service disruption")))).

Module ChatRoutesSqlite.
Import IvorPersona.

Definition groq_metadata : JsonObject :=
  [ ("model", JString "groq_llama2-70b");
    ("source", JString "groq_api");
    ("confidence", JNumber 0.95) ].

Definition fallback_metadata : JsonObject :=
  [ ("model", JString "ivor_community_knowledge");
    ("source", JString "qtipoc_local_knowledge");
    ("confidence", JNumber 0.85);
    ("fallback_reason", JString "groq_api_unavailable") ].

(** Create or get conversation. *)
Definition resolve_conversation (req : Request) : M string :=
  match SQLiteService.or_null (req_conversation_id req) with
  | Some conversationId => ret conversationId
  | None =>
      conversation <- SQLiteService.createConversation (req_user_id req) ;;
      match conversation with
      | Some c => ret (conv_id c)
      | None => throw (TypeError "Cannot read properties of undefined (reading 'id')")
      end
  end.

(** The inner [try] block: provider, persona, store. *)
Definition groq_branch (conversationId message : string) : M HttpResponse :=
  aiResponse <- GroqService.generateResponse (enhancePrompt message) ;;
  let ivorResponse := processResponse aiResponse message in
  SQLiteService.addMessage conversationId assistant ivorResponse groq_metadata ;;;
  ts <- Date_now ;;
  ret (mkHttpResponse 200 (ChatJson
         (mkChatResult ivorResponse "groq_llama2-70b" "groq_api" 0.95 ts
                       "groq" (Some conversationId) None))).

(** The inner [catch (groqError)] block. *)
Definition fallback_branch (conversationId message : string) : M HttpResponse :=
  fallbackResponse <- getFallbackResponse message ;;
  SQLiteService.addMessage conversationId assistant fallbackResponse fallback_metadata ;;;
  ts <- Date_now ;;
  ret (mkHttpResponse 200 (ChatJson
         (mkChatResult fallbackResponse "ivor_community_knowledge"
                       "qtipoc_local_knowledge" 0.85 ts
                       "fallback" (Some conversationId) None))).

(** [router.post('/')]: chat endpoint with GROQ integration and SQLite
    storage.  [conversation_id] and [user_id] are only required to be
    strings when present, so validation can fail on [message] alone. *)
Definition post_chat (req : Request) : M HttpResponse :=
  try_catch
    (match validate_message (req_message req) with
     | None => ret (mkHttpResponse 400 (InvalidInput ["message"]))
     | Some message =>
         conversationId <- resolve_conversation req ;;
         (* Store user message *)
         SQLiteService.addMessage conversationId user message [] ;;;
         try_catch (groq_branch conversationId message)
                   (fun groqError => fallback_branch conversationId message)
     end)
    (fun error => emergency).

End ChatRoutesSqlite.

Module ChatRoutes.
Import IvorPersona.

Section WithValidator.

(** [isUUID] of express-validator. *)
Variable isUUID : string -> bool.

(** [body(field).optional().isUUID()] *)
Definition optional_uuid (x : option string) : bool :=
  match x with
  | Some s => isUUID s
  | None => true
  end.

(** [validationResult(req)]: the fields whose chain failed, and the
    sanitised message. *)
Definition validate (req : Request) : list string * option string :=
  let m := validate_message (req_message req) in
  ((match m with Some _ => [] | None => ["message"] end) ++
   (if optional_uuid (req_conversation_id req) then [] else ["conversation_id"]) ++
   (if optional_uuid (req_user_id req) then [] else ["user_id"]), m)%list.

(** The inner [try] block; the result carries [conversation_id || null]. *)
Definition groq_branch (req : Request) (message : string) : M HttpResponse :=
  aiResponse <- GroqService.generateResponse (enhancePrompt message) ;;
  let ivorResponse := processResponse aiResponse message in
  ts <- Date_now ;;
  ret (mkHttpResponse 200 (ChatJson
         (mkChatResult ivorResponse "groq_llama2-70b" "groq_api" 0.95 ts
                       "groq" (SQLiteService.or_null (req_conversation_id req)) None))).

(** The inner [catch (groqError)] block. *)
Definition fallback_branch (req : Request) (message : string) : M HttpResponse :=
  fallbackResponse <- getFallbackResponse message ;;
  ts <- Date_now ;;
  ret (mkHttpResponse 200 (ChatJson
         (mkChatResult fallbackResponse "ivor_community_knowledge"
                       "qtipoc_local_knowledge" 0.85 ts
                       "fallback" (SQLiteService.or_null (req_conversation_id req)) None))).

(** [router.post('/')]: chat endpoint with GROQ integration. *)
Definition post_chat (req : Request) : M HttpResponse :=
  try_catch
    (match validate req with
     | ([], Some message) =>
         try_catch (groq_branch req message)
                   (fun groqError => fallback_branch req message)
     | (errors, _) => ret (mkHttpResponse 400 (InvalidInput errors))
     end)
    (fun error => emergency).

End WithValidator.

End ChatRoutes.

(* ===================================================================== *)
(** * routes/chat.routes.sqlite.ts: history and feedback routes *)
(* ===================================================================== *)

Module ChatRoutesSqliteRest.

(** One element of the [messages] array of the history answer.  The
    route sends [JSON.parse(msg.metadata || '{}')]; a row keeps the
    object, so the parse gives it back. *)
Record MessageView : Type := mkMessageView {
  view_id : string;
  view_role : Role;
  view_content : string;
  view_timestamp : DateTime;
  view_rating : option Z;
  view_metadata : JsonObject
}.

Definition view (msg : Message) : MessageView :=
  mkMessageView (msg_id msg) (msg_role msg) (msg_content msg)
                (msg_timestamp msg) (msg_rating msg) (msg_metadata msg).

Inductive HistoryBody : Type :=
| History (conversationId : string) (views : list MessageView) (state : string)
| HistoryError (reason : string).

Record HistoryResponse : Type := mkHistoryResponse {
  history_status : nat;
  history_body : HistoryBody
}.

(** [router.get('/conversations/:id')]: get conversation history. *)
Definition get_conversation (id : string) : M HistoryResponse :=
  try_catch
    (rows <- SQLiteService.getConversationMessages id ;;
     ret (mkHistoryResponse 200 (History id (map view rows) "active")))
    (fun error =>
       ret (mkHistoryResponse 500 (HistoryError "Failed to retrieve conversation"))).

(** [req.body] of the feedback route; [None] in [fr_rating] is a rating
    that is absent or not an integer. *)
Record FeedbackRequest : Type := mkFeedbackRequest {
  fr_message_id : option string;
  fr_rating : option Z;
  fr_feedback_text : option string;
  fr_user_id : option string
}.

Inductive FeedbackBody : Type :=
| FeedbackRecorded (note : string)        (* [{ success: true, message }] *)
| FeedbackInvalid (details : list string) (* [{ error: 'Invalid input', details }] *)
| FeedbackFailed (reason : string).       (* [{ error }] *)

Record FeedbackResponse : Type := mkFeedbackResponse {
  feedback_status : nat;
  feedback_body : FeedbackBody
}.

(** [body('rating').isInt({ min: 1, max: 5 })] *)
Definition isInt_1_5 (rating : option Z) : bool :=
  match rating with
  | Some r => ((1 <=? r) && (r <=? 5))%Z
  | None => false
  end.

(** [validationResult(req)]: [message_id] must be a string, [rating] an
    integer from 1 to 5; the two optional fields only have to be strings. *)
Definition validate_feedback (req : FeedbackRequest) : list string :=
  ((match fr_message_id req with Some _ => [] | None => ["message_id"] end) ++
   (if isInt_1_5 (fr_rating req) then [] else ["rating"]))%list.

(** [router.post('/feedback')]: add feedback to a message. *)
Definition post_feedback (req : FeedbackRequest) : M FeedbackResponse :=
  try_catch
    (match validate_feedback req, fr_message_id req, fr_rating req with
     | [], Some message_id, Some rating =>
         SQLiteService.addFeedback message_id rating
                                   (fr_feedback_text req) (fr_user_id req) ;;;
         ret (mkFeedbackResponse 200 (FeedbackRecorded "Feedback recorded successfully"))
     | errors, _, _ =>
         ret (mkFeedbackResponse 400 (FeedbackInvalid errors))
     end)
    (fun error =>
       ret (mkFeedbackResponse 500 (FeedbackFailed "Failed to record feedback"))).

End ChatRoutesSqliteRest.

(* ===================================================================== *)
(** * routes/chat.routes.ts: the history route *)
(* ===================================================================== *)

Module ChatRoutesStub.
Import ChatRoutesSqliteRest.

(** [router.get('/conversations/:id')] without storage: an empty
    history, whatever the id. *)
Definition get_conversation (id : string) : M HistoryResponse :=
  try_catch
    (ret (mkHistoryResponse 200 (History id [] "active")))
    (fun error =>
       ret (mkHistoryResponse 500 (HistoryError "Failed to retrieve conversation"))).

End ChatRoutesStub.

(* ===================================================================== *)
(** * server.ts: the endpoints over the store *)
(* ===================================================================== *)

Module Server.

Inductive DbHealthBody : Type :=
| DbHealthy (ts : DateTime)                  (* status healthy, database connected *)
| DbUnhealthy (reason : string) (ts : DateTime). (* status unhealthy, database disconnected *)

(** [app.get('/health/db')]: every thrown value of the model is an
    [Error], so the answer carries its message. *)
Definition health_db : M (nat * DbHealthBody) :=
  try_catch
    (isHealthy <- SQLiteService.healthCheck ;;
     (if negb isHealthy
      then throw (Error "Database health check failed")
      else ret tt) ;;;
     ts <- Date_now ;;
     ret (200%nat, DbHealthy ts))
    (fun error =>
       ts <- Date_now ;;
       ret (500%nat, DbUnhealthy (exn_message error) ts)).

(** The value stored under a statistic's name. *)
Record StatView : Type := mkStatView {
  sv_value : string;
  sv_category : string;
  sv_updated_at : DateTime
}.

(** A plain object used as a dictionary: [acc[k] = v] replaces the value
    of a key that is present and adds the key otherwise.  This is what
    JavaScript does for every key but [__proto__], which assigns the
    prototype instead of a property. *)
Definition JsObject : Type := list (string * StatView).

Fixpoint obj_set (k : string) (v : StatView) (o : JsObject) : JsObject :=
  match o with
  | [] => [(k, v)]
  | (k', v') :: o' =>
      if (k =? k')%string then (k, v) :: o' else (k', v') :: obj_set k v o'
  end.

Fixpoint obj_get (k : string) (o : JsObject) : option StatView :=
  match o with
  | [] => None
  | (k', v) :: o' => if (k =? k')%string then Some v else obj_get k o'
  end.

(** [stats.reduce((acc, stat) => { acc[stat.stat_name] = {...}; return acc }, {})] *)
Definition transformStats (stats : list CommunityStats) : JsObject :=
  fold_left (fun acc stat =>
               obj_set (stat_name stat)
                       (mkStatView (stat_value stat) (stat_category stat)
                                   (stat_updated_at stat)) acc)
            stats [].

Inductive StatsBody : Type :=
| StatsOk (stats : JsObject) (last_updated : DateTime)
| StatsFailed (reason : string) (fallback_stats : list (string * (string * string))).

(** [app.get('/api/community/stats')] *)
Definition community_stats_endpoint : M (nat * StatsBody) :=
  try_catch
    (stats <- SQLiteService.getCommunityStats ;;
     ts <- Date_now ;;
     ret (200%nat, StatsOk (transformStats stats) ts))
    (fun error =>
       ret (500%nat,
            StatsFailed "Failed to fetch community statistics"
              [ ("total_members", ("12000+", "membership"));
                ("active_discussions", ("20+", "engagement"));
                ("weekly_events", ("5", "events")) ])).

End Server.

(* ===================================================================== *)
(** * middleware/error.middleware.ts *)
(* ===================================================================== *)

Module ErrorMiddleware.

(** [ApiError]: an [Error] with optional [statusCode] and [code]. *)
Record ApiError : Type := mkApiError {
  err_name : string;
  err_message : string;
  err_stack : option string;
  err_statusCode : option Z;
  err_code : option string
}.

(** The body sent: [stack] is present only when the spread adds it. *)
Record ErrorBody : Type := mkErrorBody {
  eb_error : string;
  eb_timestamp : DateTime;
  eb_path : string;
  eb_stack : option (option string)
}.

(** [x || fallback] on an optional number: absent and 0 are falsy. *)
Definition number_or (x : option Z) (fallback : Z) : Z :=
  match x with
  | Some n => if (n =? 0)%Z then fallback else n
  | None => fallback
  end.

(** [s || fallback] on a string. *)
Definition string_or (s fallback : string) : string :=
  if truthy s then s else fallback.

Definition env_is (NODE_ENV : option string) (name : string) : bool :=
  match NODE_ENV with
  | Some v => (v =? name)%string
  | None => false
  end.

Definition code_is (code : option string) (name : string) : bool :=
  match code with
  | Some v => (v =? name)%string
  | None => false
  end.

(** [errorHandler(error, req, res, next)] with [process.env.NODE_ENV]
    and [req.path] as arguments; the result is the status and the body
    of the answer. *)
Definition errorHandler (NODE_ENV : option string) (error : ApiError)
           (path : string) : M (Z * ErrorBody) :=
  (* Default error *)
  let statusCode := number_or (err_statusCode error) 500 in
  let message := string_or (err_message error) "Internal server error" in
  (* Handle specific error types *)
  let '(statusCode, message) :=
    if (err_name error =? "ValidationError")%string
    then (400%Z, "Invalid input data") else (statusCode, message) in
  let '(statusCode, message) :=
    if (err_name error =? "UnauthorizedError")%string
    then (401%Z, "Authentication required") else (statusCode, message) in
  let '(statusCode, message) :=
    if code_is (err_code error) "RATE_LIMITED"
    then (429%Z, "Too many requests, please try again later")
    else (statusCode, message) in
  (* Don't expose internal errors in production *)
  let message :=
    if env_is NODE_ENV "production" && (statusCode =? 500)%Z
    then "Something went wrong on our end. Please try again later."
    else message in
  ts <- Date_now ;;
  ret (statusCode,
       mkErrorBody message ts path
                   (if env_is NODE_ENV "development"
                    then Some (err_stack error) else None)).

End ErrorMiddleware.

(* ===================================================================== *)
(** * Vocabulary of the persona properties *)
(* ===================================================================== *)

Module PersonaSpec.
Import IvorPersona.

(** Some keyword of the list is a case-insensitive substring of [s]. *)
Definition mentions (keywords : list string) (s : string) : Prop :=
  exists k, In k keywords /\ ci_substring k s.

(** The three pieces [processResponse] puts around the reply. *)
Definition opener_for (aiResponse : string) : string :=
  if negb (includes aiResponse "I ") && negb (includes aiResponse "I'm")
  then opener else EmptyString.

Definition solidarity_for (originalMessage : string) : string :=
  if isSeekingSupport originalMessage then solidarity else EmptyString.

Definition resources_text (names : list string) : string :=
  match names with
  | [] => EmptyString
  | _ => resourcesHeader ++ join ", " names
  end.

Definition resources_for (originalMessage : string) : string :=
  if needsUKResources originalMessage
  then resources_text (getRelevantUKResources originalMessage)
  else EmptyString.

(** The five [if] statements of [getRelevantUKResources] read as a table:
    the keywords that trigger an entry, and the names it pushes. *)
Definition ukResourceMapping : list (list string * list string) :=
  [ (["mental health"; "therapy"], ["NHS IAPT"; "Black Thrive BQC"]);
    (["housing"; "homeless"],      ["Outside Project"; "Shelter"]);
    (["benefits"; "money"],        ["Citizens Advice"; "Turn2us"]);
    (["work"; "job"],              ["ACAS"; "LGBT Foundation"]);
    (["trans"; "gender"],          ["Gendered Intelligence"; "CliniQ"]) ].

Definition triggered (lowerMessage : string) (entry : list string * list string) : bool :=
  existsb (fun k => includes lowerMessage k) (fst entry).

(** The names of the triggered entries, in the table's order. *)
Definition mapped_resources (message : string) : list string :=
  flat_map (fun entry => if triggered (toLowerCase message) entry
                         then snd entry else [])
           ukResourceMapping.

(** The reading under which the resource list is driven by the keywords
    of the resource-seeking set: the keywords of [resourceKeywords] the
    message matches, and the names of the table entries keyed by one of
    them, in the table's order, without repetition. *)
Definition matched_keywords (message : string) : list string :=
  filter (fun k => includes (toLowerCase message) k) resourceKeywords.

Definition keyed_by (keywords : list string) (entry : list string * list string) : bool :=
  existsb (fun k => existsb (String.eqb k) (fst entry)) keywords.

Definition resources_of_matched_keywords (message : string) : list string :=
  nodup string_dec
    (flat_map (fun entry => if keyed_by (matched_keywords message) entry
                            then snd entry else [])
              ukResourceMapping).

End PersonaSpec.

(* ===================================================================== *)
(** * Vocabulary of the provider properties *)
(* ===================================================================== *)

Module GroqSpec.

(** The reply of an attempt that succeeds: present and not empty. *)
Definition reply_of (c : Completion) : option string :=
  match c with
  | Resolves (Some r) => if truthy r then Some r else None
  | Resolves None => None
  | Rejects _ => None
  end.

(** The message of the error a failed attempt leaves in [lastError]. *)
Definition failure_of (c : Completion) : string :=
  match c with
  | Rejects m => m
  | Resolves _ => "Empty response from GROQ API"
  end.

(** The world after [n] more provider calls whose effects were [effects]. *)
Definition after_effects (n : nat) (effects : list Effect) (w : World) : World :=
  mkWorld (db w) (stmts w) (ids w) (draws w) (n + calls w) (trace w ++ effects)%list.

End GroqSpec.

(* ===================================================================== *)
(** * Vocabulary of the store properties *)
(* ===================================================================== *)

Module StoreSpec.
Import SQLiteService.

(** The operations of the service on an initialised store. *)
Inductive Op : Type :=
| GetCommunityStats
| CreateConversation (userId : option string)
| AddMessage (conversationId : string) (role : Role) (content : string)
             (metadata : JsonObject)
| GetConversationMessages (conversationId : string)
| SearchCommunityResources (query category : option string)
| GetUpcomingEvents (limit : Z)
| AddFeedback (messageId : string) (rating : Z) (feedbackText userId : option string)
| HealthCheck.

(** A caller invoking one operation and dropping its result. *)
Definition run (op : Op) : M unit :=
  match op with
  | GetCommunityStats => getCommunityStats ;;; ret tt
  | CreateConversation userId => createConversation userId ;;; ret tt
  | AddMessage cid role content metadata =>
      addMessage cid role content metadata ;;; ret tt
  | GetConversationMessages cid => getConversationMessages cid ;;; ret tt
  | SearchCommunityResources query category =>
      searchCommunityResources query category ;;; ret tt
  | GetUpcomingEvents limit => getUpcomingEvents limit ;;; ret tt
  | AddFeedback mid rating text uid => addFeedback mid rating text uid
  | HealthCheck => healthCheck ;;; ret tt
  end.

(** A sequence of operations, each started whether or not the one before
    it threw. *)
Fixpoint run_all (ops : list Op) (e : Env) (w : World) : World :=
  match ops with
  | [] => w
  | op :: rest => run_all rest e (snd (run op e w))
  end.

(** The rows of the messages table, none before [initialize]. *)
Definition stored_messages (w : World) : list Message :=
  match db w with
  | Some d => messages d
  | None => []
  end.

(** [m'] is [m] in every column but [rating]. *)
Definition same_but_rating (m m' : Message) : Prop :=
  msg_id m' = msg_id m /\
  msg_conversation_id m' = msg_conversation_id m /\
  msg_role m' = msg_role m /\
  msg_content m' = msg_content m /\
  msg_timestamp m' = msg_timestamp m /\
  msg_metadata m' = msg_metadata m.

(** Every row of [ms] is still there in [ms'], at the same place, equal
    in every column but [rating]; its rating is what it was or a value
    [allowed] for its id. *)
Definition evolves (allowed : string -> Z -> Prop) (ms ms' : list Message) : Prop :=
  forall i m,
    nth_error ms i = Some m ->
    exists m',
      nth_error ms' i = Some m' /\
      same_but_rating m m' /\
      (msg_rating m' = msg_rating m \/
       exists r, allowed (msg_id m) r /\ msg_rating m' = Some r).

(** A computation under which the messages table only [evolves]. *)
Definition frames {A} (allowed : string -> Z -> Prop) (c : M A) : Prop :=
  forall e w, evolves allowed (stored_messages w) (stored_messages (snd (c e w))).

(** No rating may change. *)
Definition nothing : string -> Z -> Prop := fun _ _ => False.

(** A computation that keeps an invariant of an initialised database. *)
Definition keeps {A} (I : Database -> Prop) (c : M A) : Prop :=
  forall e w d, db w = Some d -> I d ->
    exists d', db (snd (c e w)) = Some d' /\ I d'.

(** The ratings the feedback operations of [ops] submit. *)
Definition submitted (ops : list Op) (id : string) (r : Z) : Prop :=
  exists text uid, In (AddFeedback id r text uid) ops.

(** A client appending messages to one conversation, keeping each
    outcome. *)
Fixpoint append_each (conversationId : string)
         (inputs : list (Role * string * JsonObject)) (e : Env) (w : World)
  : list (Result (option Message)) * World :=
  match inputs with
  | [] => ([], w)
  | (role, content, metadata) :: rest =>
      let (r, w1) := addMessage conversationId role content metadata e w in
      let (rs, w2) := append_each conversationId rest e w1 in
      (r :: rs, w2)
  end.

(** The messages the successful appends returned. *)
Fixpoint appended (rs : list (Result (option Message))) : list Message :=
  match rs with
  | [] => []
  | inr (Some m) :: rest => m :: appended rest
  | _ :: rest => appended rest
  end.

(** Foreign key of [messages.conversation_id]: every message belongs to
    a conversation of the table. *)
Definition messages_reference_conversations (d : Database) : Prop :=
  forall m, In m (messages d) ->
    existsb (fun c => (conv_id c =? msg_conversation_id m)%string) (conversations d) = true.

Definition has_conversation (d : Database) (cid : string) : bool :=
  existsb (fun c => (conv_id c =? cid)%string) (conversations d).

Definition has_message (d : Database) (mid : string) : bool :=
  existsb (fun m => (msg_id m =? mid)%string) (messages d).

Definition no_fault (e : Env) : Prop := forall k, sql_fault e k = false.

End StoreSpec.

(* ===================================================================== *)
(** * Vocabulary of the chat route properties *)
(* ===================================================================== *)

Module ChatSpec.
Import SQLiteService StoreSpec.

(** The route answered with a chat result whose mode is one of [modes]
    and whose response is not empty. *)
Definition answers (modes : list string) (out : Result HttpResponse * World) : Prop :=
  exists st r w',
    out = (inr (mkHttpResponse st (ChatJson r)), w') /\
    In (mode r) modes /\
    response r <> EmptyString.




End ChatSpec.

(* ===================================================================== *)
(** * Vocabulary of the further properties *)
(* ===================================================================== *)

Module MoreSpec.
Import SQLiteService StoreSpec.

(** The primary keys of the three tables the service writes. *)
Definition unique_ids (d : Database) : Prop :=
  NoDup (map conv_id (conversations d)) /\
  NoDup (map msg_id (messages d)) /\
  NoDup (map fb_id (feedback d)).

(** The CHECK constraints on the two rating columns. *)
Definition ratings_valid (d : Database) : Prop :=
  (forall m r, In m (messages d) -> msg_rating m = Some r -> (1 <= r <= 5)%Z) /\
  (forall f, In f (feedback d) -> (1 <= fb_rating f <= 5)%Z).

(** The foreign keys of the three tables the service writes. *)
Definition references_hold (d : Database) : Prop :=
  messages_reference_conversations d /\
  (forall f, In f (feedback d) -> has_message d (fb_message_id f) = true) /\
  (forall c, In c (conversations d) -> references_user d (conv_user_id c) = true) /\
  (forall f, In f (feedback d) -> references_user d (fb_user_id f) = true).

(** The update of [addMessage] and of [addFeedback] on one row. *)
Definition touch (cid : string) (t : DateTime) (c : Conversation) : Conversation :=
  if (conv_id c =? cid)%string then set_last_message_at t c else c.

Definition rate (mid : string) (rating : Z) (m : Message) : Message :=
  if (msg_id m =? mid)%string then set_rating (Some rating) m else m.


(** The order of [ORDER BY category, stat_name]. *)
Definition stats_leb (a b : CommunityStats) : bool :=
  match String.compare (stat_category a) (stat_category b) with
  | Lt => true
  | Gt => false
  | Eq => String.leb (stat_name a) (stat_name b)
  end.




(** An event that is active and not yet over at time [t]. *)
Definition upcoming (t : DateTime) (ev : CommunityEvent) : bool :=
  ev_is_active ev && (t <=? ev_event_date ev)%N.

(** The reply of the first of the next three provider calls that
    succeeds. *)
Definition first_reply (e : Env) (w : World) : option string :=
  match GroqSpec.reply_of (completion e (calls w)) with
  | Some r => Some r
  | None =>
      match GroqSpec.reply_of (completion e (1 + calls w)) with
      | Some r => Some r
      | None => GroqSpec.reply_of (completion e (2 + calls w))
      end
  end.

(** The database is open and the driver accepts the next statement. *)
Definition reachable (e : Env) (w : World) : bool :=
  match db w with
  | Some _ => negb (sql_fault e (stmts w))
  | None => false
  end.

(** Every text [getFallbackResponse] can return. *)
Definition canned_replies : list string :=
  (map (fun entry => IvorPersona.message (snd entry)) IvorPersona.communityKnowledge
   ++ IvorPersona.fallbackResponses)%list.

(** What the statistics endpoint publishes of one row. *)
Definition stat_view (s : CommunityStats) : Server.StatView :=
  Server.mkStatView (stat_value s) (stat_category s) (stat_updated_at s).

(** The clock never runs backwards. *)
Definition clock_monotone (e : Env) : Prop :=
  forall j k, (j <= k)%nat -> (now e j <= now e k)%N.

End MoreSpec.

(* ===================================================================== *)
(** * Concrete environments and worlds used by the examples *)
(* ===================================================================== *)

Module Samples.

Definition empty_db : Database := mkDatabase [] [] [] [] [] [] [].

(** An initialised service on an empty database. *)
Definition fresh_world : World := mkWorld (Some empty_db) 0 0 0 0 [].

(** Ids id0, id1, ...; a clock that advances one second per statement; no
    driver fault; the provider behaves as [provider] says. *)
Definition env_with (provider : nat -> Completion) : Env :=
  mkEnv (fun _ => 0%N)
        (fun k => "id" ++ show_nat k)
        (fun k => N.of_nat k)
        (fun _ => false)
        provider.

Definition provider_down : nat -> Completion := fun _ => Rejects "connect ETIMEDOUT".

Definition provider_up (reply : string) : nat -> Completion :=
  fun _ => Resolves (Some reply).

(** Fails twice, then answers. *)
Definition provider_third (reply : string) : nat -> Completion :=
  fun k => match k with
           | 0%nat | 1%nat => Rejects "connect ETIMEDOUT"
           | _ => Resolves (Some reply)
           end.

(** One conversation holding one assistant message, not yet rated. *)
Definition db_one_message : Database :=
  mkDatabase []
             [mkConversation "c1" None 10%N 10%N "{}" true]
             [mkMessage "m1" "c1" assistant "Hello" 10%N None []]
             [] [] [] [].

Definition world_one_message : World := mkWorld (Some db_one_message) 0 0 0 0 [].

(** A first message of a session: no conversation id, no user id. *)
Definition first_message : Request :=
  mkRequest (Some "I'm feeling really alone and need housing help") None None.

(** The driver rejects exactly the k-th statement. *)
Definition env_with_fault_at (k : nat) (provider : nat -> Completion) : Env :=
  mkEnv (fun _ => 0%N)
        (fun k => "id" ++ show_nat k)
        (fun k => N.of_nat k)
        (fun j => (j =? k)%nat)
        provider.

(** Texts outside ASCII.  A message of white space only: a no-break
    space (U+00A0), a space, a line separator (U+2028) and a tab. *)
Definition blank_message : string :=
  bytes [194; 160; 32; 226; 128; 168; 9]%nat.

(** [n] times the letter e with acute accent (U+00E9, bytes C3 A9). *)
Fixpoint accented (n : nat) : string :=
  match n with
  | O => EmptyString
  | S n' => String (ascii_of_nat 195) (String (ascii_of_nat 169) (accented n'))
  end.

(** The Kelvin sign (U+212A) and the no-break space (U+00A0). *)
Definition kelvin_sign : string := bytes [226; 132; 170]%nat.
Definition no_break_space : string := bytes [194; 160]%nat.

End Samples.


(* ===================================================================== *)
(** * Rows of the seed data of sqlite.setup.sql used by the examples *)
(* ===================================================================== *)

Module Seed.
Import Samples.

Definition seed_stats : list CommunityStats :=
  [ mkCommunityStats "s1" "total_members" "12847" 0%N "membership";
    mkCommunityStats "s2" "active_discussions" "23" 0%N "engagement";
    mkCommunityStats "s3" "growth_rate" "+15% this month" 0%N "analytics";
    mkCommunityStats "s4" "engagement_score" "8.7" 0%N "analytics" ].

Definition seed_resources : list CommunityResource :=
  [ mkCommunityResource "resource_001" "Mental Health Support for QTIPOC"
      "Black Thrive BQC offers culturally competent mental health support."
      "mental_health" None (Some "Black Thrive BQC") (Some "South London")
      0%N 0%N true;
    mkCommunityResource "resource_002" "LGBTQ+ Housing Support"
      "The Outside Project provides emergency accommodation and housing support."
      "housing" None (Some "Outside Project") (Some "London") 0%N 0%N true;
    mkCommunityResource "resource_004" "Trans Healthcare Support"
      "CliniQ offers sexual health services for trans and non-binary people."
      "healthcare" None (Some "CliniQ") (Some "London") 0%N 0%N false ].

(** Event dates in days. *)
Definition seed_events : list CommunityEvent :=
  [ mkCommunityEvent "event_003" "Black Trans History Month Event" None 41%N
      (Some "South London") "celebration" false None 0%N true;
    mkCommunityEvent "event_001" "QTIPOC Community Gathering" None 15%N
      (Some "Community Center, London") "community" false None 0%N true;
    mkCommunityEvent "event_002" "Mutual Aid Workshop" None 22%N
      (Some "Online") "workshop" true None 0%N true ].

Definition seed_db : Database :=
  mkDatabase [] [] [] [] seed_resources seed_stats seed_events.

Definition seed_world : World := mkWorld (Some seed_db) 0 0 0 0 [].

(** A service whose [initialize] has not completed. *)
Definition closed_world : World := mkWorld None 0 0 0 0 [].

End Seed.
(* ===================================================================== *)
(** * Properties *)
(* ===================================================================== *)

(** ** Strings *)

Lemma append_nil_r (s : string) : s ++ "" = s.
Proof. induction s as [|c s IH]; simpl; [reflexivity | now rewrite IH]. Qed.

Lemma append_assoc (a b c : string) : (a ++ b) ++ c = a ++ (b ++ c).
Proof. induction a as [|x a IH]; simpl; [reflexivity | now rewrite IH]. Qed.

Lemma length_append (a b : string) :
  String.length (a ++ b) = (String.length a + String.length b)%nat.
Proof. induction a as [|x a IH]; simpl; [reflexivity | now rewrite IH]. Qed.

Lemma prefix_iff (p s : string) :
  prefix p s = true <-> exists r, s = p ++ r.
Proof.
  revert s; induction p as [|c p IH]; intros s.
  - destruct s; simpl; split; eauto.
  - destruct s as [|d s]; simpl.
    + split; [discriminate | intros [r Hr]; discriminate].
    + destruct (ascii_dec c d) as [->|Hcd].
      * rewrite IH. split; intros [r Hr]; exists r; congruence.
      * split; [discriminate | intros [r Hr]; congruence].
Qed.

Lemma includes_iff (s k : string) :
  includes s k = true <-> exists pre post, s = pre ++ k ++ post.
Proof.
  induction s as [|c s IH].
  - cbn [includes]. rewrite orb_false_r, prefix_iff. split.
    + intros [r Hr]. exists "", r. exact Hr.
    + intros [pre [post H]]. destruct pre; simpl in H; [eauto | discriminate].
  - cbn [includes]. rewrite orb_true_iff, IH, prefix_iff. split.
    + intros [[r Hr] | [pre [post H]]].
      * exists "", r. exact Hr.
      * exists (String c pre), post. simpl. now rewrite H.
    + intros [pre [post H]]. destruct pre as [|d pre]; simpl in H.
      * left. eauto.
      * right. injection H as _ H. eauto.
Qed.

(** *** Lower case *)

Lemma ascii_of_code (c : ascii) (n : nat) :
  (nat_of_ascii c =? n)%nat = true -> c = ascii_of_nat n.
Proof.
  intros H. apply Nat.eqb_eq in H. rewrite <- H. symmetry. apply ascii_nat_embedding.
Qed.

Lemma is_dotted_I_inv (c1 c2 : ascii) :
  is_dotted_I c1 c2 = true -> c1 = ascii_of_nat 196 /\ c2 = ascii_of_nat 176.
Proof.
  unfold is_dotted_I. intros H. apply andb_true_iff in H. destruct H as [H1 H2].
  split; now apply ascii_of_code.
Qed.

Lemma is_kelvin_inv (c1 c2 c3 : ascii) :
  is_kelvin c1 c2 c3 = true ->
  c1 = ascii_of_nat 226 /\ c2 = ascii_of_nat 132 /\ c3 = ascii_of_nat 170.
Proof.
  unfold is_kelvin. intros H. apply andb_true_iff in H. destruct H as [H H3].
  apply andb_true_iff in H. destruct H as [H1 H2].
  repeat split; now apply ascii_of_code.
Qed.

Lemma toLowerCase_dotted_I (r : string) :
  toLowerCase (String (ascii_of_nat 196) (String (ascii_of_nat 176) r))
  = String "i" (String (ascii_of_nat 204) (String (ascii_of_nat 135) (toLowerCase r))).
Proof. reflexivity. Qed.

Lemma toLowerCase_kelvin (r : string) :
  toLowerCase (String (ascii_of_nat 226) (String (ascii_of_nat 132)
                                                 (String (ascii_of_nat 170) r)))
  = String "k" (toLowerCase r).
Proof. reflexivity. Qed.

(** A byte that begins neither of the two special characters is mapped
    on its own. *)
Lemma toLowerCase_cons (c : ascii) (r : string) :
  nat_of_ascii c <> 196%nat -> nat_of_ascii c <> 226%nat ->
  toLowerCase (String c r) = String (lower_char c) (toLowerCase r).
Proof.
  intros H1 H2.
  assert (Hd : forall c2, is_dotted_I c c2 = false).
  { intros c2. unfold is_dotted_I. apply Nat.eqb_neq in H1. now rewrite H1. }
  assert (Hk : forall c2 c3, is_kelvin c c2 c3 = false).
  { intros c2 c3. unfold is_kelvin. apply Nat.eqb_neq in H2. now rewrite H2. }
  destruct r as [|c2 [|c3 r]].
  - reflexivity.
  - change (toLowerCase (String c (String c2 "")))
      with (if is_dotted_I c c2
            then String "i" (String (ascii_of_nat 204)
                                    (String (ascii_of_nat 135) (toLowerCase "")))
            else String (lower_char c) (toLowerCase (String c2 ""))).
    now rewrite Hd.
  - change (toLowerCase (String c (String c2 (String c3 r))))
      with (if is_dotted_I c c2
            then String "i" (String (ascii_of_nat 204)
                               (String (ascii_of_nat 135) (toLowerCase (String c3 r))))
            else if is_kelvin c c2 c3
                 then String "k" (toLowerCase r)
                 else String (lower_char c) (toLowerCase (String c2 (String c3 r)))).
    now rewrite Hd, Hk.
Qed.

(** How [toLowerCase] reads the head of a text. *)
Lemma toLowerCase_inv (s : string) :
  s = EmptyString \/
  (exists r,
      s = String (ascii_of_nat 196) (String (ascii_of_nat 176) r) /\
      toLowerCase s
      = String "i" (String (ascii_of_nat 204)
                           (String (ascii_of_nat 135) (toLowerCase r)))) \/
  (exists r,
      s = String (ascii_of_nat 226) (String (ascii_of_nat 132)
                                            (String (ascii_of_nat 170) r)) /\
      toLowerCase s = String "k" (toLowerCase r)) \/
  (exists c r,
      s = String c r /\
      toLowerCase s = String (lower_char c) (toLowerCase r)).
Proof.
  destruct s as [|c1 [|c2 [|c3 r]]].
  - now left.
  - right. right. right. exists c1, EmptyString. split; reflexivity.
  - destruct (is_dotted_I c1 c2) eqn:Ed.
    + destruct (is_dotted_I_inv _ _ Ed) as [-> ->].
      right. left. exists EmptyString. split; reflexivity.
    + right. right. right. exists c1, (String c2 EmptyString). split; [reflexivity|].
      change (toLowerCase (String c1 (String c2 "")))
        with (if is_dotted_I c1 c2
              then String "i" (String (ascii_of_nat 204)
                                      (String (ascii_of_nat 135) (toLowerCase "")))
              else String (lower_char c1) (toLowerCase (String c2 ""))).
      now rewrite Ed.
  - destruct (is_dotted_I c1 c2) eqn:Ed.
    + destruct (is_dotted_I_inv _ _ Ed) as [-> ->].
      right. left. exists (String c3 r). split; reflexivity.
    + destruct (is_kelvin c1 c2 c3) eqn:Ek.
      * destruct (is_kelvin_inv _ _ _ Ek) as [-> [-> ->]].
        right. right. left. exists r. split; reflexivity.
      * right. right. right. exists c1, (String c2 (String c3 r)).
        split; [reflexivity|].
        change (toLowerCase (String c1 (String c2 (String c3 r))))
          with (if is_dotted_I c1 c2
                then String "i" (String (ascii_of_nat 204)
                                   (String (ascii_of_nat 135) (toLowerCase (String c3 r))))
                else if is_kelvin c1 c2 c3
                     then String "k" (toLowerCase r)
                     else String (lower_char c1)
                                 (toLowerCase (String c2 (String c3 r)))).
        now rewrite Ed, Ek.
Qed.

Lemma is_ascii_cons (c : ascii) (k : string) :
  is_ascii (String c k) = (nat_of_ascii c <? 128)%nat && is_ascii k.
Proof. reflexivity. Qed.

Lemma lower_char_code (c : ascii) :
  (nat_of_ascii (lower_char c) < 128 -> nat_of_ascii c < 128)%nat.
Proof.
  unfold lower_char. destruct (is_upper c) eqn:E; [|auto].
  unfold is_upper in E. apply andb_true_iff in E. destruct E as [_ E].
  apply Nat.leb_le in E. lia.
Qed.

Lemma ends_in_cons (c d e : ascii) (k : string) :
  ends_in c (String d (String e k)) = ends_in c (String e k).
Proof. reflexivity. Qed.

(** Where the lower case of [x] is ASCII text, [x] ends with a whole
    character, and the lower case of what follows is not affected. *)
Lemma toLowerCase_app_ascii (n : nat) :
  forall x y, (String.length x <= n)%nat ->
    is_ascii (toLowerCase x) = true ->
    toLowerCase (x ++ y) = toLowerCase x ++ toLowerCase y.
Proof.
  induction n as [|n IH]; intros x y Hlen Hascii.
  - destruct x; [reflexivity | cbn in Hlen; lia].
  - destruct (toLowerCase_inv x) as [-> | [[r [-> Hx]] | [[r [-> Hx]] | [c [r [-> Hx]]]]]].
    + reflexivity.
    + rewrite Hx in Hascii. discriminate.
    + rewrite Hx in *. rewrite is_ascii_cons in Hascii.
      apply andb_true_iff in Hascii. destruct Hascii as [_ Hr].
      cbn [append]. rewrite toLowerCase_kelvin.
      rewrite IH; [reflexivity| cbn in Hlen; lia | exact Hr].
    + rewrite Hx in *. rewrite is_ascii_cons in Hascii.
      apply andb_true_iff in Hascii. destruct Hascii as [Hc Hr].
      apply Nat.ltb_lt, lower_char_code in Hc.
      cbn [append]. rewrite toLowerCase_cons by lia.
      rewrite IH; [reflexivity| cbn in Hlen; lia | exact Hr].
Qed.

(** In front of a text that starts with a character, anything may
    stand: the lower case of the text is not affected. *)
Lemma toLowerCase_app_boundary (n : nat) :
  forall x y, (String.length x <= n)%nat ->
    starts_character y ->
    exists a, toLowerCase (x ++ y) = a ++ toLowerCase y.
Proof.
  induction n as [|n IH]; intros x y Hlen Hy.
  - destruct x; [exists EmptyString; reflexivity | cbn in Hlen; lia].
  - destruct x as [|c x]; [exists EmptyString; reflexivity|].
    cbn in Hlen.
    destruct (toLowerCase_inv (String c x ++ y))
      as [H | [[r [Hs Hx]] | [[r [Hs Hx]] | [c0 [r [Hs Hx]]]]]].
    + discriminate.
    + cbn [append] in Hs. injection Hs as -> Hs.
      destruct x as [|d x]; cbn [append] in Hs.
      * subst y. cbn in Hy. lia.
      * injection Hs as -> <-.
        destruct (IH x y) as [a Ha]; [cbn in Hlen; lia | exact Hy |].
        rewrite Hx, Ha.
        exists (String "i" (String (ascii_of_nat 204) (String (ascii_of_nat 135) a))).
        reflexivity.
    + cbn [append] in Hs. injection Hs as -> Hs.
      destruct x as [|d1 [|d2 x]]; cbn [append] in Hs.
      * subst y. cbn in Hy. lia.
      * injection Hs as -> Hs. subst y. cbn in Hy. lia.
      * injection Hs as -> -> <-.
        destruct (IH x y) as [a Ha]; [cbn in Hlen; lia | exact Hy |].
        rewrite Hx, Ha. exists (String "k" a). reflexivity.
    + cbn [append] in Hs. injection Hs as <- <-.
      destruct (IH x y) as [a Ha]; [lia | exact Hy |].
      rewrite Hx, Ha. exists (String (lower_char c) a). reflexivity.
Qed.

(** An ASCII text at the start of a lower case comes from the start of
    the original, unless it stops at the i of a dotted capital I. *)
Lemma toLowerCase_prefix (n : nat) :
  forall s k b, (String.length s <= n)%nat ->
    is_ascii k = true -> ends_in "i" k = false ->
    toLowerCase s = k ++ b ->
    exists mid post, s = mid ++ post /\ toLowerCase mid = k.
Proof.
  induction n as [|n IH]; intros s k b Hlen Hk Hi H.
  - destruct s; [|cbn in Hlen; lia]. destruct k; [|discriminate].
    exists EmptyString, EmptyString. auto.
  - destruct k as [|c0 k]; [exists EmptyString, s; auto|].
    rewrite is_ascii_cons in Hk. apply andb_true_iff in Hk. destruct Hk as [Hc0 Hk].
    apply Nat.ltb_lt in Hc0.
    assert (Hi' : ends_in "i" k = false)
      by (destruct k; [reflexivity | now rewrite ends_in_cons in Hi]).
    cbn [append] in H.
    destruct (toLowerCase_inv s) as [-> | [[r [-> Hx]] | [[r [-> Hx]] | [c [r [-> Hx]]]]]].
    + discriminate.
    + rewrite Hx in H. injection H as <- H.
      destruct k as [|d k]; [discriminate Hi|].
      cbn [append] in H. injection H as <- _.
      rewrite is_ascii_cons in Hk. discriminate.
    + rewrite Hx in H. injection H as <- H.
      destruct (IH r k b) as [mid [post [-> Hmid]]]; auto; [cbn in Hlen; lia|].
      exists (String (ascii_of_nat 226)
                (String (ascii_of_nat 132) (String (ascii_of_nat 170) mid))), post.
      split; [reflexivity|]. now rewrite toLowerCase_kelvin, Hmid.
    + rewrite Hx in H. injection H as Hc H.
      destruct (IH r k b) as [mid [post [-> Hmid]]]; auto; [cbn in Hlen; lia|].
      exists (String c mid), post. split; [reflexivity|].
      assert (Hcode : (nat_of_ascii c < 128)%nat)
        by (apply lower_char_code; rewrite Hc; exact Hc0).
      rewrite toLowerCase_cons by lia. now rewrite Hmid, Hc.
Qed.

Lemma toLowerCase_piece (n : nat) :
  forall s a k b, (String.length s <= n)%nat ->
    is_ascii k = true -> k <> EmptyString -> ends_in "i" k = false ->
    toLowerCase s = a ++ k ++ b ->
    exists pre mid post, s = pre ++ mid ++ post /\ toLowerCase mid = k.
Proof.
  induction n as [|n IH]; intros s a k b Hlen Hk Hne Hi H.
  - destruct s; [|cbn in Hlen; lia].
    destruct a; [|discriminate]. destruct k; [|discriminate]. now destruct Hne.
  - destruct a as [|a0 a].
    { destruct (toLowerCase_prefix (S n) s k b Hlen Hk Hi H) as [mid [post [-> Hmid]]].
      exists EmptyString, mid, post. auto. }
    assert (Hhead : exists k0 k', k = String k0 k' /\ (nat_of_ascii k0 < 128)%nat).
    { destruct k as [|k0 k']; [now destruct Hne|]. exists k0, k'. split; [reflexivity|].
      rewrite is_ascii_cons in Hk. apply andb_true_iff in Hk.
      now apply Nat.ltb_lt. }
    destruct Hhead as [k0 [k' [Ek Hk0]]].
    cbn [append] in H.
    destruct (toLowerCase_inv s) as [-> | [[r [-> Hx]] | [[r [-> Hx]] | [c [r [-> Hx]]]]]].
    + discriminate.
    + rewrite Hx in H. injection H as _ H.
      destruct a as [|a1 a]; cbn [append] in H.
      { rewrite Ek in H. cbn [append] in H. injection H as <- _. cbn in Hk0. lia. }
      injection H as _ H.
      destruct a as [|a2 a]; cbn [append] in H.
      { rewrite Ek in H. cbn [append] in H. injection H as <- _. cbn in Hk0. lia. }
      injection H as _ H. symmetry in H.
      destruct (IH r a k b) as [pre [mid [post [-> Hmid]]]]; auto; [cbn in Hlen; lia|].
      exists (String (ascii_of_nat 196) (String (ascii_of_nat 176) pre)), mid, post.
      auto.
    + rewrite Hx in H. injection H as _ H. symmetry in H.
      destruct (IH r a k b) as [pre [mid [post [-> Hmid]]]]; auto; [cbn in Hlen; lia|].
      exists (String (ascii_of_nat 226)
                (String (ascii_of_nat 132) (String (ascii_of_nat 170) pre))), mid, post.
      auto.
    + rewrite Hx in H. injection H as _ H. symmetry in H.
      destruct (IH r a k b) as [pre [mid [post [-> Hmid]]]]; auto; [cbn in Hlen; lia|].
      exists (String c pre), mid, post. auto.
Qed.

(** The test the sources perform, [s.toLowerCase().includes(k)] with a
    keyword [k], is the specification's case-insensitive substring
    test. *)
Lemma includes_lower_iff (s k : string) :
  is_keyword k ->
  includes (toLowerCase s) k = true <-> ci_substring k s.
Proof.
  intros [Hascii [Hlow Hi]].
  destruct k as [|k0 k'].
  { split; intros _.
    - exists EmptyString, EmptyString, s. auto.
    - destruct (toLowerCase s); reflexivity. }
  rewrite includes_iff. unfold ci_substring. rewrite Hlow. split.
  - intros [pre [post H]].
    apply (toLowerCase_piece (String.length s) s pre (String k0 k') post);
      auto; discriminate.
  - intros [pre [mid [post [-> Hm]]]].
    assert (Hstart : starts_character (mid ++ post)).
    { destruct mid as [|m0 mid]; [discriminate|]. cbn [append starts_character].
      destruct (Nat.lt_ge_cases (nat_of_ascii m0) 128) as [Hlt|Hge]; [now left|].
      destruct (Nat.lt_ge_cases (nat_of_ascii m0) 192) as [Hlt'|Hge']; [|now right].
      exfalso. rewrite toLowerCase_cons in Hm by lia.
      injection Hm as Hm0 _.
      rewrite is_ascii_cons in Hascii. apply andb_true_iff in Hascii.
      destruct Hascii as [Hk0 _]. apply Nat.ltb_lt in Hk0.
      rewrite <- Hm0 in Hk0. apply lower_char_code in Hk0. lia. }
    destruct (toLowerCase_app_boundary (String.length pre) pre (mid ++ post)
                                       (le_n _) Hstart) as [a Ha].
    rewrite Ha.
    rewrite (toLowerCase_app_ascii (String.length mid) mid post (le_n _))
      by (rewrite Hm; exact Hascii).
    rewrite Hm. exists a, (toLowerCase post). reflexivity.
Qed.

Lemma includes_append (a s b k : string) :
  includes s k = true -> includes (a ++ s ++ b) k = true.
Proof.
  rewrite !includes_iff. intros [pre [post ->]].
  exists (a ++ pre), (post ++ b). now rewrite !append_assoc.
Qed.

(** *** Counting occurrences across a concatenation *)

Lemma append_eq_split (r b k t : string) :
  r ++ b = k ++ t ->
  (exists v, r = k ++ v) \/
  (exists u, u <> EmptyString /\ k = r ++ u /\ b = u ++ t).
Proof.
  revert k. induction r as [|c r IH]; intros k H.
  - destruct k as [|d k].
    + left. exists EmptyString. reflexivity.
    + right. exists (String d k). repeat split; [discriminate | exact H].
  - destruct k as [|d k].
    + left. eexists. reflexivity.
    + cbn in H. injection H as -> H.
      destruct (IH k H) as [[v ->] | [u [Hu [-> ->]]]].
      * left. exists v. reflexivity.
      * right. exists u. auto.
Qed.

Lemma suffixes_append (r u : string) :
  r <> EmptyString -> In u (suffixes (r ++ u)).
Proof.
  induction r as [|c r IH]; intros Hr; [contradiction|].
  cbn. destruct r as [|c' r'].
  - now left.
  - right. apply IH. discriminate.
Qed.

(** When no occurrence of [k] can straddle the joint, whether [k] starts
    the concatenation is decided by the non-empty left part alone. *)
Lemma prefix_append_left (k r b : string) :
  straddles k b = false ->
  r <> EmptyString ->
  prefix k (r ++ b) = prefix k r.
Proof.
  intros Hno Hr.
  destruct (prefix k r) eqn:E.
  - apply prefix_iff in E. destruct E as [v ->].
    apply prefix_iff. exists (v ++ b). apply append_assoc.
  - destruct (prefix k (r ++ b)) eqn:E'; [|reflexivity].
    apply prefix_iff in E'. destruct E' as [t Ht].
    destruct (append_eq_split _ _ _ _ Ht) as [[v ->] | [u [Hu [-> ->]]]].
    + assert (prefix k (k ++ v) = true) by (apply prefix_iff; eauto). congruence.
    + exfalso. unfold straddles in Hno.
      assert (Hex : existsb (fun u0 => truthy u0 && prefix u0 (u ++ t))
                            (suffixes (r ++ u)) = true).
      { apply existsb_exists. exists u. split; [now apply suffixes_append|].
        apply andb_true_iff. split.
        - destruct u; [contradiction | reflexivity].
        - apply prefix_iff. eauto. }
      congruence.
Qed.

Lemma occurrences_append (k a b : string) :
  k <> EmptyString ->
  straddles k b = false ->
  occurrences k (a ++ b) = (occurrences k a + occurrences k b)%nat.
Proof.
  intros Hk Hno. induction a as [|c a IH].
  - cbn [append occurrences]. destruct k; [contradiction | reflexivity].
  - change (String c a ++ b) with (String c (a ++ b)).
    cbn [occurrences]. rewrite IH.
    change (String c (a ++ b)) with (String c a ++ b).
    rewrite (prefix_append_left k (String c a) b Hno) by discriminate.
    lia.
Qed.

(** A text without the first character of [k] holds no occurrence of
    [k] and starts none that would run on into what follows. *)
Lemma occurrences_skip (c : ascii) (k a b : string) :
  has_char c a = false ->
  occurrences (String c k) (a ++ b) = occurrences (String c k) b.
Proof.
  induction a as [|d a IH]; intros H; [reflexivity|].
  cbn in H. apply orb_false_iff in H. destruct H as [Hd Ha].
  change (String d a ++ b) with (String d (a ++ b)).
  cbn [occurrences prefix]. rewrite (IH Ha).
  destruct (ascii_dec c d) as [->|Hne]; [|reflexivity].
  now rewrite Ascii.eqb_refl in Hd.
Qed.

(** ** The monad *)

Lemma bind_ok {A B} (m : M A) (k : A -> M B) e w a w' :
  m e w = (inr a, w') -> bind m k e w = k a e w'.
Proof. unfold bind. now intros ->. Qed.

Lemma bind_throw {A B} (m : M A) (k : A -> M B) e w x w' :
  m e w = (inl x, w') -> bind m k e w = (inl x, w').
Proof. unfold bind. now intros ->. Qed.

Lemma try_catch_ok {A} (m : M A) h e w a w' :
  m e w = (inr a, w') -> try_catch m h e w = (inr a, w').
Proof. unfold try_catch. now intros ->. Qed.

Lemma try_catch_throw {A} (m : M A) h e w x w' :
  m e w = (inl x, w') -> try_catch m h e w = h x e w'.
Proof. unfold try_catch. now intros ->. Qed.

Lemma bind_inr_inv {A B} (m : M A) (k : A -> M B) e w b w' :
  bind m k e w = (inr b, w') ->
  exists a w1, m e w = (inr a, w1) /\ k a e w1 = (inr b, w').
Proof.
  unfold bind. destruct (m e w) as [[x|a] w1]; [discriminate|]. eauto.
Qed.

Lemma try_catch_inr_inv {A} (m : M A) h e w a w' :
  try_catch m h e w = (inr a, w') ->
  m e w = (inr a, w') \/
  exists x w1, m e w = (inl x, w1) /\ h x e w1 = (inr a, w').
Proof.
  unfold try_catch. destruct (m e w) as [[x|a0] w1]; [right; eauto | now left].
Qed.

(** ** Persona engine *)

Module PersonaProps.
Import IvorPersona PersonaSpec.

Lemma existsb_includes_mentions (keywords : list string) (s : string) :
  Forall is_keyword keywords ->
  existsb (fun k => includes (toLowerCase s) k) keywords = true <->
  mentions keywords s.
Proof.
  intros Hlow. rewrite existsb_exists. unfold mentions.
  split; intros [k [Hin Hk]]; exists k; split; auto;
    apply (includes_lower_iff s k); auto;
    eapply Forall_forall in Hlow; eauto.
Qed.

Lemma supportKeywords_lower : Forall is_keyword supportKeywords.
Proof. repeat constructor. Qed.

Lemma resourceKeywords_lower : Forall is_keyword resourceKeywords.
Proof. repeat constructor. Qed.

Lemma isSeekingSupport_iff (s : string) :
  isSeekingSupport s = true <-> mentions supportKeywords s.
Proof. apply existsb_includes_mentions, supportKeywords_lower. Qed.

Lemma needsUKResources_iff (s : string) :
  needsUKResources s = true <-> mentions resourceKeywords s.
Proof. apply existsb_includes_mentions, resourceKeywords_lower. Qed.

(** [processResponse] is the reply between an optional opener and the
    two optional suffixes. *)
Lemma processResponse_shape (aiResponse originalMessage : string) :
  processResponse aiResponse originalMessage =
  opener_for aiResponse ++ aiResponse ++
  solidarity_for originalMessage ++ resources_for originalMessage.
Proof.
  unfold processResponse, opener_for, solidarity_for, resources_for, resources_text.
  destruct (negb (includes aiResponse "I ") && negb (includes aiResponse "I'm"));
    destruct (isSeekingSupport originalMessage);
    destruct (needsUKResources originalMessage);
    try destruct (getRelevantUKResources originalMessage) as [|n ns];
    cbn [List.length Nat.ltb Nat.leb];
    rewrite ?append_assoc, ?append_nil_r; reflexivity.
Qed.

(** The code of [getRelevantUKResources] computes the table lookup. *)
Lemma getRelevantUKResources_table (message : string) :
  getRelevantUKResources message = mapped_resources message.
Proof.
  unfold getRelevantUKResources, mapped_resources, ukResourceMapping, triggered, push.
  cbn [flat_map existsb fst snd].
  rewrite !orb_false_r.
  destruct (includes _ "mental health" || includes _ "therapy");
    destruct (includes _ "housing" || includes _ "homeless");
    destruct (includes _ "benefits" || includes _ "money");
    destruct (includes _ "work" || includes _ "job");
    destruct (includes _ "trans" || includes _ "gender");
    reflexivity.
Qed.

Lemma mapped_resources_NoDup (message : string) : NoDup (mapped_resources message).
Proof.
  unfold mapped_resources, ukResourceMapping. cbn [flat_map snd].
  destruct (triggered _ (["mental health"; "therapy"], _));
    destruct (triggered _ (["housing"; "homeless"], _));
    destruct (triggered _ (["benefits"; "money"], _));
    destruct (triggered _ (["work"; "job"], _));
    destruct (triggered _ (["trans"; "gender"], _));
    cbn [app];
    repeat (constructor; [cbn [In]; intuition discriminate|]); constructor.
Qed.

Lemma triggered_iff (message : string) (entry : list string * list string) :
  In entry ukResourceMapping ->
  triggered (toLowerCase message) entry = true <-> mentions (fst entry) message.
Proof.
  intros Hin. unfold triggered. apply existsb_includes_mentions.
  cbn [In ukResourceMapping] in Hin.
  repeat (destruct Hin as [<- | Hin]; [repeat constructor|]). contradiction.
Qed.

(** C9. For every reply and every original message, the processed
    response contains the reply as a contiguous piece: it is the reply
    with at most the fixed opener in front and the fixed suffixes, which
    depend on the original message alone, behind. *)
Theorem processResponse_keeps_reply (aiResponse originalMessage : string) :
  exists pre post,
    processResponse aiResponse originalMessage = pre ++ aiResponse ++ post /\
    (pre = EmptyString \/ pre = opener) /\
    post = solidarity_for originalMessage ++ resources_for originalMessage /\
    includes (processResponse aiResponse originalMessage) aiResponse = true.
Proof.
  exists (opener_for aiResponse),
         (solidarity_for originalMessage ++ resources_for originalMessage).
  rewrite processResponse_shape. repeat split.
  - unfold opener_for. destruct (_ && _); auto.
  - apply includes_iff. eauto.
Qed.

(** What is appended behind the reply holds the solidarity sentence once
    when support is sought and not at all otherwise, and its beginning
    cannot complete an occurrence started in the reply. *)
Lemma appended_text_occurrences (originalMessage : string) :
  let appended := solidarity_for originalMessage ++ resources_for originalMessage in
  occurrences solidarity appended
  = (if isSeekingSupport originalMessage then 1%nat else 0%nat) /\
  straddles solidarity appended = false.
Proof.
  cbv zeta. unfold solidarity_for, resources_for.
  rewrite getRelevantUKResources_table.
  unfold mapped_resources, ukResourceMapping. cbn [flat_map snd].
  destruct (isSeekingSupport originalMessage);
    destruct (needsUKResources originalMessage);
    repeat match goal with
           | |- context [triggered ?l ?entry] => destruct (triggered l entry)
           end;
    vm_compute; split; reflexivity.
Qed.

(** The opener neither holds nor starts an occurrence of the sentence. *)
Lemma opener_for_occurrences (aiReply rest : string) :
  occurrences solidarity (opener_for aiReply ++ rest) = occurrences solidarity rest.
Proof.
  unfold opener_for. destruct (_ && _); [|reflexivity].
  apply (occurrences_skip (ascii_of_nat 10)). reflexivity.
Qed.

(** C6. The text appended behind the (possibly opener-prefixed) reply
    starts with the solidarity sentence when the original message
    case-insensitively contains one of the eleven support keywords, and
    the response then holds the sentence exactly once more often than
    the reply does; otherwise the sentence is not appended and the
    response holds it exactly as often as the reply. *)
Theorem solidarity_appended_once_iff_support (aiReply originalMessage : string) :
  supportKeywords =
    [ "help"; "struggling"; "difficult"; "hard"; "lonely"; "sad";
      "depressed"; "anxious"; "worried"; "scared"; "alone" ] /\
  exists appended,
    processResponse aiReply originalMessage =
    (opener_for aiReply ++ aiReply) ++ appended /\
    (mentions supportKeywords originalMessage ->
     appended = solidarity ++ resources_for originalMessage /\
     occurrences solidarity (processResponse aiReply originalMessage)
     = (occurrences solidarity aiReply + 1)%nat) /\
    (~ mentions supportKeywords originalMessage ->
     appended = resources_for originalMessage /\
     occurrences solidarity (processResponse aiReply originalMessage)
     = occurrences solidarity aiReply).
Proof.
  split; [reflexivity|].
  exists (solidarity_for originalMessage ++ resources_for originalMessage).
  split; [now rewrite processResponse_shape, !append_assoc|].
  destruct (appended_text_occurrences originalMessage) as [Hcount Hno].
  assert (Hocc : occurrences solidarity (processResponse aiReply originalMessage)
                 = (occurrences solidarity aiReply +
                    (if isSeekingSupport originalMessage then 1 else 0))%nat).
  { rewrite processResponse_shape, opener_for_occurrences.
    rewrite occurrences_append; [now rewrite Hcount | discriminate | exact Hno]. }
  rewrite Hocc. unfold solidarity_for.
  split; intros H.
  - apply isSeekingSupport_iff in H. now rewrite H.
  - destruct (isSeekingSupport originalMessage) eqn:E.
    + apply isSeekingSupport_iff in E. contradiction.
    + split; [reflexivity | lia].
Qed.

(** C7, as the code has it.  When the original message contains a
    keyword of the resource-seeking set, the names appended are those of
    the table entries triggered by the entry's own keywords (mental
    health/therapy, housing/homeless, benefits/money, work/job,
    trans/gender), in the table's order and without duplicates; nothing
    is appended when no entry is triggered. *)
Theorem resources_appended_by_table (aiReply originalMessage : string) :
  mentions resourceKeywords originalMessage ->
  getRelevantUKResources originalMessage = mapped_resources originalMessage /\
  NoDup (mapped_resources originalMessage) /\
  (forall entry, In entry ukResourceMapping ->
     (triggered (toLowerCase originalMessage) entry = true <->
      mentions (fst entry) originalMessage)) /\
  processResponse aiReply originalMessage =
  (opener_for aiReply ++ aiReply ++ solidarity_for originalMessage) ++
  resources_text (mapped_resources originalMessage).
Proof.
  intros H. apply needsUKResources_iff in H.
  split; [apply getRelevantUKResources_table|].
  split; [apply mapped_resources_NoDup|].
  split; [intros entry; apply triggered_iff|].
  rewrite processResponse_shape. unfold resources_for.
  rewrite H, getRelevantUKResources_table, !append_assoc. reflexivity.
Qed.

Lemma resources_appended_by_table_witness :
  mentions resourceKeywords "help me find a job" /\
  processResponse "I am here." "help me find a job" =
  "I am here." ++ solidarity ++ resourcesHeader ++ "ACAS, LGBT Foundation".
Proof.
  assert (H : mentions resourceKeywords "help me find a job")
    by (apply needsUKResources_iff; reflexivity).
  split; [exact H|].
  destruct (resources_appended_by_table "I am here." "help me find a job" H)
    as [_ [_ [_ E]]].
  exact E.
Defined.

(** C7 as stated fails: "help me find a job" matches a single keyword of
    the resource-seeking set, "help", which keys no entry of the table,
    yet the names of the work/job entry are appended. *)
Lemma resources_not_keyed_by_matched_keywords :
  needsUKResources "help me find a job" = true /\
  matched_keywords "help me find a job" = ["help"] /\
  resources_of_matched_keywords "help me find a job" = [] /\
  getRelevantUKResources "help me find a job" = ["ACAS"; "LGBT Foundation"] /\
  processResponse "I am here." "help me find a job" <>
  ("I am here." ++ solidarity) ++
  resources_text (resources_of_matched_keywords "help me find a job").
Proof.
  repeat split; try reflexivity.
  vm_compute. discriminate.
Qed.

(** *** The fallback *)

Lemma Math_random_unit (e : Env) (w : World) :
  exists z, Math_random e w = (inr (z # 2 ^ 53), tick_draws w) /\
            (0 <= z < Z.pos (2 ^ 53))%Z.
Proof.
  exists (Z.of_N (random e (draws w) mod 2 ^ 53)). split; [reflexivity|].
  pose proof (N.mod_lt (random e (draws w)) (2 ^ 53)) as H.
  assert (Hne : (2 ^ 53 <> 0)%N) by (vm_compute; discriminate).
  specialize (H Hne).
  change (Z.pos (2 ^ 53)) with (Z.of_N (2 ^ 53)).
  clear Hne.
  remember (2 ^ 53)%N as m eqn:Em.
  remember (random e (draws w) mod m)%N as r eqn:Er.
  clear Em Er. lia.
Qed.

Lemma round_half_even_le (n d : Z) :
  (0 < d)%Z -> (n / d <= round_half_even n d <= n / d + 1)%Z.
Proof.
  intros Hd. unfold round_half_even.
  destruct (2 * (n mod d) <? d)%Z; [lia|].
  destruct (d <? 2 * (n mod d))%Z; [lia|].
  destruct (Z.even (n / d)); lia.
Qed.

(** A random number is a multiple of 2^-53: the exponent of a product
    with it is read off the numerator. *)
Lemma double_exponent_pow53 (a : Z) :
  (0 < a)%Z -> double_exponent a (2 ^ 53) = (Z.log2 a - 53)%Z.
Proof.
  intros Ha. unfold double_exponent.
  change (Z.log2 (2 ^ 53)) with 53%Z. cbv zeta.
  destruct (Z.log2_spec a Ha) as [Hlo Hhi].
  pose proof (Z.log2_nonneg a) as Hj.
  set (j := Z.log2 a) in *.
  destruct (0 <=? j - 53)%Z eqn:E0.
  - apply Z.leb_le in E0.
    assert (H : (2 ^ 53 * 2 ^ (j - 53) = 2 ^ j)%Z).
    { rewrite <- Z.pow_add_r by lia. f_equal. lia. }
    rewrite H. apply Z.leb_le in Hlo. now rewrite Hlo.
  - apply Z.leb_gt in E0.
    assert (H : (2 ^ j * 2 ^ (- (j - 53)) = 2 ^ 53)%Z).
    { rewrite <- Z.pow_add_r by lia. f_equal. lia. }
    assert (Hle : (2 ^ 53 <= a * 2 ^ (- (j - 53)))%Z).
    { rewrite <- H. apply Z.mul_le_mono_nonneg_r; [|exact Hlo].
      apply Z.pow_nonneg. lia. }
    apply Z.leb_le in Hle. now rewrite Hle.
Qed.

(** [Math.floor(Math.random() * 5)] is an index below 5, although the
    product is rounded: the greatest product, 5 - 5 * 2^-53, rounds to
    the double below 5. *)
Lemma Math_floor_random_5 (z : Z) :
  (0 <= z < 2 ^ 53)%Z ->
  (Math_floor (Number_mul (z # 2 ^ 53) (inject_Z 5)) < 5)%nat.
Proof.
  intros Hz. unfold Number_mul, round_double.
  change (Qnum ((z # 2 ^ 53) * inject_Z 5)) with (z * 5)%Z.
  change (Z.pos (Qden ((z # 2 ^ 53) * inject_Z 5))) with (2 ^ 53)%Z.
  destruct (z * 5)%Z as [|p|p] eqn:Ea; [cbn; lia | | lia].
  rewrite <- Ea. set (a := (z * 5)%Z) in *.
  assert (Ha : (0 < a < 5 * 2 ^ 53)%Z) by lia.
  unfold round_positive. rewrite double_exponent_pow53 by lia.
  destruct (Z.log2_spec a (proj1 Ha)) as [Hlo Hhi].
  pose proof (Z.log2_nonneg a) as Hj0.
  assert (Hj : (Z.log2 a < 56)%Z).
  { apply Z.log2_lt_pow2; [lia|]. change (2 ^ 56)%Z with (8 * 2 ^ 53)%Z. lia. }
  set (j := Z.log2 a) in *.
  replace (52 - (j - 53))%Z with (105 - j)%Z by lia.
  assert (Hk : (0 <=? 105 - j)%Z = true) by (apply Z.leb_le; lia).
  rewrite Hk.
  set (k := (105 - j)%Z) in *.
  assert (Hpow : (0 < 2 ^ k)%Z) by (apply Z.pow_pos_nonneg; lia).
  assert (Hscaled : (a * 2 ^ k < 2 ^ 106)%Z).
  { assert (H : (2 ^ (Z.succ j) * 2 ^ k = 2 ^ 106)%Z).
    { rewrite <- Z.pow_add_r by lia. f_equal. lia. }
    rewrite <- H. apply Z.mul_lt_mono_pos_r; assumption. }
  pose proof (round_half_even_le (a * 2 ^ k) (2 ^ 53) eq_refl) as [HRlo HR].
  set (R := round_half_even (a * 2 ^ k) (2 ^ 53)) in *.
  assert (Hm : (a * 2 ^ k / 2 ^ 53 < 2 ^ 53)%Z).
  { apply Z.div_lt_upper_bound; [reflexivity|].
    change (2 ^ 53 * 2 ^ 53)%Z with (2 ^ 106)%Z. exact Hscaled. }
  assert (HR0 : (0 <= R)%Z).
  { assert (0 <= a * 2 ^ k / 2 ^ 53)%Z; [|lia].
    apply Z.div_pos; [|reflexivity]. apply Z.mul_nonneg_nonneg; lia. }
  unfold Math_floor. cbn [Qfloor]. rewrite Z2Pos.id by exact Hpow.
  assert (Hgoal : (R / 2 ^ k < 5)%Z); [|
    assert (0 <= R / 2 ^ k)%Z by (apply Z.div_pos; lia); lia].
  apply Z.div_lt_upper_bound; [exact Hpow|].
  destruct (Z.eq_dec j 55) as [Ej|Ej].
  - (* products of 4 and more *)
    assert (Ek : k = 50%Z) by lia.
    unfold R, round_half_even. rewrite Ek.
    change (2 ^ 50)%Z with 1125899906842624%Z.
    change (2 ^ 53)%Z with 9007199254740992%Z in *.
    destruct (2 * _ <? _)%Z eqn:E1;
      [|destruct (_ <? 2 * _)%Z eqn:E2; [|destruct (Z.even _)]];
      try apply Z.ltb_lt in E1; try apply Z.ltb_ge in E1;
      try apply Z.ltb_lt in E2; try apply Z.ltb_ge in E2;
      Z.div_mod_to_equations; lia.
  - (* products below 4 *)
    assert (H51 : (2 ^ 51 <= 2 ^ k)%Z) by (apply Z.pow_le_mono_r; lia).
    change (2 ^ 51)%Z with 2251799813685248%Z in H51.
    change (2 ^ 53)%Z with 9007199254740992%Z in *.
    lia.
Qed.

(** [Math.floor(Math.random() * fallbackResponses.length)] is an index
    of the array. *)
Lemma Math_floor_random_lt (z : Z) :
  (0 <= z < Z.pos (2 ^ 53))%Z ->
  (Math_floor (Number_mul (z # 2 ^ 53)
                 (inject_Z (Z.of_nat (List.length fallbackResponses))))
   < List.length fallbackResponses)%nat.
Proof. exact (Math_floor_random_5 z). Qed.

Lemma first_topic_at (lowerMessage : string) (before after : JsMap)
      (topic : string) (response : CommunityResponse) :
  includes lowerMessage topic = true ->
  (forall t r, In (t, r) before -> includes lowerMessage t = false) ->
  first_topic lowerMessage (before ++ (topic, response) :: after)%list = Some response.
Proof.
  intros Hhit. induction before as [|[t r] before IH]; intros Hmiss; cbn.
  - now rewrite Hhit.
  - rewrite (Hmiss t r) by (left; reflexivity).
    apply IH. intros t' r' Hin. apply (Hmiss t' r'). now right.
Qed.

Lemma first_topic_Some (lowerMessage : string) (entries : JsMap)
      (response : CommunityResponse) :
  first_topic lowerMessage entries = Some response ->
  exists topic, In (topic, response) entries /\ includes lowerMessage topic = true.
Proof.
  induction entries as [|[t r] entries IH]; cbn; [discriminate|].
  destruct (includes lowerMessage t) eqn:E.
  - intros [= <-]. exists t. auto.
  - intros H. destruct (IH H) as [topic [Hin Hhit]]. exists topic. auto.
Qed.

Lemma first_topic_None (lowerMessage : string) (entries : JsMap) :
  (forall t r, In (t, r) entries -> includes lowerMessage t = false) ->
  first_topic lowerMessage entries = None.
Proof.
  induction entries as [|[t r] entries IH]; intros H; cbn; [reflexivity|].
  rewrite (H t r) by (left; reflexivity).
  apply IH. intros t' r' Hin. apply (H t' r'). now right.
Qed.

Lemma topics_lower :
  Forall (fun entry => is_keyword (fst entry)) communityKnowledge.
Proof. repeat constructor. Qed.

Lemma topic_includes_iff (userMessage topic : string) (response : CommunityResponse) :
  In (topic, response) communityKnowledge ->
  includes (toLowerCase userMessage) topic = true <-> ci_substring topic userMessage.
Proof.
  intros Hin. apply includes_lower_iff.
  exact (proj1 (Forall_forall _ _) topics_lower _ Hin).
Qed.

Lemma canned_messages_nonempty :
  Forall (fun entry => message (snd entry) <> EmptyString) communityKnowledge.
Proof. repeat constructor; discriminate. Qed.

Lemma fallbackResponses_nonempty :
  Forall (fun s => s <> EmptyString) fallbackResponses.
Proof. repeat constructor; discriminate. Qed.

(** C3. [getFallbackResponse] never throws.  Its result is the canned
    message of the first topic, in the order mental health, housing,
    benefits, coming out, discrimination, healthcare, that is a
    case-insensitive substring of the input; when no topic matches it is
    one of the five generic messages; it is never empty. *)
Theorem getFallbackResponse_total_first_match
        (e : Env) (w : World) (userMessage : string) :
  map fst communityKnowledge =
    [ "mental health"; "housing"; "benefits"; "coming out";
      "discrimination"; "healthcare" ] /\
  List.length fallbackResponses = 5%nat /\
  exists reply w',
    getFallbackResponse userMessage e w = (inr reply, w') /\
    reply <> EmptyString /\
    (forall before topic response after,
        communityKnowledge = (before ++ (topic, response) :: after)%list ->
        ci_substring topic userMessage ->
        (forall t r, In (t, r) before -> ~ ci_substring t userMessage) ->
        reply = message response) /\
    ((forall t r, In (t, r) communityKnowledge -> ~ ci_substring t userMessage) ->
     In reply fallbackResponses).
Proof.
  split; [reflexivity|]. split; [reflexivity|].
  unfold getFallbackResponse.
  destruct (first_topic (toLowerCase userMessage) communityKnowledge)
    as [found|] eqn:Efirst.
  - exists (message found), w. split; [reflexivity|].
    destruct (first_topic_Some _ _ _ Efirst) as [topic0 [Hin0 Hhit0]].
    split; [|split].
    + exact (proj1 (Forall_forall _ _) canned_messages_nonempty _ Hin0).
    + intros before topic response after Hsplit Hhit Hmiss.
      assert (Hall : forall t r, In (t, r) communityKnowledge ->
                (includes (toLowerCase userMessage) t = true <-> ci_substring t userMessage))
        by (intros t r; apply topic_includes_iff).
      rewrite Hsplit in Efirst, Hall.
      rewrite first_topic_at in Efirst.
      * now injection Efirst as <-.
      * apply (Hall topic response); [|exact Hhit].
        apply in_or_app. right. now left.
      * intros t r Hin.
        destruct (includes (toLowerCase userMessage) t) eqn:E; [|reflexivity].
        exfalso. apply (Hmiss t r Hin).
        apply (Hall t r); [|exact E]. apply in_or_app. now left.
    + intros Hnone. exfalso. apply (Hnone topic0 found Hin0).
      now apply (topic_includes_iff userMessage topic0 found Hin0).
  - destruct (Math_random_unit e w) as [z [Hrand Hz]].
    eexists. exists (tick_draws w).
    split; [unfold bind; rewrite Hrand; reflexivity|].
    assert (Hidx : (Math_floor
                      (Number_mul (z # 2 ^ 53)
                         (inject_Z (Z.of_nat (List.length fallbackResponses))))
                    < List.length fallbackResponses)%nat).
    { apply Math_floor_random_lt. exact Hz. }
    pose proof (nth_In fallbackResponses EmptyString Hidx) as Hin.
    split; [|split].
    + exact (proj1 (Forall_forall _ _) fallbackResponses_nonempty _ Hin).
    + intros before topic response after Hsplit Hhit Hmiss. exfalso.
      assert (Hin' : In (topic, response) communityKnowledge)
        by (rewrite Hsplit; apply in_or_app; right; now left).
      apply (topic_includes_iff userMessage topic response Hin') in Hhit.
      rewrite Hsplit in Efirst.
      rewrite first_topic_at in Efirst; [discriminate | exact Hhit |].
      intros t r Hin2.
      destruct (includes (toLowerCase userMessage) t) eqn:E; [|reflexivity].
      exfalso. apply (Hmiss t r Hin2).
      apply (topic_includes_iff userMessage t r); [|exact E].
      rewrite Hsplit. apply in_or_app. now left.
    + intros _. exact Hin.
Qed.

End PersonaProps.

(** ** Provider client *)

Module GroqProps.
Import GroqService GroqSpec.

Lemma after_effects_calls n effects w : calls (after_effects n effects w) = (n + calls w)%nat.
Proof. reflexivity. Qed.

Lemma after_effects_compose n m k l w :
  after_effects n l (after_effects m k w) = after_effects (n + m) (k ++ l)%list w.
Proof.
  unfold after_effects. cbn. f_equal; [lia | now rewrite app_assoc].
Qed.

(** One attempt: one provider call, then the reply trimmed or the error. *)
Lemma attempt_body_run (prompt : string) (e : Env) (w : World) :
  attempt_body prompt e w =
  (match reply_of (completion e (calls w)) with
   | Some r => inr (trim r)
   | None => inl (Error (failure_of (completion e (calls w))))
   end,
   after_effects 1 [GroqCall prompt] w).
Proof.
  unfold attempt_body, bind, create, reply_of, failure_of.
  destruct (completion e (calls w)) as [m | [r|]]; try reflexivity.
  destruct (truthy r); reflexivity.
Qed.

(** One iteration of the loop. *)
Lemma attempts_step (remaining attempt : nat) (lastError : option Exn)
      (prompt : string) (e : Env) (w : World) :
  attempts (S remaining) attempt lastError prompt e w =
  match reply_of (completion e (calls w)) with
  | Some r => (inr (trim r), after_effects 1 [GroqCall prompt] w)
  | None =>
      attempts remaining (S attempt)
               (Some (Error (failure_of (completion e (calls w))))) prompt e
               (if (attempt <? maxRetries)%nat
                then after_effects 1 [GroqCall prompt; Delay (retryDelay * attempt)] w
                else after_effects 1 [GroqCall prompt] w)
  end.
Proof.
  cbn [attempts]. unfold bind at 1. unfold try_catch. unfold bind at 1.
  rewrite attempt_body_run.
  destruct (reply_of (completion e (calls w))) as [r|]; [reflexivity|].
  unfold bind at 1.
  destruct (attempt <? maxRetries)%nat; cbn [delay ret]; unfold ret;
    cbn beta iota; try reflexivity.
  unfold emit, after_effects; cbn. now rewrite <- app_assoc.
Qed.

(** The loop never makes more provider calls than iterations remain. *)
Lemma attempts_calls_le (remaining : nat) :
  forall attempt lastError prompt e w,
    (calls w <= calls (snd (attempts remaining attempt lastError prompt e w))
     <= remaining + calls w)%nat.
Proof.
  induction remaining as [|remaining IH]; intros attempt lastError prompt e w.
  - cbn. lia.
  - rewrite attempts_step.
    destruct (reply_of (completion e (calls w))); [cbn; lia|].
    match goal with
    | |- context [attempts remaining ?a ?l ?p ?e ?w'] =>
        specialize (IH a l p e w');
        assert (Hc : calls w' = S (calls w))
          by (destruct (attempt <? maxRetries)%nat; reflexivity)
    end.
    rewrite Hc in IH. lia.
Qed.

(** C4, as the code has it.  [generateResponse] makes at most three
    provider calls.  An attempt fails when the call rejects or the reply
    is absent or empty.  After failed attempt k (k = 1, 2) it waits
    [retryDelay * k]; nothing is waited after the third.  The first
    successful attempt ends the loop and its reply is returned with the
    surrounding white space trimmed.  After three failures an [Error] is
    thrown whose message carries the attempt count and the message of the
    last failure. *)
Theorem generateResponse_retry (prompt : string) (e : Env) (w : World) :
  let c1 := completion e (calls w) in
  let c2 := completion e (1 + calls w) in
  let c3 := completion e (2 + calls w) in
  let call := GroqCall prompt in
  generateResponse prompt e w =
  match reply_of c1, reply_of c2, reply_of c3 with
  | Some r, _, _ =>
      (inr (trim r), after_effects 1 [call] w)
  | None, Some r, _ =>
      (inr (trim r),
       after_effects 2 [call; Delay (retryDelay * 1); call] w)
  | None, None, Some r =>
      (inr (trim r),
       after_effects 3 [call; Delay (retryDelay * 1); call;
                        Delay (retryDelay * 2); call] w)
  | None, None, None =>
      (inl (Error ("GROQ API failed after 3 attempts: " ++ failure_of c3)),
       after_effects 3 [call; Delay (retryDelay * 1); call;
                        Delay (retryDelay * 2); call] w)
  end.
Proof.
  cbv zeta. unfold generateResponse.
  change maxRetries with 3%nat at 1.
  rewrite attempts_step.
  destruct (reply_of (completion e (calls w))); [reflexivity|].
  change (1 <? maxRetries)%nat with true. cbv iota.
  rewrite attempts_step, after_effects_calls.
  destruct (reply_of (completion e (1 + calls w)));
    [now rewrite after_effects_compose|].
  change (2 <? maxRetries)%nat with true. cbv iota.
  rewrite after_effects_compose.
  rewrite attempts_step, after_effects_calls.
  change (1 + 1 + calls w)%nat with (2 + calls w)%nat.
  destruct (reply_of (completion e (2 + calls w)));
    [now rewrite after_effects_compose|].
  change (3 <? maxRetries)%nat with false. cbv iota.
  rewrite after_effects_compose.
  reflexivity.
Qed.

(** C4 as stated fails on the returned value: a reply with surrounding
    white space is not returned as it is. *)
Lemma generateResponse_trims_reply :
  fst (generateResponse "Hello" (Samples.env_with (Samples.provider_up " OK "))
                        Samples.fresh_world)
  = inr "OK"
  /\ "OK" <> " OK ".
Proof. split; [reflexivity | discriminate]. Qed.

(** The provider mock of the specification: two failures, then a reply. *)
Example generateResponse_third_attempt :
  generateResponse "Hello" (Samples.env_with (Samples.provider_third "Hi there"))
                   Samples.fresh_world
  = (inr "Hi there",
     after_effects 3 [GroqCall "Hello"; Delay 1000; GroqCall "Hello";
                      Delay 2000; GroqCall "Hello"] Samples.fresh_world).
Proof. reflexivity. Qed.

Example generateResponse_exhausted :
  fst (generateResponse "Hello" (Samples.env_with Samples.provider_down)
                        Samples.fresh_world)
  = inl (Error "GROQ API failed after 3 attempts: connect ETIMEDOUT").
Proof. reflexivity. Qed.


End GroqProps.

(** ** Conversation store *)

Module StoreProps.
Import SQLiteService StoreSpec.

(** *** Running statements *)

Lemma getDB_run (e : Env) (w : World) (d : Database) :
  db w = Some d -> getDB e w = (inr d, w).
Proof. unfold getDB. now intros ->. Qed.

Lemma getDB_none (e : Env) (w : World) :
  db w = None -> getDB e w = (inl not_initialized, w).
Proof. unfold getDB. now intros ->. Qed.

Lemma statement_run {A} (sql : Sql A) (e : Env) (w : World) (d : Database) :
  db w = Some d ->
  sql_fault e (stmts w) = false ->
  statement sql e w =
  match sql (now e (stmts w)) d with
  | inl x => (inl x, tick_stmts w)
  | inr (a, d') => (inr a, set_db d' (tick_stmts w))
  end.
Proof. unfold statement. now intros -> ->. Qed.

(** A statement that throws leaves the tables as they were. *)
Lemma statement_throw {A} (sql : Sql A) (e : Env) (w w' : World) (x : Exn) :
  statement sql e w = (inl x, w') -> w' = tick_stmts w.
Proof.
  unfold statement. destruct (db w) as [d|]; [|now intros [= _ <-]].
  destruct (sql_fault e (stmts w)); [now intros [= _ <-]|].
  destruct (sql (now e (stmts w)) d) as [y|[a d']]; [now intros [= _ <-]|discriminate].
Qed.

(** A statement that succeeds ran its SQL on the current tables. *)
Lemma statement_ok {A} (sql : Sql A) (e : Env) (w w' : World) (a : A) :
  statement sql e w = (inr a, w') ->
  exists d d', db w = Some d /\ sql (now e (stmts w)) d = inr (a, d') /\
               w' = set_db d' (tick_stmts w).
Proof.
  unfold statement. destruct (db w) as [d|]; [|discriminate].
  destruct (sql_fault e (stmts w)); [discriminate|].
  destruct (sql (now e (stmts w)) d) as [y|[b d']] eqn:E; [discriminate|].
  intros [= <- <-]. exists d, d'. auto.
Qed.

(** *** Feedback *)

(** C10. With the store initialised: a rating outside 1..5 or a
    message id absent from the messages table makes the feedback insert
    fail; whenever the insert fails, for whatever reason, [addFeedback]
    raises that very error and leaves the database, hence the rating of
    every message, as it was; and [addFeedback] changes the messages
    table only when the feedback row has been inserted. *)
Theorem addFeedback_update_only_after_insert
        (e : Env) (w : World) (d : Database)
        (messageId : string) (rating : Z) (feedbackText userId : option string) :
  db w = Some d ->
  let insert := statement (insert_feedback (generated_id e (ids w)) messageId rating
                                           (or_null feedbackText) (or_null userId)) in
  ((rating_in_range rating = false \/ has_message d messageId = false) ->
   exists x, fst (insert e (tick_ids w)) = inl x) /\
  (forall x w',
     insert e (tick_ids w) = (inl x, w') ->
     addFeedback messageId rating feedbackText userId e w = (inl x, w') /\
     db w' = Some d) /\
  (forall r w' d',
     addFeedback messageId rating feedbackText userId e w = (r, w') ->
     db w' = Some d' ->
     messages d' <> messages d ->
     exists row, feedback d' = (feedback d ++ [row])%list /\
                 fb_message_id row = messageId /\ fb_rating row = rating).
Proof.
  intros Hdb insert.
  assert (Hrun : addFeedback messageId rating feedbackText userId e w =
                 bind insert (fun _ => statement (update_message_rating rating messageId))
                      e (tick_ids w)).
  { unfold addFeedback. unfold bind at 1. rewrite (getDB_run e w d Hdb).
    unfold bind at 1. reflexivity. }
  split; [|split].
  - intros Hcause. subst insert. unfold statement.
    change (db (tick_ids w)) with (db w). rewrite Hdb.
    destruct (sql_fault e (stmts (tick_ids w))); [eexists; reflexivity|].
    unfold insert_feedback, has_message in *.
    destruct Hcause as [-> | ->]; cbn [negb].
    + eexists; reflexivity.
    + destruct (rating_in_range rating); cbn [negb];
        [|eexists; reflexivity].
      destruct (existsb _ (feedback d)); eexists; reflexivity.
  - intros x w' Hfail. rewrite Hrun. split.
    + now apply bind_throw.
    + apply statement_throw in Hfail. subst w'. exact Hdb.
  - intros r w' d' Hadd Hdb' Hchanged. rewrite Hrun in Hadd.
    unfold bind in Hadd.
    destruct (insert e (tick_ids w)) as [[x|[]] w1] eqn:Eins.
    + injection Hadd as _ <-.
      apply statement_throw in Eins. subst w1.
      change (db (tick_stmts (tick_ids w))) with (db w) in Hdb'.
      exfalso. apply Hchanged. congruence.
    + apply statement_ok in Eins.
      destruct Eins as [d0 [d1 [Hd0 [Hsql ->]]]].
      change (db (tick_ids w)) with (db w) in Hd0.
      assert (d0 = d) by congruence. subst d0.
      unfold insert_feedback in Hsql.
      destruct (negb (rating_in_range rating)); [discriminate|].
      destruct (existsb _ (feedback d)); [discriminate|].
      destruct (_ || _); [discriminate|].
      injection Hsql as <-.
      destruct r as [x|[]].
      * apply statement_throw in Hadd. subst w'.
        cbn in Hdb'. injection Hdb' as <-. eexists. cbn. eauto.
      * apply statement_ok in Hadd.
        destruct Hadd as [d2 [d3 [Hd2 [Hsql2 ->]]]].
        cbn in Hd2. injection Hd2 as <-.
        cbn in Hdb'. injection Hdb' as <-.
        unfold update_message_rating in Hsql2.
        destruct (_ && _); [discriminate|].
        injection Hsql2 as <-. eexists. cbn. eauto.
Qed.

(** Rating 6 on an existing message: the insert fails its CHECK and the
    message keeps its (absent) rating. *)
Lemma addFeedback_rating_six_rejected :
  addFeedback "m1" 6%Z None None (Samples.env_with Samples.provider_down)
              Samples.world_one_message
  = (inl (SQLITE_CONSTRAINT CHECK_FAILED),
     tick_stmts (tick_ids Samples.world_one_message))
  /\ db (tick_stmts (tick_ids Samples.world_one_message)) = Some Samples.db_one_message.
Proof.
  exact (proj1 (proj2 (addFeedback_update_only_after_insert
                         (Samples.env_with Samples.provider_down)
                         Samples.world_one_message Samples.db_one_message
                         "m1" 6%Z None None eq_refl))
               (SQLITE_CONSTRAINT CHECK_FAILED)
               (tick_stmts (tick_ids Samples.world_one_message))
               eq_refl).
Defined.

(** *** Messages only evolve in their rating *)

Lemma same_but_rating_refl (m : Message) : same_but_rating m m.
Proof. unfold same_but_rating. auto 10. Qed.

Lemma same_but_rating_trans (a b c : Message) :
  same_but_rating a b -> same_but_rating b c -> same_but_rating a c.
Proof. unfold same_but_rating. intuition congruence. Qed.

Lemma same_but_rating_set (r : option Z) (m : Message) :
  same_but_rating m (set_rating r m).
Proof. unfold same_but_rating. cbn. auto 10. Qed.

Lemma evolves_refl allowed (ms : list Message) : evolves allowed ms ms.
Proof.
  intros i m H. exists m. split; [exact H|]. split; [apply same_but_rating_refl|].
  now left.
Qed.

Lemma evolves_trans allowed (a b c : list Message) :
  evolves allowed a b -> evolves allowed b c -> evolves allowed a c.
Proof.
  intros Hab Hbc i m Hm.
  destruct (Hab i m Hm) as [m1 [Hm1 [Hs1 Hr1]]].
  destruct (Hbc i m1 Hm1) as [m2 [Hm2 [Hs2 Hr2]]].
  exists m2. split; [exact Hm2|]. split; [eapply same_but_rating_trans; eauto|].
  destruct Hr2 as [Hr2 | [r [Hal Hr2]]].
  - rewrite Hr2. exact Hr1.
  - right. exists r. split; [|exact Hr2].
    destruct Hs1 as [Hid _]. now rewrite <- Hid.
Qed.

Lemma evolves_mono (allowed allowed' : string -> Z -> Prop) (a b : list Message) :
  (forall id r, allowed id r -> allowed' id r) ->
  evolves allowed a b -> evolves allowed' a b.
Proof.
  intros Hsub H i m Hm. destruct (H i m Hm) as [m' [Hm' [Hs Hr]]].
  exists m'. split; [exact Hm'|]. split; [exact Hs|].
  destruct Hr as [Hr | [r [Hal Hr]]]; [now left | right; eauto].
Qed.

Lemma evolves_app allowed (ms tail : list Message) :
  evolves allowed ms (ms ++ tail)%list.
Proof.
  intros i m Hm. exists m. split.
  - rewrite nth_error_app1; [exact Hm|]. apply nth_error_Some. congruence.
  - split; [apply same_but_rating_refl | now left].
Qed.

Lemma evolves_set_rating (mid : string) (rating : Z) (ms : list Message) :
  evolves (fun id r => id = mid /\ r = rating) ms
          (map (fun m => if (msg_id m =? mid)%string
                         then set_rating (Some rating) m else m) ms).
Proof.
  intros i m Hm. rewrite nth_error_map, Hm. cbn [option_map].
  destruct (String.eqb_spec (msg_id m) mid) as [Heq|Hne].
  - eexists. split; [reflexivity|]. split; [apply same_but_rating_set|].
    right. exists rating. cbn. auto.
  - exists m. split; [reflexivity|]. split; [apply same_but_rating_refl | now left].
Qed.

(** The frame rules of the monad. *)

Lemma frames_ret allowed {A} (a : A) : frames allowed (ret a).
Proof. intros e w. apply evolves_refl. Qed.

Lemma frames_throw allowed {A} (x : Exn) : frames allowed (@throw A x).
Proof. intros e w. apply evolves_refl. Qed.

Lemma frames_bind allowed {A B} (c : M A) (k : A -> M B) :
  frames allowed c -> (forall a, frames allowed (k a)) -> frames allowed (bind c k).
Proof.
  intros Hc Hk e w. unfold bind. specialize (Hc e w).
  destruct (c e w) as [[x|a] w1]; cbn [snd] in *; [exact Hc|].
  eapply evolves_trans; [exact Hc | apply Hk].
Qed.

Lemma frames_try_catch allowed {A} (c : M A) (h : Exn -> M A) :
  frames allowed c -> (forall x, frames allowed (h x)) -> frames allowed (try_catch c h).
Proof.
  intros Hc Hh e w. unfold try_catch. specialize (Hc e w).
  destruct (c e w) as [[x|a] w1]; cbn [snd] in *; [|exact Hc].
  eapply evolves_trans; [exact Hc | apply Hh].
Qed.

Lemma frames_getDB allowed : frames allowed getDB.
Proof. intros e w. unfold getDB. destruct (db w); apply evolves_refl. Qed.

Lemma frames_generateId allowed : frames allowed generateId.
Proof. intros e w. apply evolves_refl. Qed.

Lemma frames_statement allowed {A} (sql : Sql A) :
  (forall t d a d', sql t d = inr (a, d') ->
                    evolves allowed (messages d) (messages d')) ->
  frames allowed (statement sql).
Proof.
  intros Hsql e w. unfold statement, stored_messages.
  destruct (db w) as [d|] eqn:Edb; cbn [snd db tick_stmts]; rewrite ?Edb;
    [|apply evolves_refl].
  destruct (sql_fault e (stmts w)); cbn [snd db tick_stmts]; rewrite ?Edb;
    [apply evolves_refl|].
  destruct (sql (now e (stmts w)) d) as [x|[a d']] eqn:E;
    cbn [snd db tick_stmts set_db]; rewrite ?Edb; [apply evolves_refl|].
  eapply Hsql, E.
Qed.

(** A statement that leaves the messages table alone. *)
Lemma frames_statement_keep allowed {A} (sql : Sql A) :
  (forall t d a d', sql t d = inr (a, d') -> messages d' = messages d) ->
  frames allowed (statement sql).
Proof.
  intros H. apply frames_statement. intros t d a d' E.
  rewrite (H t d a d' E). apply evolves_refl.
Qed.

Ltac frames_step :=
  first [ apply frames_bind; [|intros ?]
        | apply frames_try_catch; [|intros ?]
        | apply frames_ret
        | apply frames_throw
        | apply frames_getDB
        | apply frames_generateId ].

Ltac keep_messages :=
  let E := fresh "E" in
  apply frames_statement_keep; intros ? ? ? ? E;
  repeat match type of E with
         | (if ?c then _ else _) = _ => destruct c; [discriminate|]
         end;
  try discriminate; injection E as _ <-; reflexivity.

Lemma frames_createConversation userId : frames nothing (createConversation userId).
Proof.
  unfold createConversation. repeat frames_step.
  - unfold insert_conversation. keep_messages.
  - unfold select_conversation. keep_messages.
Qed.

Lemma frames_addMessage cid role content metadata :
  frames nothing (addMessage cid role content metadata).
Proof.
  unfold addMessage. repeat frames_step.
  - apply frames_statement. intros t d r d' E. unfold insert_message in E.
    destruct (existsb _ (messages d)); [discriminate|].
    destruct (negb _); [discriminate|].
    injection E as _ <-. apply evolves_app.
  - unfold update_last_message_at. keep_messages.
  - unfold select_message. keep_messages.
Qed.

Lemma frames_addFeedback mid rating text uid :
  frames (fun id r => id = mid /\ r = rating) (addFeedback mid rating text uid).
Proof.
  unfold addFeedback. repeat frames_step.
  - unfold insert_feedback. keep_messages.
  - apply frames_statement. intros t d r d' E. unfold update_message_rating in E.
    destruct (_ && _); [discriminate|].
    injection E as _ <-. apply evolves_set_rating.
Qed.

Lemma frames_reads :
  frames nothing getCommunityStats /\
  (forall cid, frames nothing (getConversationMessages cid)) /\
  (forall q c, frames nothing (searchCommunityResources q c)) /\
  (forall limit, frames nothing (getUpcomingEvents limit)) /\
  frames nothing healthCheck.
Proof.
  repeat split; intros;
    unfold getCommunityStats, getConversationMessages, searchCommunityResources,
           getUpcomingEvents, healthCheck;
    repeat frames_step;
    apply frames_statement_keep; intros t d r d' E;
    unfold select_community_stats, select_conversation_messages,
           select_community_resources, select_upcoming_events,
           count_community_stats in E;
    now injection E as _ <-.
Qed.

Lemma frames_run (op : Op) : frames (submitted [op]) (run op).
Proof.
  destruct frames_reads as [Hstats [Hget [Hsearch [Hevents Hhealth]]]].
  assert (Hnone : forall A (c : M A), frames nothing c -> frames (submitted [op]) c).
  { intros A c H e w. eapply evolves_mono; [|apply H]. intros id r []. }
  destruct op; cbn [run];
    try (apply frames_bind; [apply Hnone | intros ?; apply frames_ret]);
    auto using frames_createConversation, frames_addMessage.
  intros e w. eapply evolves_mono; [|apply frames_addFeedback].
  intros id r [-> ->]. exists feedbackText, userId. now left.
Qed.

(** C8, as the code has it.  Over any sequence of store operations a
    stored message stays in its place with its id, conversation, role,
    content, timestamp and metadata; its rating is either what it was or
    a rating that a feedback operation of the sequence submitted for
    that message.  Nothing limits how often feedback is submitted. *)
Theorem messages_change_only_in_rating
        (e : Env) (ops : list Op) (w : World) (i : nat) (m : Message) :
  nth_error (stored_messages w) i = Some m ->
  exists m',
    nth_error (stored_messages (run_all ops e w)) i = Some m' /\
    same_but_rating m m' /\
    (msg_rating m' = msg_rating m \/
     exists r, submitted ops (msg_id m) r /\ msg_rating m' = Some r).
Proof.
  revert i m.
  change (evolves (submitted ops) (stored_messages w)
                  (stored_messages (run_all ops e w))).
  revert w. induction ops as [|op ops IH]; intros w; cbn [run_all].
  - apply evolves_refl.
  - eapply evolves_trans.
    + eapply evolves_mono; [|apply (frames_run op e w)].
      intros id r [text [uid [Heq | []]]]. exists text, uid. now left.
    + eapply evolves_mono; [|apply IH].
      intros id r [text [uid Hin]]. exists text, uid. now right.
Qed.

Lemma messages_change_only_in_rating_witness :
  exists m',
    nth_error (stored_messages
                 (run_all [AddMessage "c1" user "Thanks" [];
                           AddFeedback "m1" 4%Z None None;
                           GetConversationMessages "c1"]
                          (Samples.env_with Samples.provider_down)
                          Samples.world_one_message)) 0%nat = Some m' /\
    msg_content m' = "Hello" /\ msg_rating m' = Some 4%Z.
Proof.
  destruct (messages_change_only_in_rating
              (Samples.env_with Samples.provider_down)
              [AddMessage "c1" user "Thanks" [];
               AddFeedback "m1" 4%Z None None;
               GetConversationMessages "c1"]
              Samples.world_one_message 0%nat
              (mkMessage "m1" "c1" assistant "Hello" 10%N None [])
              eq_refl) as [m' [Hnth [Hsame _]]].
  exists m'. split; [exact Hnth|].
  split; [apply Hsame|].
  vm_compute in Hnth. now injection Hnth as <-.
Defined.

(** C8 as stated fails on the rating: feedback submitted twice for the
    same message sets its rating twice. *)
Lemma rating_set_twice :
  let e := Samples.env_with Samples.provider_down in
  let w0 := Samples.world_one_message in
  let w1 := run_all [AddFeedback "m1" 3%Z None None] e w0 in
  let w2 := run_all [AddFeedback "m1" 5%Z None None] e w1 in
  map msg_rating (stored_messages w0) = [None] /\
  map msg_rating (stored_messages w1) = [Some 3%Z] /\
  map msg_rating (stored_messages w2) = [Some 5%Z].
Proof. repeat split. Qed.

(** *** Appending and reading back *)

Lemma insert_by_perm {A} (leb : A -> A -> bool) (x : A) (l : list A) :
  Permutation (insert_by leb x l) (x :: l).
Proof.
  induction l as [|y l IH]; cbn; [reflexivity|].
  destruct (leb x y); [reflexivity|].
  rewrite IH. apply perm_swap.
Qed.

Lemma order_by_perm {A} (leb : A -> A -> bool) (l : list A) :
  Permutation (order_by leb l) l.
Proof.
  induction l as [|x l IH]; cbn; [reflexivity|].
  rewrite insert_by_perm. now constructor.
Qed.

Section OrderBySorted.
Context {A : Type} (leb : A -> A -> bool).
Hypothesis leb_total : forall a b, leb a b = true \/ leb b a = true.
Hypothesis leb_trans : forall a b c, leb a b = true -> leb b c = true -> leb a c = true.

Let le (a b : A) : Prop := leb a b = true.

Lemma insert_by_sorted (x : A) (l : list A) :
  StronglySorted le l -> StronglySorted le (insert_by leb x l).
Proof.
  induction 1 as [|y l Hs IH Hall]; cbn; [repeat constructor|].
  destruct (leb x y) eqn:E.
  - constructor; [now constructor|].
    constructor; [exact E|].
    eapply Forall_impl; [|exact Hall]. intros z Hz. eapply leb_trans; eauto.
  - constructor; [exact IH|].
    assert (Hyx : le y x) by (destruct (leb_total x y); [congruence | assumption]).
    eapply Permutation_Forall; [symmetry; apply insert_by_perm|].
    now constructor.
Qed.

Lemma order_by_sorted (l : list A) : StronglySorted le (order_by leb l).
Proof.
  induction l as [|x l IH]; cbn; [constructor|]. now apply insert_by_sorted.
Qed.
End OrderBySorted.

Lemma StronglySorted_weaken {A} (R R' : A -> A -> Prop) (l : list A) :
  (forall a b, R a b -> R' a b) -> StronglySorted R l -> StronglySorted R' l.
Proof.
  intros Himp. induction 1 as [|x l Hs IH Hall]; constructor; [exact IH|].
  eapply Forall_impl; [|exact Hall]. auto.
Qed.

Lemma find_message_fresh (id : string) (ms : list Message) (row : Message) :
  existsb (fun m => (msg_id m =? id)%string) ms = false ->
  msg_id row = id ->
  find (fun m => (msg_id m =? id)%string) (ms ++ [row]) = Some row.
Proof.
  intros Hfresh Hid. induction ms as [|m ms IH]; cbn in *.
  - now rewrite Hid, String.eqb_refl.
  - apply orb_false_iff in Hfresh. destruct Hfresh as [-> Hfresh]. auto.
Qed.

Lemma find_conversation_fresh (id : string) (cs : list Conversation) (row : Conversation) :
  existsb (fun c => (conv_id c =? id)%string) cs = false ->
  conv_id row = id ->
  find (fun c => (conv_id c =? id)%string) (cs ++ [row]) = Some row.
Proof.
  intros Hfresh Hid. induction cs as [|c cs IH]; cbn in *.
  - now rewrite Hid, String.eqb_refl.
  - apply orb_false_iff in Hfresh. destruct Hfresh as [-> Hfresh]. auto.
Qed.

(** [createConversation] on an initialised store without driver faults. *)
Lemma createConversation_run (e : Env) (w : World) (d : Database)
      (userId : option string) :
  db w = Some d -> no_fault e ->
  let id := generated_id e (ids w) in
  let t := now e (stmts w) in
  let row := mkConversation id (or_null userId) t t "{}" true in
  createConversation userId e w =
  if has_conversation d id
  then (inl (SQLITE_CONSTRAINT PRIMARYKEY), tick_stmts (tick_ids w))
  else if negb (references_user d (or_null userId))
  then (inl (SQLITE_CONSTRAINT FOREIGNKEY), tick_stmts (tick_ids w))
  else (inr (Some row),
        mkWorld (Some (set_conversations (conversations d ++ [row])%list d))
                (2 + stmts w) (S (ids w)) (draws w) (calls w) (trace w)).
Proof.
  intros Hdb Hnf id t row. unfold createConversation.
  unfold bind at 1. rewrite (getDB_run e w d Hdb).
  unfold bind at 1. cbn [generateId].
  unfold bind at 1.
  rewrite (statement_run _ e (tick_ids w) d Hdb (Hnf _)).
  unfold insert_conversation at 1. fold id. unfold has_conversation.
  destruct (existsb _ (conversations d)) eqn:Efresh; [reflexivity|].
  destruct (negb (references_user d (or_null userId))); [reflexivity|].
  unfold bind at 1.
  erewrite statement_run; [|reflexivity|apply Hnf].
  unfold select_conversation. cbn [conversations set_conversations].
  change (now e (stmts (tick_ids w))) with t. fold row.
  rewrite (find_conversation_fresh id (conversations d) row Efresh eq_refl).
  reflexivity.
Qed.

(** [addMessage] on an initialised store without driver faults. *)
Lemma addMessage_run (e : Env) (w : World) (d : Database)
      (cid : string) (role : Role) (content : string) (metadata : JsonObject) :
  db w = Some d -> no_fault e ->
  let id := generated_id e (ids w) in
  let row := mkMessage id cid role content (now e (stmts w)) None metadata in
  addMessage cid role content metadata e w =
  if has_message d id
  then (inl (SQLITE_CONSTRAINT PRIMARYKEY), tick_stmts (tick_ids w))
  else if negb (has_conversation d cid)
  then (inl (SQLITE_CONSTRAINT FOREIGNKEY), tick_stmts (tick_ids w))
  else (inr (Some row),
        mkWorld (Some (set_conversations
                         (map (fun c => if (conv_id c =? cid)%string
                                        then set_last_message_at (now e (S (stmts w))) c
                                        else c)
                              (conversations d))
                         (set_messages (messages d ++ [row])%list d)))
                (3 + stmts w) (S (ids w)) (draws w) (calls w) (trace w)).
Proof.
  intros Hdb Hnf id row. unfold addMessage.
  unfold bind at 1. rewrite (getDB_run e w d Hdb).
  unfold bind at 1. cbn [generateId].
  unfold bind at 1.
  rewrite (statement_run _ e (tick_ids w) d Hdb (Hnf _)).
  unfold insert_message at 1. fold id. unfold has_message, has_conversation.
  destruct (existsb _ (messages d)) eqn:Efresh; [reflexivity|].
  destruct (negb (existsb _ (conversations d))); [reflexivity|].
  unfold bind at 1.
  erewrite statement_run; [|reflexivity|apply Hnf].
  unfold update_last_message_at at 1.
  unfold bind at 1.
  erewrite statement_run; [|reflexivity|apply Hnf].
  unfold select_message. cbn [messages set_messages set_conversations].
  change (now e (stmts (tick_ids w))) with (now e (stmts w)). fold row.
  rewrite (find_message_fresh id (messages d) row Efresh eq_refl).
  reflexivity.
Qed.

Lemma has_conversation_touch (cid cid' : string) (t : DateTime) (cs : list Conversation) :
  existsb (fun c => (conv_id c =? cid)%string)
          (map (fun c => if (conv_id c =? cid')%string
                         then set_last_message_at t c else c) cs)
  = existsb (fun c => (conv_id c =? cid)%string) cs.
Proof.
  induction cs as [|c cs IH]; cbn; [reflexivity|]. rewrite IH.
  destruct (conv_id c =? cid')%string; reflexivity.
Qed.

(** Appending keeps the store initialised and the conversation present,
    and adds to the conversation exactly the messages it returned. *)
Lemma append_each_filter (e : Env) (cid : string) :
  no_fault e ->
  forall inputs w d rs w',
    db w = Some d ->
    append_each cid inputs e w = (rs, w') ->
    exists d',
      db w' = Some d' /\
      filter (fun m => (msg_conversation_id m =? cid)%string) (messages d') =
      (filter (fun m => (msg_conversation_id m =? cid)%string) (messages d)
       ++ appended rs)%list.
Proof.
  intros Hnf. induction inputs as [|[[role content] metadata] inputs IH];
    intros w d rs w' Hdb Hrun; cbn [append_each] in Hrun.
  - injection Hrun as <- <-. exists d. now rewrite app_nil_r.
  - rewrite (addMessage_run e w d cid role content metadata Hdb Hnf) in Hrun.
    destruct (has_message d (generated_id e (ids w)));
      [|destruct (negb (has_conversation d cid))].
    + destruct (append_each cid inputs e _) as [rs1 w1] eqn:Erest.
      injection Hrun as <- <-. cbn [appended].
      eapply IH; [|exact Erest]. exact Hdb.
    + destruct (append_each cid inputs e _) as [rs1 w1] eqn:Erest.
      injection Hrun as <- <-. cbn [appended].
      eapply IH; [|exact Erest]. exact Hdb.
    + destruct (append_each cid inputs e _) as [rs1 w1] eqn:Erest.
      injection Hrun as <- <-. cbn [appended].
      edestruct IH as [d' [Hdb' Hfilter]]; [|exact Erest|]; [reflexivity|].
      exists d'. split; [exact Hdb'|].
      rewrite Hfilter. cbn [messages set_conversations set_messages].
      rewrite filter_app. cbn [filter msg_conversation_id].
      rewrite String.eqb_refl, <- app_assoc. reflexivity.
Qed.

Lemma no_message_of_new_conversation (d : Database) (cid : string) :
  messages_reference_conversations d ->
  has_conversation d cid = false ->
  filter (fun m => (msg_conversation_id m =? cid)%string) (messages d) = [].
Proof.
  intros Hfk Hnew.
  assert (H : forall ms, (forall m, In m ms -> In m (messages d)) ->
              filter (fun m => (msg_conversation_id m =? cid)%string) ms = []).
  { induction ms as [|m ms IH]; intros Hsub; cbn; [reflexivity|].
    destruct (String.eqb_spec (msg_conversation_id m) cid) as [Heq|Hne].
    - specialize (Hfk m (Hsub m (or_introl eq_refl))).
      rewrite Heq in Hfk. unfold has_conversation in Hnew. congruence.
    - apply IH. intros m' Hin. apply Hsub. now right. }
  apply H. auto.
Qed.

(** C5.  On an initialised store and with no driver fault:
    [addMessage] on a conversation id absent from the store fails on a
    constraint (the foreign key, unless the generated id collides with an
    existing message, in which case the primary key) and stores nothing;
    and after [createConversation] has returned a conversation, whatever
    messages are appended to it, [getConversationMessages] returns
    exactly the messages the appends returned, ascending by timestamp. *)
Theorem addMessage_getConversationMessages_roundtrip :
  (forall e w d cid role content metadata,
     db w = Some d -> no_fault e ->
     has_conversation d cid = false ->
     exists kind w',
       addMessage cid role content metadata e w = (inl (SQLITE_CONSTRAINT kind), w') /\
       db w' = Some d /\
       (has_message d (generated_id e (ids w)) = false -> kind = FOREIGNKEY)) /\
  (forall e w d userId c w1 inputs rs w2,
     db w = Some d -> no_fault e ->
     messages_reference_conversations d ->
     createConversation userId e w = (inr (Some c), w1) ->
     append_each (conv_id c) inputs e w1 = (rs, w2) ->
     exists ms w3,
       getConversationMessages (conv_id c) e w2 = (inr ms, w3) /\
       Permutation ms (appended rs) /\
       StronglySorted (fun a b => (msg_timestamp a <= msg_timestamp b)%N) ms).
Proof.
  split.
  - intros e w d cid role content metadata Hdb Hnf Hmissing.
    rewrite (addMessage_run e w d cid role content metadata Hdb Hnf), Hmissing.
    cbn [negb].
    destruct (has_message d (generated_id e (ids w))); eexists; eexists;
      (split; [reflexivity|]); (split; [exact Hdb|]); congruence.
  - intros e w d userId c w1 inputs rs w2 Hdb Hnf Hfk Hcreate Happend.
    rewrite (createConversation_run e w d userId Hdb Hnf) in Hcreate.
    destruct (has_conversation d (generated_id e (ids w))) eqn:Enew; [discriminate|].
    destruct (negb (references_user d (or_null userId))); [discriminate|].
    injection Hcreate as <- <-. cbn [conv_id] in *.
    set (cid := generated_id e (ids w)) in *.
    edestruct (append_each_filter e cid Hnf) as [d2 [Hdb2 Hfilter]];
      [|exact Happend|]; [reflexivity|].
    cbn [messages set_conversations] in Hfilter.
    rewrite (no_message_of_new_conversation d cid Hfk Enew) in Hfilter.
    cbn [app] in Hfilter.
    unfold getConversationMessages. unfold bind.
    rewrite (getDB_run e w2 d2 Hdb2).
    rewrite (statement_run _ e w2 d2 Hdb2 (Hnf _)).
    unfold select_conversation_messages. rewrite Hfilter.
    eexists. eexists. split; [reflexivity|]. split.
    + apply order_by_perm.
    + eapply StronglySorted_weaken; [|apply order_by_sorted].
      * intros a b Hab. now apply N.leb_le.
      * intros a b. rewrite !N.leb_le. lia.
      * intros a b c'. rewrite !N.leb_le. lia.
Qed.

(** A run of the round trip: a conversation is created, two messages are
    appended and read back; an append to an unknown conversation fails on
    the foreign key. *)
Lemma addMessage_getConversationMessages_roundtrip_witness :
  let e := Samples.env_with Samples.provider_down in
  let w := Samples.fresh_world in
  let w1 := snd (createConversation None e w) in
  let inputs := [(user, "Hello", []); (assistant, "Hi, I am IVOR", [])] in
  let w2 := snd (append_each "id0" inputs e w1) in
  (exists w', addMessage "missing" user "Hello" [] e w
              = (inl (SQLITE_CONSTRAINT FOREIGNKEY), w')) /\
  (exists ms w3,
      getConversationMessages "id0" e w2 = (inr ms, w3) /\
      Permutation ms [ mkMessage "id1" "id0" user "Hello" 2%N None [];
                       mkMessage "id2" "id0" assistant "Hi, I am IVOR" 5%N None [] ]).
Proof.
  intros e w w1 inputs w2.
  destruct addMessage_getConversationMessages_roundtrip as [Hmissing Hround].
  assert (Hnf : no_fault e) by (intros k; reflexivity).
  split.
  - assert (Hfresh : has_message Samples.empty_db (generated_id e (ids w)) = false)
      by reflexivity.
    destruct (Hmissing e w Samples.empty_db "missing" user "Hello" []
                       eq_refl Hnf eq_refl)
      as [kind [w' [Hrun [_ Hkind]]]].
    rewrite (Hkind Hfresh) in Hrun. exists w'. exact Hrun.
  - assert (Hcreate : createConversation None e w
                      = (inr (Some (mkConversation "id0" None 0%N 0%N "{}" true)), w1))
      by (vm_compute; reflexivity).
    assert (Happend : append_each "id0" inputs e w1
                      = ([ inr (Some (mkMessage "id1" "id0" user "Hello" 2%N None []));
                           inr (Some (mkMessage "id2" "id0" assistant "Hi, I am IVOR"
                                                5%N None [])) ], w2))
      by (vm_compute; reflexivity).
    assert (Hfk : messages_reference_conversations Samples.empty_db)
      by (intros m []).
    destruct (Hround e w Samples.empty_db None _ w1 inputs _ w2
                     eq_refl Hnf Hfk Hcreate Happend)
      as [ms [w3 [Hget [Hperm _]]]].
    exists ms, w3. split; [exact Hget | exact Hperm].
Defined.



(** *** The foreign key of messages is an invariant of the service *)

Lemma keeps_ret {A} I (a : A) : keeps I (ret a).
Proof. intros e w d Hdb HI. exists d. auto. Qed.

Lemma keeps_bind {A B} I (c : M A) (k : A -> M B) :
  keeps I c -> (forall a, keeps I (k a)) -> keeps I (bind c k).
Proof.
  intros Hc Hk e w d Hdb HI. unfold bind.
  destruct (Hc e w d Hdb HI) as [d1 [Hdb1 HI1]].
  destruct (c e w) as [[x|a] w1]; cbn [snd] in *; [eauto|].
  exact (Hk a e w1 d1 Hdb1 HI1).
Qed.

Lemma keeps_try_catch {A} I (c : M A) (h : Exn -> M A) :
  keeps I c -> (forall x, keeps I (h x)) -> keeps I (try_catch c h).
Proof.
  intros Hc Hh e w d Hdb HI. unfold try_catch.
  destruct (Hc e w d Hdb HI) as [d1 [Hdb1 HI1]].
  destruct (c e w) as [[x|a] w1]; cbn [snd] in *; [|eauto].
  exact (Hh x e w1 d1 Hdb1 HI1).
Qed.

Lemma keeps_getDB I : keeps I getDB.
Proof. intros e w d Hdb HI. unfold getDB. rewrite Hdb. eauto. Qed.

Lemma keeps_generateId I : keeps I generateId.
Proof. intros e w d Hdb HI. exists d. auto. Qed.

Lemma keeps_statement {A} (I : Database -> Prop) (sql : Sql A) :
  (forall t d a d', I d -> sql t d = inr (a, d') -> I d') ->
  keeps I (statement sql).
Proof.
  intros Hsql e w d Hdb HI. unfold statement. rewrite Hdb.
  destruct (sql_fault e (stmts w)); [exists d; auto|].
  destruct (sql (now e (stmts w)) d) as [x|[a d']] eqn:E; [exists d; auto|].
  exists d'. split; [reflexivity|]. eapply Hsql; eauto.
Qed.

Lemma references_insert_message id cid role content metadata t d a d' :
  messages_reference_conversations d ->
  insert_message id cid role content metadata t d = inr (a, d') ->
  messages_reference_conversations d'.
Proof.
  unfold insert_message. intros Hfk E.
  destruct (existsb _ (messages d)); [discriminate|].
  destruct (existsb _ (conversations d)) eqn:Hconv; [|discriminate].
  injection E as _ <-. intros m Hin. cbn [messages conversations set_messages] in *.
  apply in_app_or in Hin. destruct Hin as [Hin | [<- | []]]; [now apply Hfk | exact Hconv].
Qed.

Lemma references_insert_conversation id uid t d a d' :
  messages_reference_conversations d ->
  insert_conversation id uid t d = inr (a, d') ->
  messages_reference_conversations d'.
Proof.
  unfold insert_conversation. intros Hfk E.
  destruct (existsb _ (conversations d)); [discriminate|].
  destruct (negb _); [discriminate|].
  injection E as _ <-. intros m Hin. cbn [messages conversations set_conversations] in *.
  rewrite existsb_app, (Hfk m Hin). reflexivity.
Qed.

Lemma references_update_last_message_at cid t d a d' :
  messages_reference_conversations d ->
  update_last_message_at cid t d = inr (a, d') ->
  messages_reference_conversations d'.
Proof.
  unfold update_last_message_at. intros Hfk E.
  injection E as _ <-. intros m Hin. cbn [messages conversations set_conversations] in *.
  rewrite has_conversation_touch. now apply Hfk.
Qed.

Lemma references_update_message_rating rating mid t d a d' :
  messages_reference_conversations d ->
  update_message_rating rating mid t d = inr (a, d') ->
  messages_reference_conversations d'.
Proof.
  unfold update_message_rating. intros Hfk E.
  destruct (_ && _); [discriminate|].
  injection E as _ <-. intros m Hin. cbn [messages conversations set_messages] in *.
  apply in_map_iff in Hin. destruct Hin as [m0 [<- Hin0]].
  specialize (Hfk m0 Hin0).
  destruct (msg_id m0 =? mid)%string; exact Hfk.
Qed.

Ltac keeps_step :=
  first [ apply keeps_bind; [|intros ?]
        | apply keeps_try_catch; [|intros ?]
        | apply keeps_getDB
        | apply keeps_generateId
        | apply keeps_ret ].

Ltac keeps_same :=
  let E := fresh "E" in
  let H := fresh "H" in
  apply keeps_statement; intros ? ? ? ? H E;
  repeat match type of E with
         | (if ?c then _ else _) = _ => destruct c; [discriminate|]
         end;
  injection E as _ <-; exact H.

(** Every operation keeps the messages table within the conversations
    table, so the foreign key holds in every store the service reaches
    from an empty one. *)
Lemma run_keeps_references (op : Op) :
  keeps messages_reference_conversations (run op).
Proof.
  destruct op; cbn [run];
    unfold getCommunityStats, createConversation, addMessage,
           getConversationMessages, searchCommunityResources,
           getUpcomingEvents, addFeedback, healthCheck;
    repeat keeps_step.
  - unfold select_community_stats. keeps_same.
  - apply keeps_statement. intros; eapply references_insert_conversation; eauto.
  - unfold select_conversation. keeps_same.
  - apply keeps_statement. intros; eapply references_insert_message; eauto.
  - apply keeps_statement. intros; eapply references_update_last_message_at; eauto.
  - unfold select_message. keeps_same.
  - unfold select_conversation_messages. keeps_same.
  - unfold select_community_resources. keeps_same.
  - unfold select_upcoming_events. keeps_same.
  - unfold insert_feedback. keeps_same.
  - apply keeps_statement. intros; eapply references_update_message_rating; eauto.
  - unfold count_community_stats. keeps_same.
Qed.

Lemma run_all_keeps_references (e : Env) (ops : list Op) :
  forall w d,
    db w = Some d -> messages_reference_conversations d ->
    exists d', db (run_all ops e w) = Some d' /\
               messages_reference_conversations d'.
Proof.
  induction ops as [|op ops IH]; intros w d Hdb Hfk; cbn [run_all].
  - eauto.
  - destruct (run_keeps_references op e w d Hdb Hfk) as [d1 [Hdb1 Hfk1]].
    eapply IH; eauto.
Qed.

End StoreProps.

(** ** Chat route *)

Module ChatProps.
Import IvorPersona PersonaSpec SQLiteService StoreSpec ChatSpec.

Lemma validate_message_iff (s t : string) :
  validate_message (Some s) = Some t <->
  t = validator_trim s /\ isLength 1 2000 (validator_trim s) = true.
Proof.
  unfold validate_message. cbv zeta.
  destruct (isLength 1 2000 (validator_trim s)); split.
  - intros [= <-]. auto.
  - intros [-> _]. reflexivity.
  - discriminate.
  - intros [_ H]. discriminate.
Qed.

Lemma append_empty_inv (a b : string) :
  a ++ b = EmptyString -> a = EmptyString /\ b = EmptyString.
Proof. destruct a; [auto | discriminate]. Qed.

Lemma includes_nonempty (s k : string) :
  k <> EmptyString -> includes s k = true -> s <> EmptyString.
Proof.
  intros Hk H ->. apply includes_iff in H. destruct H as [pre [post H]].
  symmetry in H. apply append_empty_inv in H. destruct H as [_ H].
  apply append_empty_inv in H. now destruct H.
Qed.

(** The processed response is never empty: a reply without first-person
    marker gets the opener, a reply with one is not empty itself. *)
Lemma processResponse_nonempty (aiResponse originalMessage : string) :
  processResponse aiResponse originalMessage <> EmptyString.
Proof.
  rewrite PersonaProps.processResponse_shape. unfold opener_for.
  destruct (includes aiResponse "I ") eqn:E1; cbn [negb andb].
  - intros H. cbn [append] in H. apply append_empty_inv in H. destruct H as [H _].
    apply (includes_nonempty aiResponse "I "); [discriminate | exact E1 | exact H].
  - destruct (includes aiResponse "I'm") eqn:E2; cbn [negb].
    + intros H. cbn [append] in H. apply append_empty_inv in H. destruct H as [H _].
      apply (includes_nonempty aiResponse "I'm"); [discriminate | exact E2 | exact H].
    + discriminate.
Qed.

(** The fallback returns a non-empty reply and touches nothing but the
    count of random draws. *)
Lemma getFallbackResponse_run (userMessage : string) (e : Env) (w : World) :
  exists reply,
    reply <> EmptyString /\
    (getFallbackResponse userMessage e w = (inr reply, w) \/
     getFallbackResponse userMessage e w = (inr reply, tick_draws w)).
Proof.
  unfold getFallbackResponse.
  destruct (first_topic (toLowerCase userMessage) communityKnowledge)
    as [found|] eqn:Efirst.
  - exists (message found). split; [|now left].
    destruct (PersonaProps.first_topic_Some _ _ _ Efirst) as [topic [Hin _]].
    exact (proj1 (Forall_forall _ _) PersonaProps.canned_messages_nonempty _ Hin).
  - destruct (PersonaProps.Math_random_unit e w) as [z [Hrand Hz]].
    eexists. split; [|right; unfold bind; rewrite Hrand; reflexivity].
    apply (proj1 (Forall_forall _ _) PersonaProps.fallbackResponses_nonempty).
    apply nth_In. apply PersonaProps.Math_floor_random_lt. exact Hz.
Qed.

Lemma emergency_answers (e : Env) (w : World) :
  answers ["groq"; "fallback"; "emergency"] (emergency e w).
Proof.
  eexists. eexists. eexists. split; [reflexivity|].
  split; [cbn; auto | discriminate].
Qed.

Ltac bind_inv H :=
  let a := fresh "a" in
  let w1 := fresh "w" in
  let H1 := fresh "Hrun" in
  apply bind_inr_inv in H; destruct H as [a [w1 [H1 H]]].

Lemma sqlite_groq_branch_answers cid message e w resp w' :
  ChatRoutesSqlite.groq_branch cid message e w = (inr resp, w') ->
  exists r, resp = mkHttpResponse 200 (ChatJson r) /\
            mode r = "groq" /\ response r <> EmptyString.
Proof.
  unfold ChatRoutesSqlite.groq_branch. intros H.
  bind_inv H. bind_inv H. bind_inv H.
  injection H as <- _. eexists. split; [reflexivity|].
  split; [reflexivity | apply processResponse_nonempty].
Qed.

Lemma sqlite_fallback_branch_answers cid message e w resp w' :
  ChatRoutesSqlite.fallback_branch cid message e w = (inr resp, w') ->
  exists r, resp = mkHttpResponse 200 (ChatJson r) /\
            mode r = "fallback" /\ response r <> EmptyString.
Proof.
  unfold ChatRoutesSqlite.fallback_branch. intros H.
  bind_inv H. bind_inv H. bind_inv H.
  injection H as <- _. eexists. split; [reflexivity|].
  split; [reflexivity|]. cbn [response].
  destruct (getFallbackResponse_run message e w) as [reply [Hne [Hr|Hr]]];
    rewrite Hr in Hrun; now injection Hrun as <- _.
Qed.

Lemma plain_groq_branch_answers req message e w resp w' :
  ChatRoutes.groq_branch req message e w = (inr resp, w') ->
  exists r, resp = mkHttpResponse 200 (ChatJson r) /\
            mode r = "groq" /\ response r <> EmptyString.
Proof.
  unfold ChatRoutes.groq_branch. intros H.
  bind_inv H. bind_inv H.
  injection H as <- _. eexists. split; [reflexivity|].
  split; [reflexivity | apply processResponse_nonempty].
Qed.

Lemma plain_fallback_branch_answers req message e w resp w' :
  ChatRoutes.fallback_branch req message e w = (inr resp, w') ->
  exists r, resp = mkHttpResponse 200 (ChatJson r) /\
            mode r = "fallback" /\ response r <> EmptyString.
Proof.
  unfold ChatRoutes.fallback_branch. intros H.
  bind_inv H. bind_inv H.
  injection H as <- _. eexists. split; [reflexivity|].
  split; [reflexivity|]. cbn [response].
  destruct (getFallbackResponse_run message e w) as [reply [Hne [Hr|Hr]]];
    rewrite Hr in Hrun; now injection Hrun as <- _.
Qed.

(** Whatever the two inner branches do, a result they return is a chat
    result in mode groq or fallback. *)
Lemma inner_try_answers (groq fallback : M HttpResponse) e w resp w' :
  (forall e w resp w', groq e w = (inr resp, w') ->
     exists r, resp = mkHttpResponse 200 (ChatJson r) /\
               mode r = "groq" /\ response r <> EmptyString) ->
  (forall e w resp w', fallback e w = (inr resp, w') ->
     exists r, resp = mkHttpResponse 200 (ChatJson r) /\
               mode r = "fallback" /\ response r <> EmptyString) ->
  try_catch groq (fun _ => fallback) e w = (inr resp, w') ->
  answers ["groq"; "fallback"; "emergency"] (inr resp, w').
Proof.
  intros Hg Hf H. apply try_catch_inr_inv in H.
  destruct H as [H | [x [w1 [_ H]]]].
  - destruct (Hg _ _ _ _ H) as [r [-> [Hm Hr]]].
    exists 200%nat, r, w'. rewrite Hm. cbn. auto.
  - destruct (Hf _ _ _ _ H) as [r [-> [Hm Hr]]].
    exists 200%nat, r, w'. rewrite Hm. cbn. auto.
Qed.

(** C1, as the code has it.  A request whose message passes validation
    is always answered with a chat result whose mode is groq, fallback or
    emergency and whose response is not empty, whatever the provider and
    the store do; this holds for the route with storage and for the one
    without. *)
Theorem post_chat_always_answers
        (isUUID : string -> bool) (e : Env) (w : World) (req : Request) :
  (forall message,
     validate_message (req_message req) = Some message ->
     answers ["groq"; "fallback"; "emergency"]
             (ChatRoutesSqlite.post_chat req e w)) /\
  (forall message,
     ChatRoutes.validate isUUID req = ([], Some message) ->
     answers ["groq"; "fallback"; "emergency"]
             (ChatRoutes.post_chat isUUID req e w)).
Proof.
  split; intros message Hvalid.
  - unfold ChatRoutesSqlite.post_chat. rewrite Hvalid. unfold try_catch at 1.
    match goal with |- answers _ (match ?body with _ => _ end) =>
      destruct body as [[x|resp] w1] eqn:Ebody end;
      [apply emergency_answers|].
    bind_inv Ebody. bind_inv Ebody.
    eapply inner_try_answers; [| |exact Ebody].
    + intros; eapply sqlite_groq_branch_answers; eauto.
    + intros; eapply sqlite_fallback_branch_answers; eauto.
  - unfold ChatRoutes.post_chat. rewrite Hvalid. unfold try_catch at 1.
    match goal with |- answers _ (match ?body with _ => _ end) =>
      destruct body as [[x|resp] w1] eqn:Ebody end;
      [apply emergency_answers|].
    eapply inner_try_answers; [| |exact Ebody].
    + intros; eapply plain_groq_branch_answers; eauto.
    + intros; eapply plain_fallback_branch_answers; eauto.
Qed.

(** C1 as stated fails on the name of the first mode: when the provider
    answers, the mode field is groq. *)
Lemma provider_answer_has_mode_groq :
  exists r w',
    ChatRoutesSqlite.post_chat Samples.first_message
      (Samples.env_with (Samples.provider_up "Hi")) Samples.fresh_world
    = (inr (mkHttpResponse 200 (ChatJson r)), w') /\
    mode r = "groq" /\
    ~ In (mode r) ["provider"; "fallback"; "emergency"].
Proof.
  eexists. eexists. split; [vm_compute; reflexivity|].
  split; [reflexivity|]. cbn. intuition discriminate.
Qed.

(** *** The turn on a store that accepts its writes *)




(** The same request under the general statement of C1. *)
Lemma post_chat_always_answers_witness :
  answers ["groq"; "fallback"; "emergency"]
          (ChatRoutesSqlite.post_chat Samples.first_message
             (Samples.env_with Samples.provider_down) Samples.fresh_world).
Proof.
  assert (Hvalid : validate_message (req_message Samples.first_message)
                   = Some "I'm feeling really alone and need housing help")
    by (vm_compute; reflexivity).
  exact (proj1 (post_chat_always_answers (fun _ => true)
                  (Samples.env_with Samples.provider_down) Samples.fresh_world
                  Samples.first_message)
               _ Hvalid).
Defined.


(** The scenario of the specification: the provider fails three times on
    a first message that mentions housing.  The stored and returned reply
    is the housing entry of the knowledge table, as it is. *)
Example housing_scenario_fallback :
  exists r w',
    ChatRoutesSqlite.post_chat Samples.first_message
      (Samples.env_with Samples.provider_down) Samples.fresh_world
    = (inr (mkHttpResponse 200 (ChatJson r)), w') /\
    source r = "qtipoc_local_knowledge" /\
    option_map (fun entry => message (snd entry))
               (find (fun entry => (fst entry =? "housing")%string)
                     communityKnowledge)
    = Some (response r).
Proof.
  eexists. eexists. split; [vm_compute; reflexivity|]. split; reflexivity.
Qed.

End ChatProps.

(** ** Further properties of the conversation store *)

Module StoreMore.
Import SQLiteService StoreSpec MoreSpec.

(** *** What a returned result tells about the store *)

Lemma getDB_inr_inv e w d w' :
  getDB e w = (inr d, w') -> db w = Some d /\ w' = w.
Proof.
  unfold getDB. destruct (db w); [|discriminate]. now intros [= -> ->].
Qed.

Lemma createConversation_inr_inv e w userId r w' :
  createConversation userId e w = (inr r, w') ->
  exists d,
    db w = Some d /\
    has_conversation d (generated_id e (ids w)) = false /\
    references_user d (or_null userId) = true /\
    r = Some (mkConversation (generated_id e (ids w)) (or_null userId)
                             (now e (stmts w)) (now e (stmts w)) "{}" true) /\
    w' = mkWorld (Some (set_conversations
                          (conversations d ++
                           [mkConversation (generated_id e (ids w)) (or_null userId)
                                           (now e (stmts w)) (now e (stmts w)) "{}" true])%list
                          d))
                 (2 + stmts w) (S (ids w)) (draws w) (calls w) (trace w).
Proof.
  unfold createConversation. intros H.
  apply bind_inr_inv in H. destruct H as [d [w0 [Hget H]]].
  apply getDB_inr_inv in Hget. destruct Hget as [Hdb ->].
  apply bind_inr_inv in H. destruct H as [id [w1 [Hid H]]].
  injection Hid as <- <-.
  apply bind_inr_inv in H. destruct H as [[] [w2 [Hins H]]].
  apply bind_inr_inv in H. destruct H as [c [w3 [Hsel H]]].
  injection H as <- <-.
  apply StoreProps.statement_ok in Hins.
  destruct Hins as [d0 [d1 [Hd0 [Hsql ->]]]].
  change (db (tick_ids w)) with (db w) in Hd0.
  assert (d0 = d) by congruence. subst d0.
  unfold insert_conversation in Hsql.
  destruct (existsb _ (conversations d)) eqn:Efresh; [discriminate|].
  destruct (references_user d (or_null userId)) eqn:Euser; [|discriminate].
  cbn [negb] in Hsql. injection Hsql as <-.
  apply StoreProps.statement_ok in Hsel.
  destruct Hsel as [d2 [d3 [Hd2 [Hsql2 ->]]]].
  cbn in Hd2. injection Hd2 as <-.
  unfold select_conversation in Hsql2. injection Hsql2 as <- <-.
  exists d. split; [exact Hdb|]. split; [exact Efresh|]. split; [exact Euser|].
  cbn [conversations set_conversations stmts tick_ids tick_stmts].
  erewrite StoreProps.find_conversation_fresh; [|exact Efresh|reflexivity].
  split; reflexivity.
Qed.

Lemma addMessage_inr_inv e w cid role content metadata r w' :
  addMessage cid role content metadata e w = (inr r, w') ->
  exists d,
    db w = Some d /\
    has_message d (generated_id e (ids w)) = false /\
    has_conversation d cid = true /\
    r = Some (mkMessage (generated_id e (ids w)) cid role content
                        (now e (stmts w)) None metadata) /\
    w' = mkWorld (Some (set_conversations
                          (map (touch cid (now e (S (stmts w)))) (conversations d))
                          (set_messages
                             (messages d ++
                              [mkMessage (generated_id e (ids w)) cid role content
                                         (now e (stmts w)) None metadata])%list d)))
                 (3 + stmts w) (S (ids w)) (draws w) (calls w) (trace w).
Proof.
  unfold addMessage. intros H.
  apply bind_inr_inv in H. destruct H as [d [w0 [Hget H]]].
  apply getDB_inr_inv in Hget. destruct Hget as [Hdb ->].
  apply bind_inr_inv in H. destruct H as [id [w1 [Hid H]]].
  injection Hid as <- <-.
  apply bind_inr_inv in H. destruct H as [[] [w2 [Hins H]]].
  apply bind_inr_inv in H. destruct H as [[] [w3 [Hupd H]]].
  apply bind_inr_inv in H. destruct H as [m [w4 [Hsel H]]].
  injection H as <- <-.
  apply StoreProps.statement_ok in Hins.
  destruct Hins as [d0 [d1 [Hd0 [Hsql ->]]]].
  change (db (tick_ids w)) with (db w) in Hd0.
  assert (d0 = d) by congruence. subst d0.
  unfold insert_message in Hsql.
  destruct (existsb _ (messages d)) eqn:Efresh; [discriminate|].
  destruct (existsb _ (conversations d)) eqn:Econv; [|discriminate].
  cbn [negb] in Hsql. injection Hsql as <-.
  apply StoreProps.statement_ok in Hupd.
  destruct Hupd as [d2 [d3 [Hd2 [Hsql2 ->]]]].
  cbn in Hd2. injection Hd2 as <-.
  unfold update_last_message_at in Hsql2. injection Hsql2 as <-.
  apply StoreProps.statement_ok in Hsel.
  destruct Hsel as [d4 [d5 [Hd4 [Hsql3 ->]]]].
  cbn in Hd4. injection Hd4 as <-.
  unfold select_message in Hsql3. injection Hsql3 as <- <-.
  exists d. split; [exact Hdb|]. split; [exact Efresh|]. split; [exact Econv|].
  cbn [messages conversations set_conversations set_messages
       stmts tick_ids tick_stmts set_db].
  erewrite StoreProps.find_message_fresh; [|exact Efresh|reflexivity].
  split; reflexivity.
Qed.

Lemma addFeedback_inr_inv e w mid rating text uid r w' :
  addFeedback mid rating text uid e w = (inr r, w') ->
  exists d,
    db w = Some d /\
    rating_in_range rating = true /\
    has_message d mid = true /\
    existsb (fun f => (fb_id f =? generated_id e (ids w))%string) (feedback d) = false /\
    references_user d (or_null uid) = true /\
    w' = mkWorld (Some (set_messages
                          (map (rate mid rating) (messages d))
                          (set_feedback
                             (feedback d ++
                              [mkFeedback (generated_id e (ids w)) mid rating
                                          (or_null text) (now e (stmts w))
                                          (or_null uid)])%list d)))
                 (2 + stmts w) (S (ids w)) (draws w) (calls w) (trace w).
Proof.
  unfold addFeedback. intros H.
  apply bind_inr_inv in H. destruct H as [d [w0 [Hget H]]].
  apply getDB_inr_inv in Hget. destruct Hget as [Hdb ->].
  apply bind_inr_inv in H. destruct H as [id [w1 [Hid H]]].
  injection Hid as <- <-.
  apply bind_inr_inv in H. destruct H as [[] [w2 [Hins H]]].
  apply StoreProps.statement_ok in Hins.
  destruct Hins as [d0 [d1 [Hd0 [Hsql ->]]]].
  change (db (tick_ids w)) with (db w) in Hd0.
  assert (d0 = d) by congruence. subst d0.
  unfold insert_feedback in Hsql.
  destruct (rating_in_range rating) eqn:Erange; [|discriminate].
  cbn [negb] in Hsql.
  destruct (existsb _ (feedback d)) eqn:Efresh; [discriminate|].
  destruct (existsb _ (messages d)) eqn:Emsg; [|discriminate].
  destruct (references_user d (or_null uid)) eqn:Euser; [|discriminate].
  cbn [negb orb] in Hsql. injection Hsql as <-.
  apply StoreProps.statement_ok in H.
  destruct H as [d2 [d3 [Hd2 [Hsql2 ->]]]].
  cbn in Hd2. injection Hd2 as <-.
  unfold update_message_rating in Hsql2.
  cbn [messages set_feedback] in Hsql2.
  rewrite Emsg, Erange in Hsql2. cbn [negb andb] in Hsql2.
  injection Hsql2 as Hd3. subst d3.
  exists d. split; [exact Hdb|]. split; [reflexivity|]. split; [exact Emsg|].
  split; [exact Efresh|]. split; [exact Euser|]. reflexivity.
Qed.

(** *** Creating a conversation *)

(** X1. Whatever the environment does, a conversation that
    [createConversation] returns is never [undefined]: it is the row
    just stored at the end of the conversations table, under an id that
    was not in use, with [started_at] equal to [last_message_at], active,
    and owned by the user given (or by none); none of the six other
    tables (users, messages, feedback, community resources, community
    statistics, events) changed. *)
Theorem createConversation_returns_stored_row
        (e : Env) (w w' : World) (userId : option string)
        (r : option Conversation) :
  createConversation userId e w = (inr r, w') ->
  exists c d d',
    r = Some c /\ db w = Some d /\ db w' = Some d' /\
    conversations d' = (conversations d ++ [c])%list /\
    messages d' = messages d /\ feedback d' = feedback d /\
    has_conversation d (conv_id c) = false /\
    conv_started_at c = conv_last_message_at c /\
    conv_is_active c = true /\
    conv_user_id c = or_null userId /\
    users d' = users d /\
    community_resources d' = community_resources d /\
    community_stats d' = community_stats d /\
    events d' = events d.
Proof.
  intros H. apply createConversation_inr_inv in H.
  destruct H as [d [Hdb [Hfresh [_ [-> ->]]]]].
  eexists. exists d. eexists.
  split; [reflexivity|]. split; [exact Hdb|]. split; [reflexivity|].
  cbn. repeat split. exact Hfresh.
Qed.

Lemma createConversation_returns_stored_row_witness :
  exists c d',
    fst (createConversation None (Samples.env_with Samples.provider_down)
                            Samples.world_one_message) = inr (Some c) /\
    db (snd (createConversation None (Samples.env_with Samples.provider_down)
                                Samples.world_one_message)) = Some d' /\
    List.length (conversations d') = 2%nat /\
    conv_started_at c = conv_last_message_at c.
Proof.
  set (e := Samples.env_with Samples.provider_down).
  destruct (createConversation None e Samples.world_one_message) as [r w'] eqn:E.
  assert (Hok : exists c, r = inr (Some c)).
  { vm_compute in E. injection E as <- _. eexists. reflexivity. }
  destruct Hok as [c0 ->].
  destruct (createConversation_returns_stored_row e _ _ None _ E)
    as [c [d [d' [Hr [Hdb [Hdb' [Hconv [_ [_ [_ [Htime _]]]]]]]]]]].
  injection Hr as ->.
  exists c, d'. cbn [fst snd]. split; [reflexivity|]. split; [exact Hdb'|].
  split; [|exact Htime].
  rewrite Hconv, length_app. cbn in Hdb. injection Hdb as <-. reflexivity.
Defined.

(** *** Appending a message *)

(** X2. Whatever the environment does, a message that [addMessage]
    returns is the row just stored at the end of the messages table,
    under a new id, unrated, with the role, content and metadata given,
    in a conversation that exists; the conversations keep their ids and
    every conversation other than the parent is untouched, while the
    parent's [last_message_at] is the clock of the statement after the
    insert. *)
Theorem addMessage_returns_stored_row
        (e : Env) (w w' : World) (cid : string) (role : Role) (content : string)
        (metadata : JsonObject) (r : option Message) :
  addMessage cid role content metadata e w = (inr r, w') ->
  exists m d d',
    r = Some m /\ db w = Some d /\ db w' = Some d' /\
    messages d' = (messages d ++ [m])%list /\
    has_message d (msg_id m) = false /\
    has_conversation d cid = true /\
    msg_conversation_id m = cid /\ msg_role m = role /\
    msg_content m = content /\ msg_metadata m = metadata /\
    msg_rating m = None /\ msg_timestamp m = now e (stmts w) /\
    conversations d' = map (touch cid (now e (S (stmts w)))) (conversations d) /\
    (forall c, In c (conversations d') -> conv_id c = cid ->
               conv_last_message_at c = now e (S (stmts w))) /\
    feedback d' = feedback d.
Proof.
  intros H. apply addMessage_inr_inv in H.
  destruct H as [d [Hdb [Hfresh [Hconv [-> ->]]]]].
  eexists. exists d. eexists.
  split; [reflexivity|]. split; [exact Hdb|]. split; [reflexivity|].
  cbn [messages conversations feedback set_conversations set_messages
       msg_id msg_conversation_id msg_role msg_content msg_metadata
       msg_rating msg_timestamp].
  repeat split; try assumption.
  intros c Hin Hid. apply in_map_iff in Hin. destruct Hin as [c0 [<- _]].
  unfold touch in *. destruct (conv_id c0 =? cid)%string eqn:E; [reflexivity|].
  apply String.eqb_neq in E. contradiction.
Qed.

Lemma addMessage_returns_stored_row_witness :
  exists m d',
    fst (addMessage "c1" user "Thanks" [] (Samples.env_with Samples.provider_down)
                    Samples.world_one_message) = inr (Some m) /\
    db (snd (addMessage "c1" user "Thanks" [] (Samples.env_with Samples.provider_down)
                        Samples.world_one_message)) = Some d' /\
    messages d' = (messages Samples.db_one_message ++ [m])%list /\
    msg_content m = "Thanks".
Proof.
  set (e := Samples.env_with Samples.provider_down).
  destruct (addMessage "c1" user "Thanks" [] e Samples.world_one_message)
    as [r w'] eqn:E.
  assert (Hok : exists m, r = inr (Some m)).
  { vm_compute in E. injection E as <- _. eexists. reflexivity. }
  destruct Hok as [m0 ->].
  destruct (addMessage_returns_stored_row e _ _ _ _ _ _ _ E)
    as [m [d [d' [Hr [Hdb [Hdb' [Hms [_ [_ [_ [_ [Hcontent _]]]]]]]]]]]].
  injection Hr as ->.
  exists m, d'. cbn [fst snd]. split; [reflexivity|]. split; [exact Hdb'|].
  split; [|exact Hcontent].
  cbn in Hdb. injection Hdb as <-. exact Hms.
Defined.

(** X3. A failing [addMessage] on an initialised store leaves the
    messages table as it was or with the new message at its end; it is
    the former whenever the driver raises no fault, so a constraint
    failure stores nothing, while a fault after the insert leaves the
    message stored although the call threw. *)
Theorem addMessage_failure_stores_at_most_the_message
        (e : Env) (w w' : World) (d : Database) (cid : string) (role : Role)
        (content : string) (metadata : JsonObject) (x : Exn) :
  db w = Some d ->
  addMessage cid role content metadata e w = (inl x, w') ->
  exists d',
    db w' = Some d' /\
    (messages d' = messages d \/
     messages d' = (messages d ++
                    [mkMessage (generated_id e (ids w)) cid role content
                               (now e (stmts w)) None metadata])%list) /\
    (no_fault e -> d' = d).
Proof.
  intros Hdb H. unfold addMessage in H.
  unfold bind at 1 in H. rewrite (StoreProps.getDB_run e w d Hdb) in H.
  unfold bind at 1 in H. cbn [generateId] in H.
  unfold bind at 1 in H.
  destruct (statement (insert_message _ cid role content metadata) e (tick_ids w))
    as [[y|[]] w1] eqn:Eins.
  - injection H as _ <-. apply StoreProps.statement_throw in Eins. subst w1.
    exists d. split; [exact Hdb|]. split; [now left | reflexivity].
  - apply StoreProps.statement_ok in Eins.
    destruct Eins as [d0 [d1 [Hd0 [Hsql ->]]]].
    change (db (tick_ids w)) with (db w) in Hd0.
    assert (d0 = d) by congruence. subst d0.
    unfold insert_message in Hsql.
    destruct (existsb _ (messages d)); [discriminate|].
    destruct (negb _); [discriminate|].
    injection Hsql as <-.
    unfold bind at 1 in H.
    match type of H with
    | context [statement (update_last_message_at cid) e ?w1] =>
        destruct (statement (update_last_message_at cid) e w1)
          as [[y|[]] w2] eqn:Eupd
    end.
    + injection H as _ <-.
      pose proof Eupd as Hthrow. apply StoreProps.statement_throw in Hthrow.
      subst w2. eexists. split; [reflexivity|]. split; [right; reflexivity|].
      intros Hnf. exfalso.
      erewrite StoreProps.statement_run in Eupd; [|reflexivity|apply Hnf].
      discriminate.
    + apply StoreProps.statement_ok in Eupd.
      destruct Eupd as [d2 [d3 [Hd2 [Hsql2 ->]]]].
      cbn in Hd2. injection Hd2 as <-.
      unfold update_last_message_at in Hsql2. injection Hsql2 as <-.
      unfold bind at 1 in H.
      match type of H with
      | context [statement (select_message ?id) e ?w2] =>
          destruct (statement (select_message id) e w2) as [[y|m] w3] eqn:Esel
      end; [|discriminate].
      injection H as _ <-.
      pose proof Esel as Hthrow. apply StoreProps.statement_throw in Hthrow.
      subst w3. eexists. split; [reflexivity|]. split; [right; reflexivity|].
      intros Hnf. exfalso.
      erewrite StoreProps.statement_run in Esel; [|reflexivity|apply Hnf].
      discriminate.
Qed.

(** The driver rejects the update that follows the insert: the call
    throws, the message is stored. *)
Lemma addMessage_failure_stores_at_most_the_message_witness :
  exists x w' d',
    addMessage "c1" user "Thanks" []
               (Samples.env_with_fault_at 1 Samples.provider_down)
               Samples.world_one_message = (inl x, w') /\
    db w' = Some d' /\
    List.length (messages d') = 2%nat.
Proof.
  set (e := Samples.env_with_fault_at 1 Samples.provider_down).
  destruct (addMessage "c1" user "Thanks" [] e Samples.world_one_message)
    as [r w'] eqn:E.
  assert (Hfail : r = inl SQLITE_ERROR /\
                  option_map (fun d' => List.length (messages d')) (db w') = Some 2%nat).
  { vm_compute in E. injection E as <- <-. split; reflexivity. }
  destruct Hfail as [-> Hlen].
  destruct (addMessage_failure_stores_at_most_the_message
              e Samples.world_one_message w' Samples.db_one_message
              _ _ _ _ _ eq_refl E)
    as [d' [Hdb' _]].
  exists SQLITE_ERROR, w', d'. split; [reflexivity|]. split; [exact Hdb'|].
  rewrite Hdb' in Hlen. cbn in Hlen. now injection Hlen.
Defined.

(** *** Reading a conversation *)

Lemma getConversationMessages_inr_inv e w cid ms w' :
  getConversationMessages cid e w = (inr ms, w') ->
  exists d,
    db w = Some d /\ db w' = Some d /\
    ms = order_by (fun a b => (msg_timestamp a <=? msg_timestamp b)%N)
                  (filter (fun m => (msg_conversation_id m =? cid)%string) (messages d)).
Proof.
  unfold getConversationMessages. intros H.
  apply bind_inr_inv in H. destruct H as [d [w0 [Hget H]]].
  apply getDB_inr_inv in Hget. destruct Hget as [Hdb ->].
  apply StoreProps.statement_ok in H.
  destruct H as [d0 [d1 [Hd0 [Hsql ->]]]].
  assert (d0 = d) by congruence. subst d0.
  unfold select_conversation_messages in Hsql. injection Hsql as <- <-.
  exists d. auto.
Qed.

Lemma ordered_messages_in (cid : string) (ms : list Message) (m : Message) :
  In m (order_by (fun a b => (msg_timestamp a <=? msg_timestamp b)%N)
                 (filter (fun m => (msg_conversation_id m =? cid)%string) ms)) <->
  In m ms /\ msg_conversation_id m = cid.
Proof.
  split.
  - intros H. eapply Permutation_in in H; [|apply StoreProps.order_by_perm].
    apply filter_In in H. destruct H as [Hin Hid].
    split; [exact Hin | now apply String.eqb_eq].
  - intros [Hin Hid].
    eapply Permutation_in; [symmetry; apply StoreProps.order_by_perm|].
    apply filter_In. split; [exact Hin | now apply String.eqb_eq].
Qed.

(** X4. On an initialised store, unless the driver rejects the
    statement, [getConversationMessages] returns without changing the
    database: exactly the stored messages of that conversation, each
    once, ascending by timestamp; for an id that names no conversation
    the result is the empty list, not an error. *)
Theorem getConversationMessages_reads_conversation
        (e : Env) (w : World) (d : Database) (cid : string) :
  db w = Some d ->
  sql_fault e (stmts w) = false ->
  exists ms w',
    getConversationMessages cid e w = (inr ms, w') /\
    db w' = Some d /\
    Permutation ms (filter (fun m => (msg_conversation_id m =? cid)%string)
                           (messages d)) /\
    (forall m, In m ms <-> In m (messages d) /\ msg_conversation_id m = cid) /\
    StronglySorted (fun a b => (msg_timestamp a <= msg_timestamp b)%N) ms /\
    (messages_reference_conversations d -> has_conversation d cid = false ->
     ms = []).
Proof.
  intros Hdb Hnf. unfold getConversationMessages, bind.
  rewrite (StoreProps.getDB_run e w d Hdb).
  rewrite (StoreProps.statement_run _ e w d Hdb Hnf).
  unfold select_conversation_messages.
  eexists. eexists. split; [reflexivity|]. split; [reflexivity|].
  split; [apply StoreProps.order_by_perm|].
  split; [intros m; apply ordered_messages_in|].
  split.
  - eapply StoreProps.StronglySorted_weaken; [|apply StoreProps.order_by_sorted].
    + intros a b Hab. now apply N.leb_le.
    + intros a b. rewrite !N.leb_le. lia.
    + intros a b c. rewrite !N.leb_le. lia.
  - intros Hfk Hnone.
    now rewrite (StoreProps.no_message_of_new_conversation d cid Hfk Hnone).
Qed.

Lemma getConversationMessages_reads_conversation_witness :
  exists w',
    getConversationMessages "nobody" (Samples.env_with Samples.provider_down)
                            Samples.world_one_message = (inr [], w') /\
    db w' = Some Samples.db_one_message.
Proof.
  set (e := Samples.env_with Samples.provider_down).
  assert (Hfk : messages_reference_conversations Samples.db_one_message).
  { intros m [<- | []]. reflexivity. }
  destruct (getConversationMessages_reads_conversation
              e Samples.world_one_message Samples.db_one_message "nobody"
              eq_refl eq_refl)
    as [ms [w' [Hrun [Hdb [_ [_ [_ Hempty]]]]]]].
  rewrite (Hempty Hfk eq_refl) in Hrun.
  exists w'. split; [exact Hrun | exact Hdb].
Defined.

(** *** Feedback that succeeds *)

Lemma rate_sets_rating (mid : string) (rating : Z) (ms : list Message) (m : Message) :
  In m (map (rate mid rating) ms) -> msg_id m = mid -> msg_rating m = Some rating.
Proof.
  intros Hin Hid. apply in_map_iff in Hin. destruct Hin as [m0 [<- _]].
  unfold rate in *. destruct (msg_id m0 =? mid)%string eqn:E; [reflexivity|].
  apply String.eqb_neq in E. contradiction.
Qed.

(** X5. Whatever the environment does, when [addFeedback] returns, the
    rating was between 1 and 5 and the message existed; the feedback row
    is stored at the end of the feedback table; every message with that
    id now carries the rating and every other message is as before; and
    any later successful read of a conversation shows the rating. *)
Theorem addFeedback_success_is_reflected_in_reads
        (e : Env) (w w' : World) (mid : string) (rating : Z)
        (text uid : option string) (r : unit) :
  addFeedback mid rating text uid e w = (inr r, w') ->
  exists d d',
    db w = Some d /\ db w' = Some d' /\
    (1 <= rating <= 5)%Z /\
    has_message d mid = true /\
    feedback d' = (feedback d ++
                   [mkFeedback (generated_id e (ids w)) mid rating (or_null text)
                               (now e (stmts w)) (or_null uid)])%list /\
    messages d' = map (rate mid rating) (messages d) /\
    conversations d' = conversations d /\
    (forall m, In m (messages d') -> msg_id m = mid -> msg_rating m = Some rating) /\
    (forall m, In m (messages d) -> msg_id m <> mid -> In m (messages d')) /\
    (forall cid ms w'',
        getConversationMessages cid e w' = (inr ms, w'') ->
        forall m, In m ms -> msg_id m = mid -> msg_rating m = Some rating).
Proof.
  intros H. apply addFeedback_inr_inv in H.
  destruct H as [d [Hdb [Hrange [Hmsg [_ [_ ->]]]]]].
  exists d. eexists. split; [exact Hdb|]. split; [reflexivity|].
  cbn [messages feedback conversations set_messages set_feedback].
  split; [unfold rating_in_range in Hrange; lia|].
  split; [exact Hmsg|]. split; [reflexivity|]. split; [reflexivity|].
  split; [reflexivity|]. split; [apply rate_sets_rating|]. split.
  - intros m Hin Hne. apply in_map_iff. exists m. split; [|exact Hin].
    unfold rate. apply String.eqb_neq in Hne. now rewrite Hne.
  - intros cid ms w'' Hread m Hin Hid.
    apply getConversationMessages_inr_inv in Hread.
    destruct Hread as [d1 [Hd1 [_ ->]]].
    cbn in Hd1. injection Hd1 as <-.
    apply ordered_messages_in in Hin. destruct Hin as [Hin _].
    cbn [messages set_messages] in Hin.
    exact (rate_sets_rating mid rating _ m Hin Hid).
Qed.

Lemma addFeedback_success_is_reflected_in_reads_witness :
  let e := Samples.env_with Samples.provider_down in
  let w' := snd (addFeedback "m1" 3%Z None None e Samples.world_one_message) in
  exists ms w'',
    getConversationMessages "c1" e w' = (inr ms, w'') /\
    map msg_rating ms = [Some 3%Z].
Proof.
  intros e w'.
  assert (Hrun : addFeedback "m1" 3%Z None None e Samples.world_one_message
                 = (inr tt, w')) by (vm_compute; reflexivity).
  destruct (addFeedback_success_is_reflected_in_reads e _ _ _ _ _ _ _ Hrun)
    as [d [d' [_ [_ [_ [_ [_ [_ [_ [_ [_ Hread]]]]]]]]]]].
  destruct (getConversationMessages "c1" e w') as [[x|ms] w''] eqn:E;
    [vm_compute in E; discriminate|].
  exists ms, w''. split; [reflexivity|].
  specialize (Hread "c1" ms w'' E).
  assert (Hms : map msg_id ms = ["m1"]).
  { vm_compute in E. injection E as <- _. reflexivity. }
  destruct ms as [|m [|m2 ms]]; try discriminate.
  cbn in Hms. injection Hms as Hid.
  cbn. now rewrite (Hread m (or_introl eq_refl) Hid).
Defined.

(** *** Invariants of the tables *)

(** An invariant kept by the five writing statements is kept by every
    operation of the service, whatever the environment does. *)
Lemma run_keeps (I : Database -> Prop) :
  (forall id uid t d a d', I d -> insert_conversation id uid t d = inr (a, d') -> I d') ->
  (forall id cid role content metadata t d a d',
      I d -> insert_message id cid role content metadata t d = inr (a, d') -> I d') ->
  (forall cid t d a d', I d -> update_last_message_at cid t d = inr (a, d') -> I d') ->
  (forall id mid rating text uid t d a d',
      I d -> insert_feedback id mid rating text uid t d = inr (a, d') -> I d') ->
  (forall rating mid t d a d',
      I d -> update_message_rating rating mid t d = inr (a, d') -> I d') ->
  forall op, keeps I (run op).
Proof.
  intros Hic Him Hul Hif Hur op.
  destruct op; cbn [run];
    unfold getCommunityStats, createConversation, addMessage,
           getConversationMessages, searchCommunityResources,
           getUpcomingEvents, addFeedback, healthCheck;
    repeat StoreProps.keeps_step.
  - unfold select_community_stats. StoreProps.keeps_same.
  - apply StoreProps.keeps_statement. intros; eapply Hic; eauto.
  - unfold select_conversation. StoreProps.keeps_same.
  - apply StoreProps.keeps_statement. intros; eapply Him; eauto.
  - apply StoreProps.keeps_statement. intros; eapply Hul; eauto.
  - unfold select_message. StoreProps.keeps_same.
  - unfold select_conversation_messages. StoreProps.keeps_same.
  - unfold select_community_resources. StoreProps.keeps_same.
  - unfold select_upcoming_events. StoreProps.keeps_same.
  - apply StoreProps.keeps_statement. intros; eapply Hif; eauto.
  - apply StoreProps.keeps_statement. intros; eapply Hur; eauto.
  - unfold count_community_stats. StoreProps.keeps_same.
Qed.

Lemma run_all_keeps (I : Database -> Prop) :
  (forall op, keeps I (run op)) ->
  forall (e : Env) (ops : list Op) (w : World) (d : Database),
    db w = Some d -> I d ->
    exists d', db (run_all ops e w) = Some d' /\ I d'.
Proof.
  intros Hrun e ops. induction ops as [|op ops IH]; intros w d Hdb HI; cbn [run_all].
  - eauto.
  - destruct (Hrun op e w d Hdb HI) as [d1 [Hdb1 HI1]]. eapply IH; eauto.
Qed.

Lemma existsb_eqb_In {A} (f : A -> string) (id : string) (l : list A) :
  existsb (fun x => (f x =? id)%string) l = false -> ~ In id (map f l).
Proof.
  intros H Hin. apply in_map_iff in Hin. destruct Hin as [x [Hx Hin]].
  assert (existsb (fun x => (f x =? id)%string) l = true).
  { apply existsb_exists. exists x. split; [exact Hin | now apply String.eqb_eq]. }
  congruence.
Qed.

Lemma NoDup_map_snoc {A} (f : A -> string) (l : list A) (y : A) :
  NoDup (map f l) ->
  existsb (fun x => (f x =? f y)%string) l = false ->
  NoDup (map f (l ++ [y])).
Proof.
  intros Hnd Hfresh. rewrite map_app. cbn.
  apply (Permutation_NoDup (l := f y :: map f l)).
  - change (f y :: map f l) with ([f y] ++ map f l)%list. apply Permutation_app_comm.
  - constructor; [now apply existsb_eqb_In | exact Hnd].
Qed.

Lemma map_conv_id_touch cid t cs :
  map conv_id (map (touch cid t) cs) = map conv_id cs.
Proof.
  rewrite map_map. apply map_ext. intros c. unfold touch.
  destruct (conv_id c =? cid)%string; reflexivity.
Qed.

Lemma map_msg_id_rate mid rating ms :
  map msg_id (map (rate mid rating) ms) = map msg_id ms.
Proof.
  rewrite map_map. apply map_ext. intros m. unfold rate.
  destruct (msg_id m =? mid)%string; reflexivity.
Qed.

Lemma run_keeps_unique_ids (op : Op) : keeps unique_ids (run op).
Proof.
  apply run_keeps; unfold unique_ids.
  - intros id uid t d a d' [Hc [Hm Hf]] E. unfold insert_conversation in E.
    destruct (existsb _ (conversations d)) eqn:Efresh; [discriminate|].
    destruct (negb _); [discriminate|]. injection E as _ <-.
    cbn [conversations messages feedback set_conversations].
    split; [|auto]. now apply NoDup_map_snoc.
  - intros id cid role content metadata t d a d' [Hc [Hm Hf]] E.
    unfold insert_message in E.
    destruct (existsb _ (messages d)) eqn:Efresh; [discriminate|].
    destruct (negb _); [discriminate|]. injection E as _ <-.
    cbn [conversations messages feedback set_messages].
    split; [exact Hc|]. split; [|exact Hf]. now apply NoDup_map_snoc.
  - intros cid t d a d' [Hc [Hm Hf]] E. unfold update_last_message_at in E.
    injection E as _ <-. cbn [conversations messages feedback set_conversations].
    split; [|auto]. change (NoDup (map conv_id (map (touch cid t) (conversations d)))).
    now rewrite map_conv_id_touch.
  - intros id mid rating text uid t d a d' [Hc [Hm Hf]] E. unfold insert_feedback in E.
    destruct (negb (rating_in_range rating)); [discriminate|].
    destruct (existsb _ (feedback d)) eqn:Efresh; [discriminate|].
    destruct (_ || _); [discriminate|]. injection E as _ <-.
    cbn [conversations messages feedback set_feedback].
    split; [exact Hc|]. split; [exact Hm|]. now apply NoDup_map_snoc.
  - intros rating mid t d a d' [Hc [Hm Hf]] E. unfold update_message_rating in E.
    destruct (_ && _); [discriminate|]. injection E as _ <-.
    cbn [conversations messages feedback set_messages].
    split; [exact Hc|]. split; [|exact Hf].
    change (NoDup (map msg_id (map (rate mid rating) (messages d)))).
    now rewrite map_msg_id_rate.
Qed.

(** X6. Primary keys stay unique: over any sequence of operations and
    whatever the environment does (colliding generated ids included), an
    initialised store whose conversation, message and feedback ids are
    pairwise distinct stays initialised and keeps them distinct. *)
Theorem ids_stay_unique
        (e : Env) (ops : list Op) (w : World) (d : Database) :
  db w = Some d -> unique_ids d ->
  exists d', db (run_all ops e w) = Some d' /\ unique_ids d'.
Proof. apply run_all_keeps. exact run_keeps_unique_ids. Qed.

(** Every generated id is the same: the second message is refused. *)
Lemma ids_stay_unique_witness :
  let e := mkEnv (fun _ => 0%N) (fun _ => "same") (fun k => N.of_nat k)
                 (fun _ => false) Samples.provider_down in
  exists d',
    db (run_all [AddMessage "c1" user "one" []; AddMessage "c1" user "two" []]
                e Samples.world_one_message) = Some d' /\
    map msg_id (messages d') = ["m1"; "same"].
Proof.
  intros e.
  assert (Hu : unique_ids Samples.db_one_message).
  { repeat split; repeat constructor; cbn; tauto. }
  destruct (ids_stay_unique e
              [AddMessage "c1" user "one" []; AddMessage "c1" user "two" []]
              Samples.world_one_message Samples.db_one_message eq_refl Hu)
    as [d' [Hdb' _]].
  exists d'. split; [exact Hdb'|].
  vm_compute in Hdb'. injection Hdb' as <-. reflexivity.
Defined.

Lemma run_keeps_ratings_valid (op : Op) : keeps ratings_valid (run op).
Proof.
  apply run_keeps; unfold ratings_valid.
  - intros id uid t d a d' H E. unfold insert_conversation in E.
    destruct (existsb _ (conversations d)); [discriminate|].
    destruct (negb _); [discriminate|]. injection E as _ <-. exact H.
  - intros id cid role content metadata t d a d' [Hm Hf] E.
    unfold insert_message in E.
    destruct (existsb _ (messages d)); [discriminate|].
    destruct (negb _); [discriminate|]. injection E as _ <-.
    cbn [messages feedback set_messages]. split; [|exact Hf].
    intros m r Hin Hr. apply in_app_or in Hin.
    destruct Hin as [Hin | [<- | []]]; [eauto | discriminate].
  - intros cid t d a d' H E. unfold update_last_message_at in E.
    injection E as _ <-. exact H.
  - intros id mid rating text uid t d a d' [Hm Hf] E. unfold insert_feedback in E.
    destruct (rating_in_range rating) eqn:Erange; [|discriminate].
    cbn [negb] in E.
    destruct (existsb _ (feedback d)); [discriminate|].
    destruct (_ || _); [discriminate|]. injection E as _ <-.
    cbn [messages feedback set_feedback]. split; [exact Hm|].
    intros f Hin. apply in_app_or in Hin.
    destruct Hin as [Hin | [<- | []]]; [auto|].
    cbn. unfold rating_in_range in Erange. lia.
  - intros rating mid t d a d' [Hm Hf] E. unfold update_message_rating in E.
    destruct (existsb _ (messages d)) eqn:Eex; cbn [andb] in E.
    + destruct (rating_in_range rating) eqn:Erange; [|discriminate].
      cbn [negb] in E. injection E as _ <-.
      cbn [messages feedback set_messages]. split; [|exact Hf].
      intros m r Hin Hr. apply in_map_iff in Hin. destruct Hin as [m0 [<- Hin0]].
      destruct (msg_id m0 =? mid)%string.
      * cbn in Hr. injection Hr as <-. unfold rating_in_range in Erange. lia.
      * eauto.
    + injection E as _ <-.
      cbn [messages feedback set_messages]. split; [|exact Hf].
      intros m r Hin Hr. apply in_map_iff in Hin. destruct Hin as [m0 [<- Hin0]].
      destruct (msg_id m0 =? mid)%string eqn:Eid; [|eauto].
      exfalso.
      assert (existsb (fun m => (msg_id m =? mid)%string) (messages d) = true)
        by (apply existsb_exists; eauto).
      congruence.
Qed.

(** X7. Ratings stay within 1..5: over any sequence of operations and
    whatever the environment does, if every stored message rating and
    every feedback rating lies between 1 and 5, it still does afterwards
    (a rating outside the range is refused by the feedback insert before
    any message is touched). *)
Theorem ratings_stay_valid
        (e : Env) (ops : list Op) (w : World) (d : Database) :
  db w = Some d -> ratings_valid d ->
  exists d', db (run_all ops e w) = Some d' /\ ratings_valid d'.
Proof. apply run_all_keeps. exact run_keeps_ratings_valid. Qed.

Lemma ratings_stay_valid_witness :
  let e := Samples.env_with Samples.provider_down in
  exists d',
    db (run_all [AddFeedback "m1" 6%Z None None; AddFeedback "m1" 5%Z None None;
                 AddFeedback "m1" 0%Z None None]
                e Samples.world_one_message) = Some d' /\
    map msg_rating (messages d') = [Some 5%Z].
Proof.
  intros e.
  assert (Hv : ratings_valid Samples.db_one_message).
  { split.
    - intros m r [<- | []]. discriminate.
    - intros f []. }
  destruct (ratings_stay_valid e
              [AddFeedback "m1" 6%Z None None; AddFeedback "m1" 5%Z None None;
               AddFeedback "m1" 0%Z None None]
              Samples.world_one_message Samples.db_one_message eq_refl Hv)
    as [d' [Hdb' _]].
  exists d'. split; [exact Hdb'|].
  vm_compute in Hdb'. injection Hdb' as <-. reflexivity.
Defined.

Lemma has_message_rate (mid id : string) (rating : Z) (ms : list Message) :
  existsb (fun m => (msg_id m =? id)%string) (map (rate mid rating) ms)
  = existsb (fun m => (msg_id m =? id)%string) ms.
Proof.
  induction ms as [|m ms IH]; cbn; [reflexivity|]. rewrite IH. unfold rate.
  destruct (msg_id m =? mid)%string; reflexivity.
Qed.

Lemma run_keeps_references_hold (op : Op) : keeps references_hold (run op).
Proof.
  apply run_keeps; unfold references_hold.
  - intros id uid t d a d' [Hmc [Hfm [Hcu Hfu]]] E.
    split; [eapply StoreProps.references_insert_conversation; eauto|].
    unfold insert_conversation in E.
    destruct (existsb _ (conversations d)); [discriminate|].
    destruct (references_user d uid) eqn:Euser; [|discriminate].
    cbn [negb] in E. injection E as _ <-.
    split; [exact Hfm|]. split; [|exact Hfu].
    cbn [conversations set_conversations]. intros c Hin.
    apply in_app_or in Hin. destruct Hin as [Hin | [<- | []]]; [now apply Hcu|].
    exact Euser.
  - intros id cid role content metadata t d a d' [Hmc [Hfm [Hcu Hfu]]] E.
    split; [eapply StoreProps.references_insert_message; eauto|].
    unfold insert_message in E.
    destruct (existsb _ (messages d)); [discriminate|].
    destruct (negb _); [discriminate|]. injection E as _ <-.
    split; [|split; [exact Hcu | exact Hfu]].
    intros f Hin. unfold has_message. cbn [messages feedback set_messages] in *.
    rewrite existsb_app. apply orb_true_iff. left. now apply Hfm.
  - intros cid t d a d' [Hmc [Hfm [Hcu Hfu]]] E.
    split; [eapply StoreProps.references_update_last_message_at; eauto|].
    unfold update_last_message_at in E. injection E as _ <-.
    split; [exact Hfm|]. split; [|exact Hfu].
    cbn [conversations set_conversations]. intros c Hin.
    apply in_map_iff in Hin. destruct Hin as [c0 [<- Hin0]].
    specialize (Hcu c0 Hin0).
    destruct (conv_id c0 =? cid)%string; exact Hcu.
  - intros id mid rating text uid t d a d' [Hmc [Hfm [Hcu Hfu]]] E.
    unfold insert_feedback in E.
    destruct (negb (rating_in_range rating)); [discriminate|].
    destruct (existsb _ (feedback d)); [discriminate|].
    destruct (existsb _ (messages d)) eqn:Emsg; [|discriminate].
    destruct (references_user d uid) eqn:Euser; [|discriminate].
    cbn [negb orb] in E. injection E as _ <-.
    split; [exact Hmc|]. cbn [feedback set_feedback].
    split; [|split; [exact Hcu|]].
    + intros f Hin. apply in_app_or in Hin.
      destruct Hin as [Hin | [<- | []]]; [now apply Hfm | exact Emsg].
    + intros f Hin. apply in_app_or in Hin.
      destruct Hin as [Hin | [<- | []]]; [now apply Hfu | exact Euser].
  - intros rating mid t d a d' [Hmc [Hfm [Hcu Hfu]]] E.
    split; [eapply StoreProps.references_update_message_rating; eauto|].
    unfold update_message_rating in E.
    destruct (_ && _); [discriminate|]. injection E as _ <-.
    split; [|split; [exact Hcu | exact Hfu]].
    intros f Hin. unfold has_message. cbn [messages feedback set_messages] in *.
    change (existsb (fun m => (msg_id m =? fb_message_id f)%string)
                    (map (rate mid rating) (messages d)) = true).
    rewrite has_message_rate. now apply Hfm.
Qed.

(** X8. The foreign keys stay satisfied: over any sequence of operations
    and whatever the environment does, if every message belongs to a
    stored conversation, every feedback to a stored message, and every
    user reference to a stored user, the same holds afterwards. *)
Theorem references_stay_satisfied
        (e : Env) (ops : list Op) (w : World) (d : Database) :
  db w = Some d -> references_hold d ->
  exists d', db (run_all ops e w) = Some d' /\ references_hold d'.
Proof. apply run_all_keeps. exact run_keeps_references_hold. Qed.

Lemma references_stay_satisfied_witness :
  let e := Samples.env_with Samples.provider_down in
  exists d',
    db (run_all [AddMessage "c9" user "lost" []; AddFeedback "m9" 4%Z None None;
                 CreateConversation (Some "u9"); AddFeedback "m1" 4%Z None None]
                e Samples.world_one_message) = Some d' /\
    List.length (conversations d') = 1%nat /\
    List.length (messages d') = 1%nat /\
    map fb_message_id (feedback d') = ["m1"].
Proof.
  intros e.
  assert (Hr : references_hold Samples.db_one_message).
  { split; [intros m [<- | []]; reflexivity|].
    split; [intros f []|].
    split; [intros c [<- | []]; reflexivity | intros f []]. }
  destruct (references_stay_satisfied e
              [AddMessage "c9" user "lost" []; AddFeedback "m9" 4%Z None None;
               CreateConversation (Some "u9"); AddFeedback "m1" 4%Z None None]
              Samples.world_one_message Samples.db_one_message eq_refl Hr)
    as [d' [Hdb' _]].
  exists d'. split; [exact Hdb'|].
  vm_compute in Hdb'. injection Hdb' as <-. repeat split.
Defined.

End StoreMore.

(** ** Further properties: LIKE, ORDER BY and the read operations *)

Module SqlMore.
Import SQLiteService StoreSpec MoreSpec.

(** *** LIKE *)









(** *** The order of strings *)

Lemma ascii_compare_N (a b : ascii) :
  Ascii.compare a b = N.compare (N_of_ascii a) (N_of_ascii b).
Proof. reflexivity. Qed.

Lemma ascii_compare_refl (a : ascii) : Ascii.compare a a = Eq.
Proof. rewrite ascii_compare_N. apply N.compare_refl. Qed.

Lemma string_compare_refl (s : string) : String.compare s s = Eq.
Proof.
  induction s as [|c s IH]; cbn; [reflexivity|]. now rewrite ascii_compare_refl.
Qed.

Lemma string_compare_lt_trans (a : string) :
  forall b c, String.compare a b = Lt -> String.compare b c = Lt ->
              String.compare a c = Lt.
Proof.
  induction a as [|x a IH]; intros [|y b] [|z c]; cbn; try discriminate; auto.
  rewrite !ascii_compare_N.
  destruct (N.compare_spec (N_of_ascii x) (N_of_ascii y)) as [Hxy|Hxy|Hxy];
    try discriminate;
    destruct (N.compare_spec (N_of_ascii y) (N_of_ascii z)) as [Hyz|Hyz|Hyz];
    try discriminate; intros H1 H2.
  - rewrite Hxy, Hyz, N.compare_refl. eauto.
  - assert (E : (N_of_ascii x ?= N_of_ascii z)%N = Lt)
      by (apply N.compare_lt_iff; lia).
    now rewrite E.
  - assert (E : (N_of_ascii x ?= N_of_ascii z)%N = Lt)
      by (apply N.compare_lt_iff; lia).
    now rewrite E.
  - assert (E : (N_of_ascii x ?= N_of_ascii z)%N = Lt)
      by (apply N.compare_lt_iff; lia).
    now rewrite E.
Qed.

Lemma string_leb_trans (a b c : string) :
  String.leb a b = true -> String.leb b c = true -> String.leb a c = true.
Proof.
  unfold String.leb.
  destruct (String.compare a b) eqn:Eab; try discriminate;
    destruct (String.compare b c) eqn:Ebc; try discriminate; intros _ _.
  - apply String.compare_eq_iff in Eab, Ebc. subst.
    now rewrite string_compare_refl.
  - apply String.compare_eq_iff in Eab. subst. now rewrite Ebc.
  - apply String.compare_eq_iff in Ebc. subst. now rewrite Eab.
  - now rewrite (string_compare_lt_trans a b c Eab Ebc).
Qed.

Lemma stats_leb_total (a b : CommunityStats) :
  stats_leb a b = true \/ stats_leb b a = true.
Proof.
  unfold stats_leb. rewrite (String.compare_antisym (stat_category b)).
  destruct (String.compare (stat_category a) (stat_category b)); cbn; auto.
  apply String.leb_total.
Qed.

Lemma stats_leb_trans (a b c : CommunityStats) :
  stats_leb a b = true -> stats_leb b c = true -> stats_leb a c = true.
Proof.
  unfold stats_leb.
  destruct (String.compare (stat_category a) (stat_category b)) eqn:Eab;
    try discriminate;
    destruct (String.compare (stat_category b) (stat_category c)) eqn:Ebc;
    try discriminate; intros H1 H2.
  - apply String.compare_eq_iff in Eab, Ebc. rewrite Eab, Ebc.
    rewrite string_compare_refl. eapply string_leb_trans; eauto.
  - apply String.compare_eq_iff in Eab. now rewrite Eab, Ebc.
  - apply String.compare_eq_iff in Ebc. now rewrite <- Ebc, Eab.
  - now rewrite (string_compare_lt_trans _ _ _ Eab Ebc).
Qed.

End SqlMore.

(** ** Further properties: the read operations of the service *)

Module ReadsMore.
Import SQLiteService StoreSpec MoreSpec.

Lemma read_run {A} (sql : Sql A) (e : Env) (w : World) (d : Database) (a : A) :
  db w = Some d ->
  sql_fault e (stmts w) = false ->
  sql (now e (stmts w)) d = inr (a, d) ->
  (getDB ;;; statement sql) e w = (inr a, set_db d (tick_stmts w)).
Proof.
  intros Hd Hf Hsql.
  rewrite (bind_ok _ _ _ _ _ _ (StoreProps.getDB_run e w d Hd)).
  rewrite (StoreProps.statement_run sql e w d Hd Hf), Hsql. reflexivity.
Qed.

(** X10. [getCommunityStats] on an initialised service whose statement
    the driver accepts returns every row of [community_stats] exactly
    once, ordered by category and then by name, and leaves the tables
    as they were. *)
Theorem getCommunityStats_all_rows_ordered
  (e : Env) (w : World) (d : Database) :
  db w = Some d ->
  sql_fault e (stmts w) = false ->
  exists rows w',
    getCommunityStats e w = (inr rows, w') /\
    db w' = Some d /\
    Permutation rows (community_stats d) /\
    StronglySorted (fun a b => stats_leb a b = true) rows.
Proof.
  intros Hd Hf.
  exists (order_by stats_leb (community_stats d)), (set_db d (tick_stmts w)).
  split; [|split; [reflexivity|split]].
  - unfold getCommunityStats. now apply read_run.
  - apply StoreProps.order_by_perm.
  - apply StoreProps.order_by_sorted.
    + apply SqlMore.stats_leb_total.
    + apply SqlMore.stats_leb_trans.
Qed.

Lemma getCommunityStats_all_rows_ordered_witness :
  exists rows w',
    getCommunityStats (Samples.env_with Samples.provider_down) Seed.seed_world
    = (inr rows, w') /\
    db w' = Some Seed.seed_db /\
    Permutation rows (community_stats Seed.seed_db) /\
    StronglySorted (fun a b => stats_leb a b = true) rows.
Proof.
  apply (getCommunityStats_all_rows_ordered
           (Samples.env_with Samples.provider_down) Seed.seed_world Seed.seed_db);
    reflexivity.
Defined.





Lemma firstn_skipn_sorted {A} (R : A -> A -> Prop) (n : nat) (l : list A) :
  StronglySorted R l -> StronglySorted R (firstn n l ++ skipn n l).
Proof. now rewrite firstn_skipn. Qed.

(** X12. [getUpcomingEvents] on an initialised service whose statement
    the driver accepts returns the earliest upcoming active events: the
    rows returned, followed by the ones left out, are the active events
    dated now or later in date order.  With a limit of zero or more
    that many rows are returned (all when there are fewer); a negative
    limit leaves none out.  The tables stay as they were. *)
Theorem getUpcomingEvents_earliest_first
  (e : Env) (w : World) (d : Database) (limit : Z) :
  db w = Some d ->
  sql_fault e (stmts w) = false ->
  exists rows rest w',
    getUpcomingEvents limit e w = (inr rows, w') /\
    db w' = Some d /\
    Permutation (rows ++ rest)
                (filter (upcoming (now e (stmts w))) (events d)) /\
    StronglySorted (fun a b => (ev_event_date a <= ev_event_date b)%N)
                   (rows ++ rest) /\
    ((0 <= limit)%Z ->
     List.length rows = Nat.min (Z.to_nat limit) (List.length (rows ++ rest))) /\
    ((limit < 0)%Z -> rest = []).
Proof.
  intros Hd Hf.
  set (t := now e (stmts w)).
  set (sorted := order_by (fun a b => (ev_event_date a <=? ev_event_date b)%N)
                          (filter (upcoming t) (events d))).
  assert (Hsorted : StronglySorted (fun a b => (ev_event_date a <= ev_event_date b)%N)
                                   sorted).
  { eapply StoreProps.StronglySorted_weaken;
      [|apply (StoreProps.order_by_sorted
                 (fun a b => (ev_event_date a <=? ev_event_date b)%N))].
    - intros a b H. now apply N.leb_le.
    - intros a b. rewrite !N.leb_le. lia.
    - intros a b c. rewrite !N.leb_le. lia. }
  assert (Hperm : Permutation sorted (filter (upcoming t) (events d)))
    by apply StoreProps.order_by_perm.
  destruct (limit <? 0)%Z eqn:El.
  - exists sorted, [], (set_db d (tick_stmts w)).
    split.
    { unfold getUpcomingEvents. apply read_run; auto.
      unfold select_upcoming_events. cbv zeta. now rewrite El. }
    rewrite app_nil_r.
    repeat split; auto. apply Z.ltb_lt in El. lia.
  - exists (firstn (Z.to_nat limit) sorted), (skipn (Z.to_nat limit) sorted),
      (set_db d (tick_stmts w)).
    split.
    { unfold getUpcomingEvents. apply read_run; auto.
      unfold select_upcoming_events. cbv zeta. now rewrite El. }
    rewrite firstn_skipn.
    repeat split; auto.
    + intros _. apply length_firstn.
    + apply Z.ltb_ge in El. lia.
Qed.

Lemma getUpcomingEvents_earliest_first_witness :
  exists rows rest w',
    getUpcomingEvents 2 (Samples.env_with Samples.provider_down) Seed.seed_world
    = (inr rows, w') /\
    db w' = Some Seed.seed_db /\
    Permutation (rows ++ rest)
                (filter (upcoming 0%N) (events Seed.seed_db)) /\
    StronglySorted (fun a b => (ev_event_date a <= ev_event_date b)%N)
                   (rows ++ rest) /\
    ((0 <= 2)%Z ->
     List.length rows = Nat.min (Z.to_nat 2) (List.length (rows ++ rest))) /\
    ((2 < 0)%Z -> rest = []).
Proof.
  apply (getUpcomingEvents_earliest_first
           (Samples.env_with Samples.provider_down) Seed.seed_world Seed.seed_db 2);
    reflexivity.
Defined.

(** X13. Before [initialize] has opened the database every operation of
    the service other than [healthCheck] throws [Database not
    initialized. Call initialize() first.] at once: no id is generated
    and no statement is sent. *)
Theorem service_requires_initialisation (e : Env) (w : World) :
  db w = None ->
  getCommunityStats e w = (inl not_initialized, w) /\
  (forall userId, createConversation userId e w = (inl not_initialized, w)) /\
  (forall cid role content metadata,
      addMessage cid role content metadata e w = (inl not_initialized, w)) /\
  (forall cid, getConversationMessages cid e w = (inl not_initialized, w)) /\
  (forall query category,
      searchCommunityResources query category e w = (inl not_initialized, w)) /\
  (forall limit, getUpcomingEvents limit e w = (inl not_initialized, w)) /\
  (forall mid rating text uid,
      addFeedback mid rating text uid e w = (inl not_initialized, w)).
Proof.
  intros Hd.
  pose proof (StoreProps.getDB_none e w Hd) as Hg.
  repeat split; intros;
    unfold getCommunityStats, createConversation, addMessage,
      getConversationMessages, searchCommunityResources, getUpcomingEvents,
      addFeedback;
    exact (bind_throw _ _ _ _ _ _ Hg).
Qed.

Lemma service_requires_initialisation_witness :
  getCommunityStats (Samples.env_with Samples.provider_down) Seed.closed_world
  = (inl not_initialized, Seed.closed_world).
Proof.
  exact (proj1 (service_requires_initialisation
                  (Samples.env_with Samples.provider_down) Seed.closed_world
                  eq_refl)).
Defined.

Lemma healthCheck_run (e : Env) (w : World) :
  healthCheck e w
  = (inr (reachable e w),
     match db w with
     | Some d => if sql_fault e (stmts w) then tick_stmts w
                 else set_db d (tick_stmts w)
     | None => w
     end).
Proof.
  unfold healthCheck, reachable.
  destruct (db w) as [d|] eqn:Hd.
  - pose proof (StoreProps.getDB_run e w d Hd) as Hg.
    destruct (sql_fault e (stmts w)) eqn:Hf.
    + assert (Hs : statement count_community_stats e w
                   = (inl SQLITE_ERROR, tick_stmts w))
        by (unfold statement; now rewrite Hd, Hf).
      erewrite try_catch_throw; [reflexivity|].
      rewrite (bind_ok _ _ _ _ _ _ Hg).
      now rewrite (bind_throw _ _ _ _ _ _ Hs).
    + assert (Hs : statement count_community_stats e w
                   = (inr (List.length (community_stats d)), set_db d (tick_stmts w)))
        by (rewrite (StoreProps.statement_run _ e w d Hd Hf); reflexivity).
      erewrite try_catch_ok; [reflexivity|].
      rewrite (bind_ok _ _ _ _ _ _ Hg).
      now rewrite (bind_ok _ _ _ _ _ _ Hs).
  - erewrite try_catch_throw; [reflexivity|].
    now rewrite (bind_throw _ _ _ _ _ _ (StoreProps.getDB_none e w Hd)).
Qed.

(** X14. [healthCheck] of the store never throws and changes no table;
    it answers true exactly when the database has been opened and the
    driver accepts the count statement. *)
Theorem store_healthCheck_reports_reachability (e : Env) (w : World) :
  exists w',
    healthCheck e w
    = (inr (match db w with
            | Some _ => negb (sql_fault e (stmts w))
            | None => false
            end), w') /\
    db w' = db w.
Proof.
  eexists. split; [apply healthCheck_run|].
  destruct (db w) as [d|] eqn:Hd; [|exact Hd].
  destruct (sql_fault e (stmts w)); [exact Hd | reflexivity].
Qed.

End ReadsMore.

(** ** Further properties: provider health and the routes *)

Module RoutesMore.
Import IvorPersona GroqService SQLiteService.
Import GroqSpec StoreSpec ChatSpec MoreSpec.

Lemma generateResponse_first_reply (prompt : string) (e : Env) (w : World) :
  exists w',
    generateResponse prompt e w
    = (match first_reply e w with
       | Some r => inr (trim r)
       | None => inl (Error ("GROQ API failed after 3 attempts: "
                             ++ failure_of (completion e (2 + calls w))))
       end, w') /\
    db w' = db w /\ stmts w' = stmts w /\ ids w' = ids w /\ draws w' = draws w /\
    (calls w < calls w' <= 3 + calls w)%nat.
Proof.
  unfold generateResponse, first_reply. change maxRetries with 3%nat at 1.
  rewrite GroqProps.attempts_step.
  destruct (reply_of (completion e (calls w))) as [r1|] eqn:E1.
  { eexists. split; [reflexivity|]. cbn. repeat split; lia. }
  change (1 <? maxRetries)%nat with true. cbv iota.
  rewrite GroqProps.attempts_step, GroqProps.after_effects_calls.
  destruct (reply_of (completion e (1 + calls w))) as [r2|] eqn:E2.
  { eexists. split; [reflexivity|]. cbn. repeat split; lia. }
  change (2 <? maxRetries)%nat with true. cbv iota.
  rewrite GroqProps.after_effects_compose.
  rewrite GroqProps.attempts_step, GroqProps.after_effects_calls.
  change (1 + 1 + calls w)%nat with (2 + calls w)%nat.
  destruct (reply_of (completion e (2 + calls w))) as [r3|] eqn:E3.
  { eexists. split; [reflexivity|]. cbn. repeat split; lia. }
  eexists. split; [reflexivity|]. cbn. repeat split; lia.
Qed.

(** X15. [healthCheck] of the provider never throws.  It makes one to
    three calls and answers true exactly when one of them yields a
    reply and the first such reply, trimmed and lower-cased, contains
    [ok]; the store is not touched. *)
Theorem groq_healthCheck_first_reply_contains_ok (e : Env) (w : World) :
  exists w',
    GroqService.healthCheck e w
    = (inr (match first_reply e w with
            | Some r => includes (toLowerCase (trim r)) "ok"
            | None => false
            end), w') /\
    db w' = db w /\ stmts w' = stmts w /\
    (calls w < calls w' <= 3 + calls w)%nat.
Proof.
  destruct (generateResponse_first_reply
              "Hello, this is a health check. Please respond with 'OK'." e w)
    as [w' [Hgen [Hdb [Hst [_ [_ Hcalls]]]]]].
  exists w'. split; [|auto].
  unfold GroqService.healthCheck.
  destruct (first_reply e w) as [r|].
  - erewrite try_catch_ok; [reflexivity|].
    now rewrite (bind_ok _ _ _ _ _ _ Hgen).
  - erewrite try_catch_throw; [reflexivity|].
    now rewrite (bind_throw _ _ _ _ _ _ Hgen).
Qed.


(** *** The chat routes *)

Lemma validate_message_none (m : option string) :
  (forall s, m = Some s -> isLength 1 2000 (validator_trim s) = false) ->
  validate_message m = None.
Proof.
  intros H. destruct m as [s|]; [|reflexivity].
  unfold validate_message. cbv zeta. now rewrite (H s eq_refl).
Qed.

(** X16. The storing chat route refuses a request whose message is
    absent or, once white space is trimmed from both ends, has fewer
    than 1 or more than 2000 characters as [isLength] counts them: it
    answers 400 naming the field, and nothing else happens: no
    statement, no id, no provider call. *)
Theorem sqlite_post_chat_refuses_bad_message (e : Env) (w : World) (req : Request) :
  (forall s, req_message req = Some s ->
             isLength 1 2000 (validator_trim s) = false) ->
  ChatRoutesSqlite.post_chat req e w
  = (inr (mkHttpResponse 400 (InvalidInput ["message"])), w).
Proof.
  intros H. unfold ChatRoutesSqlite.post_chat.
  now rewrite (validate_message_none _ H).
Qed.

Lemma sqlite_post_chat_refuses_bad_message_witness :
  ChatRoutesSqlite.post_chat
    (mkRequest (Some Samples.blank_message) (Some "c1") None)
    (Samples.env_with (Samples.provider_up "Hi")) Samples.world_one_message
  = (inr (mkHttpResponse 400 (InvalidInput ["message"])), Samples.world_one_message).
Proof.
  apply (sqlite_post_chat_refuses_bad_message
           (Samples.env_with (Samples.provider_up "Hi")) Samples.world_one_message
           (mkRequest (Some Samples.blank_message) (Some "c1") None)).
  intros s [= <-]. vm_compute. reflexivity.
Defined.

(** X17. The plain chat route refuses a request when the message is
    bad or when a conversation id or user id is present and not a UUID:
    it answers 400 naming exactly the failing fields, and nothing else
    happens: no provider call, no change of state. *)
Theorem plain_post_chat_refuses_bad_input
        (isUUID : string -> bool) (e : Env) (w : World) (req : Request) :
  validate_message (req_message req) = None \/
  ChatRoutes.optional_uuid isUUID (req_conversation_id req) = false \/
  ChatRoutes.optional_uuid isUUID (req_user_id req) = false ->
  exists errors,
    ChatRoutes.post_chat isUUID req e w
    = (inr (mkHttpResponse 400 (InvalidInput errors)), w) /\
    errors <> [] /\
    (In "message" errors <-> validate_message (req_message req) = None) /\
    (In "conversation_id" errors <->
     ChatRoutes.optional_uuid isUUID (req_conversation_id req) = false) /\
    (In "user_id" errors <->
     ChatRoutes.optional_uuid isUUID (req_user_id req) = false).
Proof.
  intros H. exists (fst (ChatRoutes.validate isUUID req)).
  unfold ChatRoutes.post_chat, ChatRoutes.validate. cbv zeta.
  destruct (validate_message (req_message req)) as [m|] eqn:Em;
    destruct (ChatRoutes.optional_uuid isUUID (req_conversation_id req)) eqn:Ec;
    destruct (ChatRoutes.optional_uuid isUUID (req_user_id req)) eqn:Eu;
    cbn [app fst];
    try (exfalso; destruct H as [H|[H|H]]; discriminate);
    (split; [reflexivity|]);
    (split; [discriminate|]);
    repeat split; cbn [In]; intros; try discriminate; try tauto;
    repeat match goal with
           | H : _ \/ _ |- _ => destruct H
           | H : False |- _ => destruct H
           | H : _ = _ |- _ => discriminate H
           end.
Qed.

Lemma plain_post_chat_refuses_bad_input_witness :
  exists errors,
    ChatRoutes.post_chat (fun _ => false)
      (mkRequest (Some "Hello") (Some "c1") None)
      (Samples.env_with (Samples.provider_up "Hi")) Samples.fresh_world
    = (inr (mkHttpResponse 400 (InvalidInput errors)), Samples.fresh_world) /\
    errors <> [] /\
    (In "message" errors <-> validate_message (Some "Hello") = None) /\
    (In "conversation_id" errors <->
     ChatRoutes.optional_uuid (fun _ => false) (Some "c1") = false) /\
    (In "user_id" errors <->
     ChatRoutes.optional_uuid (fun _ => false) None = false).
Proof.
  apply (plain_post_chat_refuses_bad_input (fun _ => false)
           (Samples.env_with (Samples.provider_up "Hi")) Samples.fresh_world
           (mkRequest (Some "Hello") (Some "c1") None)).
  right. left. reflexivity.
Defined.

Lemma addMessage_unknown_conversation (e : Env) (w : World) (d : Database)
      (cid : string) (role : Role) (content : string) (metadata : JsonObject) :
  db w = Some d ->
  has_conversation d cid = false ->
  exists x, addMessage cid role content metadata e w
            = (inl x, tick_stmts (tick_ids w)).
Proof.
  intros Hd Hc.
  assert (Hs : exists x,
             statement (insert_message (generated_id e (ids w)) cid role content metadata)
                       e (tick_ids w)
             = (inl x, tick_stmts (tick_ids w))).
  { unfold statement. cbn [db tick_ids stmts]. rewrite Hd.
    destruct (sql_fault e (stmts w)); [eauto|].
    unfold insert_message.
    destruct (existsb _ (messages d)); [eauto|].
    unfold has_conversation in Hc. rewrite Hc. cbn [negb]. eauto. }
  destruct Hs as [x Hs]. exists x.
  unfold addMessage.
  rewrite (bind_ok _ _ _ _ _ _ (StoreProps.getDB_run e w d Hd)).
  assert (Hid : generateId e w = (inr (generated_id e (ids w)), tick_ids w))
    by reflexivity.
  rewrite (bind_ok _ _ _ _ _ _ Hid).
  now rewrite (bind_throw _ _ _ _ _ _ Hs).
Qed.

(** X18. A chat request that names a conversation the store does not
    hold is answered with the emergency result (status 500, mode
    [emergency]): the user's message is not stored, the provider is not
    called, and the tables stay as they were. *)
Theorem post_chat_unknown_conversation_is_emergency
        (e : Env) (w : World) (d : Database) (req : Request)
        (message cid : string) :
  validate_message (req_message req) = Some message ->
  or_null (req_conversation_id req) = Some cid ->
  db w = Some d ->
  has_conversation d cid = false ->
  exists w',
    ChatRoutesSqlite.post_chat req e w
    = (inr (mkHttpResponse 500 (ChatJson
         (mkChatResult emergencyResponse "emergency_fallback" "static_response"
                       0.7 (now e (S (stmts w))) "emergency" None
                       (Some "Temporary service disruption")))), w') /\
    db w' = Some d /\ calls w' = calls w /\ trace w' = trace w.
Proof.
  intros Hvalid Hcid Hd Hc.
  destruct (addMessage_unknown_conversation e w d cid user message [] Hd Hc)
    as [x Hadd].
  exists (tick_stmts (tick_ids w)).
  split; [|now cbn].
  unfold ChatRoutesSqlite.post_chat. rewrite Hvalid.
  erewrite try_catch_throw; cycle 1.
  { unfold ChatRoutesSqlite.resolve_conversation. rewrite Hcid.
    assert (Hret : ret cid e w = (inr cid, w)) by reflexivity.
    rewrite (bind_ok _ _ _ _ _ _ Hret).
    now rewrite (bind_throw _ _ _ _ _ _ Hadd). }
  reflexivity.
Qed.

Lemma post_chat_unknown_conversation_is_emergency_witness :
  exists w',
    ChatRoutesSqlite.post_chat (mkRequest (Some "Hello") (Some "c9") None)
      (Samples.env_with (Samples.provider_up "Hi")) Samples.world_one_message
    = (inr (mkHttpResponse 500 (ChatJson
         (mkChatResult emergencyResponse "emergency_fallback" "static_response"
                       0.7 1%N "emergency" None
                       (Some "Temporary service disruption")))), w') /\
    db w' = Some Samples.db_one_message /\
    calls w' = calls Samples.world_one_message /\
    trace w' = trace Samples.world_one_message.
Proof.
  apply (post_chat_unknown_conversation_is_emergency
           (Samples.env_with (Samples.provider_up "Hi")) Samples.world_one_message
           Samples.db_one_message (mkRequest (Some "Hello") (Some "c9") None)
           "Hello" "c9"); reflexivity.
Defined.

(** X19. While the database is not open, every chat request with a
    valid message is answered with the emergency result and changes
    nothing: no id is generated and the provider is not called. *)
Theorem post_chat_without_store_is_emergency
        (e : Env) (w : World) (req : Request) (message : string) :
  validate_message (req_message req) = Some message ->
  db w = None ->
  ChatRoutesSqlite.post_chat req e w
  = (inr (mkHttpResponse 500 (ChatJson
       (mkChatResult emergencyResponse "emergency_fallback" "static_response"
                     0.7 (now e (stmts w)) "emergency" None
                     (Some "Temporary service disruption")))), w).
Proof.
  intros Hvalid Hd.
  pose proof (StoreProps.getDB_none e w Hd) as Hg.
  unfold ChatRoutesSqlite.post_chat. rewrite Hvalid.
  erewrite try_catch_throw; cycle 1.
  { unfold ChatRoutesSqlite.resolve_conversation.
    destruct (or_null (req_conversation_id req)) as [cid|].
    - assert (Hret : ret cid e w = (inr cid, w)) by reflexivity.
      rewrite (bind_ok _ _ _ _ _ _ Hret).
      assert (Hadd : addMessage cid user message [] e w = (inl not_initialized, w))
        by (unfold addMessage; exact (bind_throw _ _ _ _ _ _ Hg)).
      now rewrite (bind_throw _ _ _ _ _ _ Hadd).
    - assert (Hnew : createConversation (req_user_id req) e w
                     = (inl not_initialized, w))
        by (unfold createConversation; exact (bind_throw _ _ _ _ _ _ Hg)).
      assert (Hres : bind (createConversation (req_user_id req))
                          (fun conversation =>
                             match conversation with
                             | Some c => ret (conv_id c)
                             | None => throw (TypeError
                                 "Cannot read properties of undefined (reading 'id')")
                             end) e w
                     = (inl not_initialized, w))
        by exact (bind_throw _ _ _ _ _ _ Hnew).
      exact (bind_throw _ _ _ _ _ _ Hres). }
  reflexivity.
Qed.

Lemma post_chat_without_store_is_emergency_witness :
  ChatRoutesSqlite.post_chat Samples.first_message
    (Samples.env_with (Samples.provider_up "Hi")) Seed.closed_world
  = (inr (mkHttpResponse 500 (ChatJson
       (mkChatResult emergencyResponse "emergency_fallback" "static_response"
                     0.7 0%N "emergency" None
                     (Some "Temporary service disruption")))), Seed.closed_world).
Proof.
  apply (post_chat_without_store_is_emergency
           (Samples.env_with (Samples.provider_up "Hi")) Seed.closed_world
           Samples.first_message
           "I'm feeling really alone and need housing help").
  - vm_compute. reflexivity.
  - reflexivity.
Defined.


Lemma getFallbackResponse_canned (userMessage : string) (e : Env) (w : World) :
  exists reply w',
    getFallbackResponse userMessage e w = (inr reply, w') /\
    In reply canned_replies /\
    db w' = db w /\ stmts w' = stmts w /\ ids w' = ids w /\ calls w' = calls w.
Proof.
  unfold getFallbackResponse, canned_replies.
  destruct (first_topic (toLowerCase userMessage) communityKnowledge)
    as [found|] eqn:Efirst.
  - exists (message found), w. split; [reflexivity|]. split; [|auto].
    destruct (PersonaProps.first_topic_Some _ _ _ Efirst) as [topic [Hin _]].
    apply in_or_app. left.
    apply (in_map (fun entry => message (snd entry)) _ _ Hin).
  - destruct (PersonaProps.Math_random_unit e w) as [z [Hrand Hz]].
    eexists. exists (tick_draws w).
    split; [unfold bind; rewrite Hrand; reflexivity|]. split; [|auto].
    apply in_or_app. right.
    apply nth_In. apply PersonaProps.Math_floor_random_lt. exact Hz.
Qed.

(** X20. The plain chat route, for a request that passes validation,
    always answers 200 and never touches the store.  When one of the
    three provider attempts yields a reply, the result has mode [groq]
    and carries that reply, trimmed and passed through the persona;
    otherwise it has mode [fallback] and carries one of the canned
    replies.  The conversation id of the request is echoed. *)
Theorem plain_post_chat_mode_follows_provider
        (isUUID : string -> bool) (e : Env) (w : World) (req : Request)
        (message : string) :
  ChatRoutes.validate isUUID req = ([], Some message) ->
  exists r w',
    ChatRoutes.post_chat isUUID req e w
    = (inr (mkHttpResponse 200 (ChatJson r)), w') /\
    db w' = db w /\ stmts w' = stmts w /\ ids w' = ids w /\
    conversation_id r = or_null (req_conversation_id req) /\
    error r = None /\
    match first_reply e w with
    | Some reply =>
        mode r = "groq" /\ source r = "groq_api" /\
        response r = processResponse (trim reply) message
    | None =>
        mode r = "fallback" /\ source r = "qtipoc_local_knowledge" /\
        In (response r) canned_replies
    end.
Proof.
  intros Hvalid.
  destruct (generateResponse_first_reply (enhancePrompt message) e w)
    as [w1 [Hgen [Hdb [Hst [Hids [_ _]]]]]].
  unfold ChatRoutes.post_chat. rewrite Hvalid.
  destruct (first_reply e w) as [reply|].
  - eexists. exists w1.
    split.
    { erewrite try_catch_ok; [reflexivity|].
      erewrite try_catch_ok; [reflexivity|].
      unfold ChatRoutes.groq_branch.
      rewrite (bind_ok _ _ _ _ _ _ Hgen). reflexivity. }
    cbn. auto 10.
  - destruct (getFallbackResponse_canned message e w1)
      as [canned [w2 [Hfb [Hin [Hdb2 [Hst2 [Hids2 _]]]]]]].
    eexists. exists w2.
    split.
    { erewrite try_catch_ok; [reflexivity|].
      erewrite try_catch_throw; cycle 1.
      { unfold ChatRoutes.groq_branch. exact (bind_throw _ _ _ _ _ _ Hgen). }
      unfold ChatRoutes.fallback_branch.
      rewrite (bind_ok _ _ _ _ _ _ Hfb). reflexivity. }
    cbn. repeat split; auto; congruence.
Qed.

Lemma plain_post_chat_mode_follows_provider_witness :
  exists r w',
    ChatRoutes.post_chat (fun _ => true) Samples.first_message
      (Samples.env_with (Samples.provider_third " Hello there ")) Samples.fresh_world
    = (inr (mkHttpResponse 200 (ChatJson r)), w') /\
    mode r = "groq" /\
    response r
    = processResponse "Hello there" "I'm feeling really alone and need housing help".
Proof.
  assert (Hvalid : ChatRoutes.validate (fun _ => true) Samples.first_message
                   = ([], Some "I'm feeling really alone and need housing help"))
    by (vm_compute; reflexivity).
  destruct (plain_post_chat_mode_follows_provider
              (fun _ => true)
              (Samples.env_with (Samples.provider_third " Hello there "))
              Samples.fresh_world Samples.first_message _ Hvalid)
    as [r [w' [Hrun [_ [_ [_ [_ [_ Hmode]]]]]]]].
  exists r, w'. split; [exact Hrun|].
  assert (Hfirst : first_reply (Samples.env_with (Samples.provider_third " Hello there "))
                               Samples.fresh_world = Some " Hello there ")
    by (vm_compute; reflexivity).
  rewrite Hfirst in Hmode. destruct Hmode as [Hm [_ Hr]].
  split; [exact Hm|].
  rewrite Hr.
  assert (Htrim : trim " Hello there " = "Hello there") by (vm_compute; reflexivity).
  now rewrite Htrim.
Defined.

(** *** What a chat turn does to the stored messages *)

Lemma frames_same_db allowed {A} (c : M A) :
  (forall e w, db (snd (c e w)) = db w) -> frames allowed c.
Proof.
  intros H e w. unfold stored_messages. rewrite H. apply StoreProps.evolves_refl.
Qed.

Lemma frames_generateResponse allowed (prompt : string) :
  frames allowed (generateResponse prompt).
Proof.
  apply frames_same_db. intros e w.
  destruct (generateResponse_first_reply prompt e w) as [w' [Hgen [Hdb _]]].
  now rewrite Hgen.
Qed.

Lemma frames_getFallbackResponse allowed (userMessage : string) :
  frames allowed (getFallbackResponse userMessage).
Proof.
  apply frames_same_db. intros e w.
  destruct (getFallbackResponse_canned userMessage e w)
    as [reply [w' [Hfb [_ [Hdb _]]]]].
  now rewrite Hfb.
Qed.

Lemma frames_Date_now allowed : frames allowed Date_now.
Proof. now apply frames_same_db. Qed.

Lemma frames_emergency allowed : frames allowed emergency.
Proof. now apply frames_same_db. Qed.

Lemma frames_post_chat (req : Request) :
  frames nothing (ChatRoutesSqlite.post_chat req).
Proof.
  unfold ChatRoutesSqlite.post_chat.
  apply StoreProps.frames_try_catch; [|intros ?; apply frames_emergency].
  destruct (validate_message (req_message req)) as [message|];
    [|apply StoreProps.frames_ret].
  apply StoreProps.frames_bind.
  { unfold ChatRoutesSqlite.resolve_conversation.
    destruct (or_null (req_conversation_id req)); [apply StoreProps.frames_ret|].
    apply StoreProps.frames_bind; [apply StoreProps.frames_createConversation|].
    intros [c|]; [apply StoreProps.frames_ret | apply StoreProps.frames_throw]. }
  intros cid.
  apply StoreProps.frames_bind; [apply StoreProps.frames_addMessage|]. intros _.
  apply StoreProps.frames_try_catch.
  - unfold ChatRoutesSqlite.groq_branch.
    apply StoreProps.frames_bind; [apply frames_generateResponse|]. intros ai.
    apply StoreProps.frames_bind; [apply StoreProps.frames_addMessage|]. intros _.
    apply StoreProps.frames_bind; [apply frames_Date_now|]. intros ts.
    apply StoreProps.frames_ret.
  - intros _. unfold ChatRoutesSqlite.fallback_branch.
    apply StoreProps.frames_bind; [apply frames_getFallbackResponse|]. intros fb.
    apply StoreProps.frames_bind; [apply StoreProps.frames_addMessage|]. intros _.
    apply StoreProps.frames_bind; [apply frames_Date_now|]. intros ts.
    apply StoreProps.frames_ret.
Qed.

Lemma evolves_nothing_prefix (ms : list Message) :
  forall ms', evolves nothing ms ms' -> exists tail, ms' = (ms ++ tail)%list.
Proof.
  induction ms as [|m ms IH]; intros ms' H.
  - exists ms'. reflexivity.
  - destruct (H 0%nat m eq_refl) as [m' [Hnth [Hsame Hrating]]].
    destruct ms' as [|m0 ms']; [discriminate|].
    cbn in Hnth. injection Hnth as ->.
    assert (Hm : m' = m).
    { destruct Hrating as [Hr | [r [[] _]]].
      destruct Hsame as [H1 [H2 [H3 [H4 [H5 H6]]]]].
      destruct m, m'; cbn in *; congruence. }
    subst m'.
    destruct (IH ms') as [tail ->].
    + intros i x Hx. exact (H (S i) x Hx).
    + exists tail. reflexivity.
Qed.

(** X21. Whatever the request and whatever fails on the way, the
    storing chat route only appends to the messages table: the rows
    stored before the request are still there afterwards, in the same
    order and unchanged in every column. *)
Theorem post_chat_only_appends_messages (req : Request) (e : Env) (w : World) :
  exists tail,
    stored_messages (snd (ChatRoutesSqlite.post_chat req e w))
    = (stored_messages w ++ tail)%list.
Proof.
  apply evolves_nothing_prefix. apply frames_post_chat.
Qed.

End RoutesMore.

(** ** Further properties: history, feedback, health and statistics
       endpoints, the error handler and the prompt *)

Module RestMore.
Import IvorPersona SQLiteService.
Import StoreSpec MoreSpec.
Import ChatRoutesSqliteRest.

Lemma StronglySorted_map {A B} (f : A -> B) (R : B -> B -> Prop) (l : list A) :
  StronglySorted (fun a b => R (f a) (f b)) l -> StronglySorted R (map f l).
Proof.
  induction 1 as [|x l Hs IH Hall]; cbn; constructor; [exact IH|].
  apply Forall_map. exact Hall.
Qed.

(** X22. The history route never throws and never changes a table.  It
    answers 500 when the store cannot be read; otherwise, over rows
    whose metadata the service wrote, it answers 200 with one view for
    each message of the conversation, oldest first.  A conversation the
    store does not hold is answered with 200 and an empty list, like a
    conversation without messages. *)
Theorem get_conversation_lists_messages_oldest_first
        (id : string) (e : Env) (w : World) :
  exists resp w',
    get_conversation id e w = (inr resp, w') /\
    db w' = db w /\
    (reachable e w = false ->
     resp = mkHistoryResponse 500 (HistoryError "Failed to retrieve conversation")) /\
    (forall d, db w = Some d -> sql_fault e (stmts w) = false ->
       exists views,
         resp = mkHistoryResponse 200 (History id views "active") /\
         Permutation views
           (map view (filter (fun m => (msg_conversation_id m =? id)%string)
                             (messages d))) /\
         StronglySorted (fun a b => (view_timestamp a <= view_timestamp b)%N) views /\
         (messages_reference_conversations d ->
          has_conversation d id = false -> views = [])).
Proof.
  unfold get_conversation, reachable.
  destruct (db w) as [d|] eqn:Hd.
  - destruct (sql_fault e (stmts w)) eqn:Hf.
    + assert (Hs : statement (select_conversation_messages id) e w
                   = (inl SQLITE_ERROR, tick_stmts w))
        by (unfold statement; now rewrite Hd, Hf).
      assert (Hget : getConversationMessages id e w = (inl SQLITE_ERROR, tick_stmts w)).
      { unfold getConversationMessages.
        rewrite (bind_ok _ _ _ _ _ _ (StoreProps.getDB_run e w d Hd)). exact Hs. }
      eexists. exists (tick_stmts w). split.
      { erewrite try_catch_throw; [reflexivity|].
        exact (bind_throw _ _ _ _ _ _ Hget). }
      split; [exact Hd|]. split; [reflexivity|]. intros d' _ [=].
    + set (rows := order_by (fun a b => (msg_timestamp a <=? msg_timestamp b)%N)
                     (filter (fun m => (msg_conversation_id m =? id)%string)
                             (messages d))).
      assert (Hget : getConversationMessages id e w
                     = (inr rows, set_db d (tick_stmts w)))
        by (unfold getConversationMessages; now apply ReadsMore.read_run).
      eexists. exists (set_db d (tick_stmts w)). split.
      { erewrite try_catch_ok; [reflexivity|].
        rewrite (bind_ok _ _ _ _ _ _ Hget). reflexivity. }
      split; [reflexivity|]. split; [discriminate|].
      intros d' [= <-] _. exists (map view rows).
      split; [reflexivity|]. split; [|split].
      * apply Permutation_map. apply StoreProps.order_by_perm.
      * apply StronglySorted_map.
        eapply StoreProps.StronglySorted_weaken;
          [|apply (StoreProps.order_by_sorted
                     (fun a b => (msg_timestamp a <=? msg_timestamp b)%N))].
        -- intros a b H. cbn. now apply N.leb_le.
        -- intros a b. rewrite !N.leb_le. lia.
        -- intros a b c. rewrite !N.leb_le. lia.
      * intros Href Hnone. unfold rows.
        now rewrite (StoreProps.no_message_of_new_conversation d id Href Hnone).
  - eexists. exists w. split.
    { erewrite try_catch_throw; [reflexivity|].
      assert (Hget : getConversationMessages id e w = (inl not_initialized, w))
        by (unfold getConversationMessages;
            exact (bind_throw _ _ _ _ _ _ (StoreProps.getDB_none e w Hd))).
      exact (bind_throw _ _ _ _ _ _ Hget). }
    split; [exact Hd|]. split; [reflexivity|]. intros d' [=].
Qed.

(** *** The feedback route *)

(** X23. The feedback route refuses a request without a message id, or
    whose rating is absent, not an integer or outside 1 to 5: it answers
    400 naming the failing fields and the store is not consulted. *)
Theorem post_feedback_refuses_bad_input (req : FeedbackRequest) (e : Env) (w : World) :
  fr_message_id req = None \/
  (forall r, fr_rating req = Some r -> (r < 1 \/ 5 < r)%Z) ->
  exists errors,
    post_feedback req e w
    = (inr (mkFeedbackResponse 400 (FeedbackInvalid errors)), w) /\
    (In "message_id" errors <-> fr_message_id req = None) /\
    (In "rating" errors <-> forall r, fr_rating req = Some r -> (r < 1 \/ 5 < r)%Z).
Proof.
  intros H.
  assert (Hint : isInt_1_5 (fr_rating req) = false <->
                 forall r, fr_rating req = Some r -> (r < 1 \/ 5 < r)%Z).
  { unfold isInt_1_5. destruct (fr_rating req) as [r|].
    - rewrite andb_false_iff, !Z.leb_gt. split.
      + intros Hr r' [= <-]. exact Hr.
      + intros Hr. exact (Hr r eq_refl).
    - split; [discriminate | reflexivity]. }
  exists (validate_feedback req).
  unfold post_feedback, validate_feedback.
  destruct (fr_message_id req) as [mid|] eqn:Emid;
    destruct (isInt_1_5 (fr_rating req)) eqn:Eint; cbn [app].
  - exfalso. destruct H as [H|H]; [discriminate|].
    apply Hint in H. discriminate.
  - split; [reflexivity|]. split; cbn [In].
    + split; [intros [H1|[]]; discriminate | discriminate].
    + split; [intros _; now apply Hint | now left].
  - split; [reflexivity|]. split; cbn [In].
    + split; [reflexivity | now left].
    + split; [intros [H1|[]]; discriminate|].
      intros Hr. apply Hint in Hr. discriminate.
  - split; [reflexivity|]. split; cbn [In].
    + split; [reflexivity | now left].
    + split; [intros _; now apply Hint | intros _; right; now left].
Qed.

Lemma post_feedback_refuses_bad_input_witness :
  exists errors,
    post_feedback (mkFeedbackRequest (Some "m1") (Some 6%Z) None None)
      (Samples.env_with Samples.provider_down) Samples.world_one_message
    = (inr (mkFeedbackResponse 400 (FeedbackInvalid errors)),
       Samples.world_one_message) /\
    (In "message_id" errors <-> Some "m1" = None) /\
    (In "rating" errors <-> forall r, Some 6%Z = Some r -> (r < 1 \/ 5 < r)%Z).
Proof.
  apply (post_feedback_refuses_bad_input
           (mkFeedbackRequest (Some "m1") (Some 6%Z) None None)
           (Samples.env_with Samples.provider_down) Samples.world_one_message).
  right. intros r [= <-]. right. reflexivity.
Defined.


Lemma addFeedback_run (e : Env) (w : World) (d : Database)
      (mid : string) (rating : Z) (text uid : option string) :
  db w = Some d -> no_fault e ->
  rating_in_range rating = true ->
  let id := generated_id e (ids w) in
  let row := mkFeedback id mid rating (or_null text) (now e (stmts w)) (or_null uid) in
  addFeedback mid rating text uid e w =
  if has_message d mid
     && negb (existsb (fun f => (fb_id f =? id)%string) (feedback d))
     && references_user d (or_null uid)
  then (inr tt,
        mkWorld (Some (set_messages (map (rate mid rating) (messages d))
                                    (set_feedback (feedback d ++ [row])%list d)))
                (2 + stmts w) (S (ids w)) (draws w) (calls w) (trace w))
  else (inl (SQLITE_CONSTRAINT
               (if existsb (fun f => (fb_id f =? id)%string) (feedback d)
                then PRIMARYKEY else FOREIGNKEY)),
        tick_stmts (tick_ids w)).
Proof.
  intros Hdb Hnf Hrange id row. unfold addFeedback.
  unfold bind at 1. rewrite (StoreProps.getDB_run e w d Hdb).
  unfold bind at 1. cbn [generateId].
  unfold bind at 1.
  rewrite (StoreProps.statement_run _ e (tick_ids w) d Hdb (Hnf _)).
  unfold insert_feedback at 1. fold id. rewrite Hrange. cbn [negb].
  unfold has_message.
  destruct (existsb (fun f => (fb_id f =? id)%string) (feedback d)) eqn:Efresh;
    [now rewrite andb_false_r|].
  destruct (existsb (fun m => (msg_id m =? mid)%string) (messages d)) eqn:Emsg;
    [|reflexivity].
  destruct (references_user d (or_null uid)) eqn:Euser; [|reflexivity].
  cbn [negb orb andb].
  erewrite StoreProps.statement_run; [|reflexivity|apply Hnf].
  unfold update_message_rating. rewrite Hrange, andb_false_r.
  reflexivity.
Qed.

(** X24. With a driver that raises no fault, a valid feedback request
    is all or nothing.  When the message exists, the generated id is
    new and the user id (if any) is known, the route answers 200, one
    feedback row is appended and the rating of that message, and of no
    other, is set.  Otherwise it answers 500 and every table stays as
    it was; an unknown message is a 500, not a 404. *)
Theorem post_feedback_all_or_nothing
        (req : FeedbackRequest) (e : Env) (w : World) (d : Database)
        (mid : string) (rating : Z) :
  fr_message_id req = Some mid ->
  fr_rating req = Some rating ->
  (1 <= rating <= 5)%Z ->
  db w = Some d ->
  no_fault e ->
  let id := generated_id e (ids w) in
  let accepted :=
    has_message d mid
    && negb (existsb (fun f => (fb_id f =? id)%string) (feedback d))
    && references_user d (or_null (fr_user_id req)) in
  exists w',
    post_feedback req e w
    = (inr (if accepted
            then mkFeedbackResponse 200 (FeedbackRecorded "Feedback recorded successfully")
            else mkFeedbackResponse 500 (FeedbackFailed "Failed to record feedback")),
       w') /\
    db w'
    = Some (if accepted
            then set_messages
                   (map (rate mid rating) (messages d))
                   (set_feedback
                      (feedback d ++
                       [mkFeedback id mid rating (or_null (fr_feedback_text req))
                                   (now e (stmts w)) (or_null (fr_user_id req))])%list
                      d)
            else d).
Proof.
  intros Hmid Hrating Hr Hdb Hnf id accepted.
  assert (Hrange : rating_in_range rating = true).
  { unfold rating_in_range. apply andb_true_iff. rewrite !Z.leb_le. lia. }
  pose proof (addFeedback_run e w d mid rating (fr_feedback_text req)
                              (fr_user_id req) Hdb Hnf Hrange) as Hrun.
  cbv zeta in Hrun. fold id in Hrun. fold accepted in Hrun.
  unfold post_feedback, validate_feedback.
  rewrite Hmid, Hrating.
  assert (Hint : isInt_1_5 (Some rating) = true) by exact Hrange.
  rewrite Hint. cbn [app].
  destruct accepted.
  - eexists. split.
    + erewrite try_catch_ok; [reflexivity|].
      rewrite (bind_ok _ _ _ _ _ _ Hrun). reflexivity.
    + reflexivity.
  - eexists. split.
    + erewrite try_catch_throw; cycle 1.
      { exact (bind_throw _ _ _ _ _ _ Hrun). }
      reflexivity.
    + exact Hdb.
Qed.

Lemma post_feedback_all_or_nothing_witness :
  exists w',
    post_feedback (mkFeedbackRequest (Some "m1") (Some 4%Z) (Some "thanks") None)
      (Samples.env_with Samples.provider_down) Samples.world_one_message
    = (inr (mkFeedbackResponse 200 (FeedbackRecorded "Feedback recorded successfully")),
       w') /\
    db w'
    = Some (set_messages
              (map (rate "m1" 4) (messages Samples.db_one_message))
              (set_feedback
                 (feedback Samples.db_one_message ++
                  [mkFeedback "id0" "m1" 4 (Some "thanks") 0%N None])%list
                 Samples.db_one_message)).
Proof.
  assert (Hr : (1 <= 4 <= 5)%Z) by lia.
  assert (Hnf : no_fault (Samples.env_with Samples.provider_down))
    by (intros k; reflexivity).
  exact (post_feedback_all_or_nothing
           (mkFeedbackRequest (Some "m1") (Some 4%Z) (Some "thanks") None)
           (Samples.env_with Samples.provider_down) Samples.world_one_message
           Samples.db_one_message "m1" 4 eq_refl eq_refl Hr eq_refl Hnf).
Defined.

(** *** The endpoints of the server *)

(** X25. The database health endpoint never throws and changes no
    table.  It answers 200 exactly when the database is open and the
    driver accepts the count statement; otherwise it answers 500, and
    the error it reports is always [Database health check failed],
    never the driver's own message. *)
Theorem health_db_reports_store (e : Env) (w : World) :
  exists w',
    Server.health_db e w
    = (inr (if reachable e w
            then (200%nat, Server.DbHealthy (now e (stmts w')))
            else (500%nat,
                  Server.DbUnhealthy "Database health check failed"
                                     (now e (stmts w')))),
       w') /\
    db w' = db w.
Proof.
  pose proof (ReadsMore.healthCheck_run e w) as Hrun.
  unfold Server.health_db.
  eexists. split.
  - destruct (reachable e w).
    + erewrite try_catch_ok; [reflexivity|].
      rewrite (bind_ok _ _ _ _ _ _ Hrun). reflexivity.
    + erewrite try_catch_throw; cycle 1.
      { rewrite (bind_ok _ _ _ _ _ _ Hrun). reflexivity. }
      reflexivity.
  - destruct (db w) as [d|] eqn:Hd; [|exact Hd].
    destruct (sql_fault e (stmts w)); [exact Hd | reflexivity].
Qed.

Lemma obj_get_obj_set (k k' : string) (v : Server.StatView) (o : Server.JsObject) :
  Server.obj_get k (Server.obj_set k' v o)
  = if (k =? k')%string then Some v else Server.obj_get k o.
Proof.
  induction o as [|[k0 v0] o IH]; cbn.
  - reflexivity.
  - destruct (k' =? k0)%string eqn:E0; cbn.
    + apply String.eqb_eq in E0. subst k0.
      destruct (k =? k')%string; reflexivity.
    + rewrite IH. destruct (k =? k0)%string eqn:E1; [|reflexivity].
      apply String.eqb_eq in E1. subst k0.
      destruct (k =? k')%string eqn:E2; [|reflexivity].
      apply String.eqb_eq in E2. subst k'.
      now rewrite String.eqb_refl in E0.
Qed.

Lemma find_app_first {A} (f : A -> bool) (l l' : list A) :
  find f (l ++ l')%list
  = match find f l with
    | Some x => Some x
    | None => find f l'
    end.
Proof.
  induction l as [|x l IH]; cbn; [reflexivity|]. now destruct (f x).
Qed.

Lemma transformStats_lookup (k : string) (stats : list CommunityStats) :
  forall acc,
    Server.obj_get k
      (fold_left (fun acc stat =>
                    Server.obj_set (stat_name stat)
                      (Server.mkStatView (stat_value stat) (stat_category stat)
                                         (stat_updated_at stat)) acc)
                 stats acc)
    = match find (fun s => (stat_name s =? k)%string) (rev stats) with
      | Some s => Some (stat_view s)
      | None => Server.obj_get k acc
      end.
Proof.
  induction stats as [|s stats IH]; intros acc; [reflexivity|].
  cbn [fold_left rev]. rewrite IH, find_app_first.
  destruct (find (fun s0 => (stat_name s0 =? k)%string) (rev stats)); [reflexivity|].
  cbn [find]. rewrite obj_get_obj_set, (String.eqb_sym (stat_name s) k).
  destruct (k =? stat_name s)%string; reflexivity.
Qed.

Lemma find_unique_name (k : string) (l : list CommunityStats) (s : CommunityStats) :
  NoDup (map stat_name l) -> In s l -> stat_name s = k ->
  find (fun x => (stat_name x =? k)%string) l = Some s.
Proof.
  induction l as [|x l IH]; intros Hnd Hin Hk; [destruct Hin|].
  cbn in Hnd. inversion Hnd as [|? ? Hnotin Hnd']; subst.
  cbn [find]. destruct Hin as [-> | Hin].
  - now rewrite String.eqb_refl.
  - destruct (stat_name x =? stat_name s)%string eqn:E.
    + apply String.eqb_eq in E. exfalso. apply Hnotin. rewrite E.
      now apply in_map.
    + now apply IH.
Qed.

(** X26. The statistics endpoint never throws and changes no table.
    When the store cannot be read it answers 500 with the three
    built-in figures.  Otherwise, when no row is named [__proto__], it
    answers 200 with an object whose keys are exactly the names of the
    rows of [community_stats]; when names are unique, as the schema
    requires, each name carries the value, category and date of its
    row. *)
Theorem community_stats_endpoint_publishes_rows (e : Env) (w : World) :
  exists resp w',
    Server.community_stats_endpoint e w = (inr resp, w') /\
    db w' = db w /\
    (reachable e w = false ->
     resp = (500%nat,
             Server.StatsFailed "Failed to fetch community statistics"
               [ ("total_members", ("12000+", "membership"));
                 ("active_discussions", ("20+", "engagement"));
                 ("weekly_events", ("5", "events")) ])) /\
    (forall d, db w = Some d -> sql_fault e (stmts w) = false ->
       (forall s, In s (community_stats d) -> stat_name s <> "__proto__") ->
       exists o,
         resp = (200%nat, Server.StatsOk o (now e (S (stmts w)))) /\
         (forall k, Server.obj_get k o <> None <->
                    exists s, In s (community_stats d) /\ stat_name s = k) /\
         (NoDup (map stat_name (community_stats d)) ->
          forall s, In s (community_stats d) ->
                    Server.obj_get (stat_name s) o = Some (stat_view s))).
Proof.
  unfold Server.community_stats_endpoint, reachable.
  destruct (db w) as [d|] eqn:Hd.
  - destruct (sql_fault e (stmts w)) eqn:Hf.
    + assert (Hs : statement select_community_stats e w
                   = (inl SQLITE_ERROR, tick_stmts w))
        by (unfold statement; now rewrite Hd, Hf).
      assert (Hget : getCommunityStats e w = (inl SQLITE_ERROR, tick_stmts w)).
      { unfold getCommunityStats.
        rewrite (bind_ok _ _ _ _ _ _ (StoreProps.getDB_run e w d Hd)). exact Hs. }
      eexists. exists (tick_stmts w). split.
      { erewrite try_catch_throw; [reflexivity|].
        exact (bind_throw _ _ _ _ _ _ Hget). }
      split; [exact Hd|]. split; [reflexivity|]. intros d' _ [=].
    + set (rows := order_by stats_leb (community_stats d)).
      assert (Hget : getCommunityStats e w = (inr rows, set_db d (tick_stmts w)))
        by (unfold getCommunityStats; now apply ReadsMore.read_run).
      assert (Hperm : Permutation rows (community_stats d))
        by apply StoreProps.order_by_perm.
      eexists. exists (set_db d (tick_stmts w)). split.
      { erewrite try_catch_ok; [reflexivity|].
        rewrite (bind_ok _ _ _ _ _ _ Hget). reflexivity. }
      split; [reflexivity|]. split; [discriminate|].
      intros d' [= <-] _ _. exists (Server.transformStats rows).
      split; [reflexivity|].
      unfold Server.transformStats. split.
      * intros k. rewrite transformStats_lookup. cbn [Server.obj_get].
        destruct (find (fun s => (stat_name s =? k)%string) (rev rows)) as [s|] eqn:Efind.
        -- split; [|discriminate]. intros _.
           apply find_some in Efind. destruct Efind as [Hin Hk].
           exists s. split; [|now apply String.eqb_eq].
           apply (Permutation_in _ Hperm). now apply in_rev.
        -- split; [intros H; now destruct H|].
           intros [s [Hin Hk]]. exfalso.
           assert (Hrev : In s (rev rows)).
           { apply in_rev. rewrite rev_involutive.
             apply (Permutation_in _ (Permutation_sym Hperm)). exact Hin. }
           pose proof (find_none _ _ Efind s Hrev) as Hno. cbn in Hno.
           apply String.eqb_eq in Hk. congruence.
      * intros Hnd s Hin. rewrite transformStats_lookup.
        rewrite (find_unique_name (stat_name s) (rev rows) s); [reflexivity| |  |reflexivity].
        -- eapply Permutation_NoDup; [|exact Hnd].
           apply Permutation_map.
           etransitivity; [symmetry; exact Hperm | apply Permutation_rev].
        -- apply in_rev. rewrite rev_involutive.
           apply (Permutation_in _ (Permutation_sym Hperm)). exact Hin.
  - eexists. exists w. split.
    { erewrite try_catch_throw; [reflexivity|].
      assert (Hget : getCommunityStats e w = (inl not_initialized, w))
        by (unfold getCommunityStats;
            exact (bind_throw _ _ _ _ _ _ (StoreProps.getDB_none e w Hd))).
      exact (bind_throw _ _ _ _ _ _ Hget). }
    split; [exact Hd|]. split; [reflexivity|]. intros d' [=].
Qed.

(** *** The error handler *)

Import ErrorMiddleware.

(** X27. The status the error handler sends: 429 for an error whose
    code is [RATE_LIMITED], whatever its name; else 401 for an
    [UnauthorizedError]; else 400 for a [ValidationError]; else the
    error's own status code, or 500 when that is absent or zero.  The
    handler touches neither store nor provider. *)
Theorem errorHandler_status_precedence
        (NODE_ENV : option string) (error : ApiError) (path : string)
        (e : Env) (w : World) :
  exists body,
    errorHandler NODE_ENV error path e w
    = (inr (if code_is (err_code error) "RATE_LIMITED" then 429%Z
            else if (err_name error =? "UnauthorizedError")%string then 401%Z
            else if (err_name error =? "ValidationError")%string then 400%Z
            else match err_statusCode error with
                 | Some 0%Z | None => 500%Z
                 | Some n => n
                 end,
            body), w) /\
    eb_path body = path.
Proof.
  unfold errorHandler, number_or.
  destruct (code_is (err_code error) "RATE_LIMITED");
    destruct (err_name error =? "UnauthorizedError")%string;
    destruct (err_name error =? "ValidationError")%string;
    try (eexists; split; reflexivity);
    destruct (err_statusCode error) as [[|p|p]|];
    eexists; split; reflexivity.
Qed.

(** X28. What the error handler discloses.  In production an answer
    with status 500 always carries the fixed text [Something went wrong
    on our end. Please try again later.] in place of the error's own
    message; and the stack trace is part of the body in development
    only. *)
Theorem errorHandler_discloses_little
        (NODE_ENV : option string) (error : ApiError) (path : string)
        (e : Env) (w : World) :
  exists st body,
    errorHandler NODE_ENV error path e w = (inr (st, body), w) /\
    (NODE_ENV = Some "production" -> st = 500%Z ->
     eb_error body = "Something went wrong on our end. Please try again later.") /\
    (eb_stack body <> None <-> NODE_ENV = Some "development") /\
    (NODE_ENV = Some "development" -> eb_stack body = Some (err_stack error)).
Proof.
  assert (Henv : forall name, env_is NODE_ENV name = true <-> NODE_ENV = Some name).
  { intros name. unfold env_is. destruct NODE_ENV as [v|].
    - rewrite String.eqb_eq. split; [now intros -> | now intros [= ->]].
    - split; discriminate. }
  unfold errorHandler.
  destruct (err_name error =? "ValidationError")%string;
    destruct (err_name error =? "UnauthorizedError")%string;
    destruct (code_is (err_code error) "RATE_LIMITED");
    (eexists; eexists; split; [reflexivity|]);
    cbn [eb_error eb_stack];
    (split; [intros Hprod Hst;
             apply Henv in Hprod; rewrite Hprod; cbn [andb];
             try discriminate Hst; try (rewrite Hst; reflexivity)|]);
    (split; [|intros Hdev; apply Henv in Hdev; now rewrite Hdev]);
    (destruct (env_is NODE_ENV "development") eqn:Edev;
     [apply Henv in Edev; split; [auto | discriminate]
     |split; [intros H; now destruct H
             |intros Hdev; apply Henv in Hdev; congruence]]).
Qed.

Lemma errorHandler_discloses_little_example :
  fst (errorHandler (Some "production")
         (mkApiError "Error" "SQLITE_ERROR: no such table" (Some "at db.ts:1") None None)
         "/api/chat" (Samples.env_with Samples.provider_down) Samples.fresh_world)
  = inr (500%Z,
         mkErrorBody "Something went wrong on our end. Please try again later."
                     0%N "/api/chat" None).
Proof. reflexivity. Qed.

(** *** The prompt *)

Lemma append_inj_l (p x y : string) : p ++ x = p ++ y -> x = y.
Proof.
  induction p as [|c p IH]; cbn; [auto|]. intros [= H]. auto.
Qed.

Lemma append_inj_r (s : string) : forall a b, a ++ s = b ++ s -> a = b.
Proof.
  induction a as [|c a IH]; intros [|c' b] H; cbn in H.
  - reflexivity.
  - apply (f_equal String.length) in H. cbn in H. rewrite length_append in H. lia.
  - apply (f_equal String.length) in H. cbn in H. rewrite length_append in H. lia.
  - injection H as -> H. f_equal. now apply IH.
Qed.

Lemma includes_app_l (p s k : string) :
  includes s k = true -> includes (p ++ s) k = true.
Proof.
  rewrite !includes_iff. intros [pre [post ->]].
  exists (p ++ pre), post. now rewrite append_assoc.
Qed.

(** X29. The prompt sent to the provider carries the user's message
    verbatim, without escaping, and nothing of the message is lost:
    two messages with the same prompt are the same message. *)
Theorem enhancePrompt_carries_message (a b : string) :
  includes (enhancePrompt a) (DQ ++ a ++ DQ) = true /\
  (enhancePrompt a = enhancePrompt b -> a = b).
Proof.
  split.
  - unfold enhancePrompt.
    repeat lazymatch goal with
           | |- includes (DQ ++ a ++ _) _ = true => fail
           | |- includes (_ ++ _) _ = true => apply includes_app_l
           end.
    apply includes_iff. exists EmptyString. eexists.
    cbn [append]. now rewrite !append_assoc.
  - unfold enhancePrompt. intros H.
    repeat match type of H with
           | ?p ++ _ = ?p ++ _ => apply append_inj_l in H
           end.
    eapply append_inj_r. exact H.
Qed.

End RestMore.

(** ** Texts outside ASCII *)

Module UnicodeExamples.
Import IvorPersona GroqService SQLiteService.

(** A message of 1500 accented letters has 1500 characters (and 3000
    bytes): the chain on [message] passes. *)
Example accented_message_is_valid :
  validate_message (Some (Samples.accented 1500)) = Some (Samples.accented 1500) /\
  validate_message (Some (Samples.accented 2000)) = Some (Samples.accented 2000) /\
  validate_message (Some (Samples.accented 2001)) = None.
Proof. vm_compute. repeat split. Qed.

(** A message of white space only, no-break space and line separator
    included, is empty once trimmed: the chain fails. *)
Example blank_message_is_refused :
  trim Samples.blank_message = EmptyString /\
  validate_message (Some Samples.blank_message) = None.
Proof. vm_compute. split; reflexivity. Qed.

(** [trim] removes no-break spaces as it removes spaces. *)
Example trim_removes_no_break_space :
  trim (Samples.no_break_space ++ " OK" ++ Samples.no_break_space ++ " ") = "OK".
Proof. vm_compute. reflexivity. Qed.

(** The Kelvin sign lower-cases to the letter k, so it completes the
    keywords that have one. *)
Example kelvin_sign_completes_work :
  toLowerCase ("help with WOR" ++ Samples.kelvin_sign) = "help with work" /\
  getRelevantUKResources ("help with wor" ++ Samples.kelvin_sign)
  = ["ACAS"; "LGBT Foundation"].
Proof. vm_compute. split; reflexivity. Qed.

(** A valid message outside ASCII is answered like any other. *)
Example accented_message_is_answered :
  exists r w',
    ChatRoutesSqlite.post_chat
      (mkRequest (Some (Samples.accented 1500)) None None)
      (Samples.env_with (Samples.provider_up "I hear you.")) Samples.fresh_world
    = (inr (mkHttpResponse 200 (ChatJson r)), w') /\
    mode r = "groq" /\ response r = "I hear you.".
Proof.
  eexists. eexists. split; [vm_compute; reflexivity|]. split; reflexivity.
Qed.

(** The provider's health check reads a Kelvin sign as a k. *)
Example healthCheck_reads_kelvin_sign :
  fst (GroqService.healthCheck
         (Samples.env_with (Samples.provider_up ("O" ++ Samples.kelvin_sign)))
         Samples.fresh_world)
  = inr true.
Proof. vm_compute. reflexivity. Qed.

(** In a [LIKE] pattern the underscore stands for one character, of
    however many bytes. *)
Example like_underscore_is_one_character :
  like "caf_" ("caf" ++ Samples.accented 1) = true /\
  like "caf__" ("caf" ++ Samples.accented 1) = false.
Proof. vm_compute. split; reflexivity. Qed.

End UnicodeExamples.

(** ** Rounded products *)

Module NumberExamples.

(** The draw 0.6 (the double 5404319552844595 * 2^-53) times 5 is just
    below 3 and rounds to 3: the fourth message is picked. *)
Example rounded_product_picks_fourth :
  Math_floor (Number_mul (5404319552844595 # 2 ^ 53) (inject_Z 5)) = 3%nat /\
  Math_floor ((5404319552844595 # 2 ^ 53) * inject_Z 5) = 2%nat.
Proof. vm_compute. split; reflexivity. Qed.

End NumberExamples.
